(** * dock-tor: scan-result aggregation, severity ordering and gated reporting

    A shallow embedding of [domain_types.py], [scanner.py], [reporting.py]
    and [main.py], and the properties of the severity model, the image
    deduplicator, scan-result construction, grouping and the notification
    gate that hold (or fail) on that code.

    Python text is embedded as Rocq [string]s (byte strings); [str.upper]
    and [str.lower] are the ASCII case mappings, which is what they are on
    the ASCII text that image names, labels and severities consist of. *)

From Stdlib Require Import ZArith Ascii String List Lia Bool OrdersEx.
From stdpp Require Import base tactics option list strings pretty sorting.

Local Open Scope string_scope.
Local Open Scope list_scope.
Local Open Scope Z_scope.

(** ** Python values *)

(** What [json.load] produces, and what the Docker SDK hands out in
    [container.attrs]: [None], booleans, integers, strings, lists and
    dictionaries with string keys.  A dictionary keeps its insertion order,
    so it is an association list; lookups return the first binding. *)
#[local] Unset Elimination Schemes.
Inductive pyval : Type :=
  | PNone
  | PBool (b : bool)
  | PInt (n : Z)
  | PStr (s : string)
  | PList (l : list pyval)
  | PDict (d : list (string * pyval)).
#[local] Set Elimination Schemes.

Module Py.

(** *** Dictionaries *)

Fixpoint get {V : Type} (k : string) (d : list (string * V)) : option V :=
  match d with
  | [] => None
  | (k', v) :: d' => if String.eqb k' k then Some v else get k d'
  end.

(** [d.get(k, dflt)] *)
Definition get_or {V : Type} (k : string) (dflt : V) (d : list (string * V)) : V :=
  default dflt (get k d).

(** [k in d] *)
Definition has_key {V : Type} (k : string) (d : list (string * V)) : bool :=
  bool_decide (is_Some (get k d)).

(** [d[k] = v]: an existing key keeps its position, a new key goes last. *)
Fixpoint set {V : Type} (k : string) (v : V) (d : list (string * V))
  : list (string * V) :=
  match d with
  | [] => [(k, v)]
  | (k', v') :: d' =>
      if String.eqb k' k then (k', v) :: d' else (k', v') :: set k v d'
  end.

(** *** Truth value, iteration, [str()] *)

Definition truthy (v : pyval) : bool :=
  match v with
  | PNone => false
  | PBool b => b
  | PInt n => negb (n =? 0)
  | PStr s => negb (String.eqb s "")
  | PList l => match l with [] => false | _ => true end
  | PDict d => match d with [] => false | _ => true end
  end.

Definition chars (s : string) : list string :=
  (λ c, String c EmptyString) <$> list_ascii_of_string s.

(** [for x in v]: the items, or [None] for the [TypeError] of a value
    that is not iterable. *)
Definition iter (v : pyval) : option (list pyval) :=
  match v with
  | PList l => Some l
  | PStr s => Some (PStr <$> chars s)
  | PDict d => Some ((λ kv, PStr kv.1) <$> d)
  | PNone | PBool _ | PInt _ => None
  end.

Definition hex_digit (n : N) : ascii :=
  ascii_of_N (if (n <? 10)%N then 48 + n else 87 + n).

(** One character inside [repr] of a string delimited by [q]. *)
Definition repr_char (q : ascii) (c : ascii) : string :=
  let n := N_of_ascii c in
  if Ascii.eqb c "\" then "\\"
  else if Ascii.eqb c q then String "\" (String q "")
  else if (n =? 9)%N then "\t"
  else if (n =? 10)%N then "\n"
  else if (n =? 13)%N then "\r"
  else if ((n <? 32) || (n =? 127))%N
       then String "\" (String "x" (String (hex_digit (n / 16))
              (String (hex_digit (n mod 16)) "")))
  else String c "".

Definition contains (c : ascii) (s : string) : bool :=
  existsb (Ascii.eqb c) (list_ascii_of_string s).

(** [repr(s)]: single quotes, unless the text has a single quote and no
    double quote. *)
Definition dquote : ascii := ascii_of_N 34.

Definition repr_str (s : string) : string :=
  let q : ascii := if contains "'"%char s && negb (contains dquote s)
                   then dquote else "'"%char in
  String q (String.concat "" (repr_char q <$> list_ascii_of_string s)
            +:+ String q "").

Fixpoint repr (v : pyval) : string :=
  match v with
  | PNone => "None"
  | PBool true => "True"
  | PBool false => "False"
  | PInt n => pretty n
  | PStr s => repr_str s
  | PList l => "[" +:+ String.concat ", " (map repr l) +:+ "]"
  | PDict d =>
      "{" +:+ String.concat ", "
                (map (λ kv, let '(k, x) := kv in repr_str k +:+ ": " +:+ repr x) d)
          +:+ "}"
  end.

(** [str(v)] *)
Definition str (v : pyval) : string :=
  match v with
  | PStr s => s
  | _ => repr v
  end.

(** *** String methods *)

(** [s.upper()] and [s.lower()] on ASCII letters; every other character is
    left as it is. *)

Definition upper_char (c : ascii) : ascii :=
  let n := N_of_ascii c in
  if ((97 <=? n) && (n <=? 122))%N then ascii_of_N (n - 32) else c.

Definition lower_char (c : ascii) : ascii :=
  let n := N_of_ascii c in
  if ((65 <=? n) && (n <=? 90))%N then ascii_of_N (n + 32) else c.

Fixpoint upper (s : string) : string :=
  match s with
  | EmptyString => EmptyString
  | String c s' => String (upper_char c) (upper s')
  end.

Fixpoint lower (s : string) : string :=
  match s with
  | EmptyString => EmptyString
  | String c s' => String (lower_char c) (lower s')
  end.

(** [s.split(sep)] for a one-character separator: never empty. *)
Fixpoint split (sep : ascii) (s : string) : list string :=
  match s with
  | EmptyString => [EmptyString]
  | String c s' =>
      if Ascii.eqb c sep then EmptyString :: split sep s'
      else match split sep s' with
           | [] => [String c EmptyString]
           | w :: ws => String c w :: ws
           end
  end.

(** [s.replace(old, new)] for one-character [old] and [new]. *)
Fixpoint replace (old new : ascii) (s : string) : string :=
  match s with
  | EmptyString => EmptyString
  | String c s' => String (if Ascii.eqb c old then new else c) (replace old new s')
  end.

End Py.

(** ** settings.py *)

(** The fields of [Settings] that the scanning and reporting code reads.
    [settings] is a process-wide value in the source; here every function
    that reads it takes it as an argument. *)
Record Settings := {
  exclude_label : string;
  only_running : bool;
  attach_json : bool;
  min_notify_severity : string;
  scan_scope : string
}.

(** ** domain_types.py *)

(** A [Vulnerability] is a [TypedDict], at run time a plain dictionary:
    whatever keys the raw scanner record had, plus [image]. *)
Definition Vulnerability : Type := list (string * pyval).

Record ScanResult := {
  image : string;
  findings : Z;
  sev_counts : list (string * Z);
  json_path : string;
  vulnerabilities : list Vulnerability;
  containers : list string
}.

(** Severity ordering (lowest -> highest) *)
Definition SEVERITY_ORDER : list string :=
  ["UNKNOWN"; "LOW"; "MEDIUM"; "HIGH"; "CRITICAL"].

(** [{v: i for i, v in enumerate(SEVERITY_ORDER)}] *)
Definition _SEV_RANK : list (string * Z) :=
  imap (λ i v, (v, Z.of_nat i)) SEVERITY_ORDER.

Definition meets_threshold (severity threshold : string) : bool :=
  let s := if Py.truthy (PStr severity) then Py.upper severity else "UNKNOWN" in
  let t := if Py.truthy (PStr threshold) then Py.upper threshold else "LOW" in
  bool_decide (Py.get_or t 0 _SEV_RANK ≤ Py.get_or s 0 _SEV_RANK).

(** The call [meets_threshold(x, threshold)] where [x] came out of a
    dictionary and need not be a string: a value that is false in a boolean
    context takes the [else "UNKNOWN"] branch whatever its type, any other
    value that is not a string has no [upper] method ([None]: the call
    raises [AttributeError]). *)
Definition meets_threshold_val (x : pyval) (threshold : string) : option bool :=
  match x with
  | PStr s => Some (meets_threshold s threshold)
  | _ => if Py.truthy x then None else Some (meets_threshold "" threshold)
  end.

(** The rank of the severity model: the position of the case-folded level in
    the canonical ordering, [0] (the rank of [UNKNOWN]) for anything else,
    the empty string included. *)
Definition rank (level : string) : Z :=
  Py.get_or (Py.upper level) 0 _SEV_RANK.


(** ** Exceptions over local state *)

(** A statement sequence that updates local variables of type [S] and may
    raise: the state reached is kept when an exception leaves the sequence,
    which is what a surrounding [try ... except Exception: pass] observes.
    [None] stands for a raised exception. *)
Module Try.

Definition run (S A : Type) : Type := S → option A * S.

Definition ret {S A} (a : A) : run S A := λ st, (Some a, st).

Definition bind {S A B} (m : run S A) (k : A → run S B) : run S B :=
  λ st, match m st with
        | (Some a, st') => k a st'
        | (None, st') => (None, st')
        end.

(** An expression that raises or yields a value, without touching state. *)
Definition lift {S A} (o : option A) : run S A := λ st, (o, st).

Definition modify {S} (f : S → S) : run S unit := λ st, (Some tt, f st).

(** [for x in l: body] *)
Fixpoint for_each {S A} (l : list A) (body : A → run S unit) : run S unit :=
  match l with
  | [] => ret tt
  | x :: l' => bind (body x) (λ _, for_each l' body)
  end.

(** [try: m  except Exception: pass] *)
Definition except_pass {S} (m : run S unit) : S → S := λ st, (m st).2.

End Try.

#[global] Instance run_ret {S} : MRet (Try.run S) := λ A, Try.ret.
#[global] Instance run_bind {S} : MBind (Try.run S) := λ A B k m, Try.bind m k.

(** Attribute access that only some types support: [v.get] needs a
    dictionary, [v.upper] and [v.lower] a string. *)
Definition as_dict (v : pyval) : option (list (string * pyval)) :=
  match v with PDict d => Some d | _ => None end.

Definition as_str (v : pyval) : option string :=
  match v with PStr s => Some s | _ => None end.

(** ** scanner.py *)

Module Docker.

Record Image := { tags : list string; id : string }.

Record Container := {
  name : string;
  image : Image;
  attrs : pyval
}.

End Docker.

(** [labels.get(key, "false").lower()] *)
Definition label_lower (labels : pyval) (key : string) : option string :=
  d ← as_dict labels;
  s ← as_str (Py.get_or key (PStr "false") d);
  Some (Py.lower s).

(** The body of the [try] in [has_exclude_label]; [None] when it raises. *)
Definition has_exclude_label_body (settings : Settings) (container : Docker.Container)
  : option bool :=
  attrs ← as_dict (Docker.attrs container);
  config ← as_dict (Py.get_or "Config" (PDict []) attrs);
  let labels := Py.get_or "Labels" (PDict []) config in
  let labels := if Py.truthy labels then labels else PDict [] in
  fixed ← label_lower labels "docktor.ignore";
  if String.eqb fixed "true" then Some true
  else
    let kv := Py.split "=" (exclude_label settings) in
    dynamic ← label_lower labels (default "" (kv !! 0%nat));
    value ← kv !! 1%nat;
    Some (String.eqb dynamic value).

Definition has_exclude_label (settings : Settings) (container : Docker.Container) : bool :=
  default false (has_exclude_label_body settings container).

(** The local variables of [scan_image] that the loop over the artifact
    updates. *)
Record scan_state := {
  st_findings : Z;
  st_sev_counts : list (string * Z);
  st_vulnerabilities : list Vulnerability
}.

Definition scan_init : scan_state :=
  {| st_findings := 0; st_sev_counts := []; st_vulnerabilities := [] |}.

(** [Vulnerability(image=image_ref, **vuln)]: a [TypeError] when [vuln]
    has an [image] key of its own (the keyword is given twice). *)
Definition stamp (image_ref : string) (vuln : list (string * pyval)) : option Vulnerability :=
  if Py.has_key "image" vuln then None else Some (("image", PStr image_ref) :: vuln).

(** The body of the inner loop, for one raw record. *)
Definition scan_vuln (image_ref : string) (vuln : pyval) : Try.run scan_state unit :=
  Try.modify (λ st, {| st_findings := st_findings st + 1;
                       st_sev_counts := st_sev_counts st;
                       st_vulnerabilities := st_vulnerabilities st |}) ;;
  d ← Try.lift (as_dict vuln) ;
  let sev := Py.upper (Py.str (Py.get_or "Severity" (PStr "UNKNOWN") d)) in
  Try.modify (λ st, {| st_findings := st_findings st;
                       st_sev_counts :=
                         Py.set sev (Py.get_or sev 0 (st_sev_counts st) + 1)
                                (st_sev_counts st);
                       st_vulnerabilities := st_vulnerabilities st |}) ;;
  sv ← Try.lift (stamp image_ref d) ;
  Try.modify (λ st, {| st_findings := st_findings st;
                       st_sev_counts := st_sev_counts st;
                       st_vulnerabilities := st_vulnerabilities st ++ [sv] |}).

(** The body of the outer loop, for one entry of [Results]. *)
Definition scan_result (image_ref : string) (result : pyval) : Try.run scan_state unit :=
  r ← Try.lift (as_dict result) ;
  let vs := Py.get_or "Vulnerabilities" (PList []) r in
  vulns ← Try.lift (Py.iter (if Py.truthy vs then vs else PList [])) ;
  Try.for_each vulns (scan_vuln image_ref).

(** The two nested loops over [data]. *)
Definition scan_data (image_ref : string) (data : pyval) : Try.run scan_state unit :=
  top ← Try.lift (as_dict data) ;
  results ← Try.lift (Py.iter (Py.get_or "Results" (PList []) top)) ;
  Try.for_each results (scan_result image_ref).

(** [scan_image], given what the run of the scanner left behind: the path
    of the temporary file and its parsed content, [None] when the file
    cannot be read or is not JSON ([data = {}]). *)
Definition scan_image (image_ref json_path : string) (artifact : option pyval)
  : ScanResult :=
  let data := default (PDict []) artifact in
  let st := Try.except_pass (scan_data image_ref data) scan_init in
  {| image := image_ref;
     findings := st_findings st;
     sev_counts := st_sev_counts st;
     json_path := json_path;
     vulnerabilities := st_vulnerabilities st;
     containers := [] |}.

(** [c.image.tags[0] if c.image.tags else c.image.id] *)
Definition image_ref_of (c : Docker.Container) : string :=
  match Docker.tags (Docker.image c) with
  | t :: _ => t
  | [] => Docker.id (Docker.image c)
  end.

(** [mapping.setdefault(image_ref, []).append(name)] *)
Definition setdefault_append (image_ref name : string)
    (mapping : list (string * list string)) : list (string * list string) :=
  Py.set image_ref (Py.get_or image_ref [] mapping ++ [name]) mapping.

Definition string_le (a b : string) : Prop := String.leb a b = true.

#[global] Instance string_le_dec a b : Decision (string_le a b).
Proof. unfold string_le. apply _. Defined.

(** [sorted(set(xs))]: the distinct strings in increasing order. The order
    in which the set is traversed does not show in the result. *)
Definition sorted_set (xs : list string) : list string :=
  merge_sort string_le (remove_dups xs).

(** The first loop of [scan_all]: [image_refs] and [mapping]. *)
Definition collect_images (settings : Settings) (containers : list Docker.Container)
  : list string * list (string * list string) :=
  foldl (λ acc c,
           if has_exclude_label settings c then acc
           else let image_ref := image_ref_of c in
                (acc.1 ++ [image_ref],
                 setdefault_append image_ref (Docker.name c) acc.2))
        ([], []) containers.

(** Deduplication as [scan_all] does it: [unique_refs] and [mapping]. *)
Definition deduplicate (settings : Settings) (containers : list Docker.Container)
  : list string * list (string * list string) :=
  let '(image_refs, mapping) := collect_images settings containers in
  (sorted_set image_refs, mapping).

(** [scan_all]; [trivy] gives, for an image reference, the temporary path
    and the parsed artifact that the scanner run leaves for it. *)
Definition scan_all (settings : Settings) (trivy : string → string * option pyval)
    (containers : list Docker.Container) : list ScanResult :=
  let '(unique_refs, mapping) := deduplicate settings containers in
  let results :=
    (λ image_ref, scan_image image_ref (trivy image_ref).1 (trivy image_ref).2)
      <$> unique_refs in
  (λ r, {| image := image r;
           findings := findings r;
           sev_counts := sev_counts r;
           json_path := json_path r;
           vulnerabilities := vulnerabilities r;
           containers := Py.get_or (image r) [] mapping |}) <$> results.

(** ** Vocabulary for the statements about [scan_image] *)

(** An artifact with one [Results] entry whose [Vulnerabilities] are
    [records]. *)
Definition artifact_of (records : list pyval) : pyval :=
  PDict [("Results", PList [PDict [("Vulnerabilities", PList records)]])].

(** A raw record that the loop body processes without raising: a JSON object
    with no [image] key of its own. *)
Definition well_formed (record : pyval) : bool :=
  match record with
  | PDict d => negb (Py.has_key "image" d)
  | _ => false
  end.

(** The key under which the loop body tallies a record. *)
Definition tally_key (record : pyval) : string :=
  Py.upper (Py.str (Py.get_or "Severity" (PStr "UNKNOWN") (default [] (as_dict record)))).

(** The finding stored for a well-formed record. *)
Definition finding_of (image_ref : string) (record : pyval) : Vulnerability :=
  ("image", PStr image_ref) :: default [] (as_dict record).

(** [sum(sev_counts.values())] *)
Definition sum_values (counts : list (string * Z)) : Z :=
  foldr Z.add 0 counts.*2.

(** How often a key occurs among the tally keys of [records]. *)
Definition occurrences (k : string) (records : list pyval) : Z :=
  Z.of_nat (length (filter (λ r, tally_key r = k) records)).

(** The local state after a record that is processed to the end. *)
Definition counted (image_ref : string) (st : scan_state) (record : pyval) : scan_state :=
  {| st_findings := st_findings st + 1;
     st_sev_counts :=
       Py.set (tally_key record)
              (Py.get_or (tally_key record) 0 (st_sev_counts st) + 1)
              (st_sev_counts st);
     st_vulnerabilities := st_vulnerabilities st ++ [finding_of image_ref record] |}.

(** The three counts agree. *)
Definition consistent (st : scan_state) : Prop :=
  st_findings st = sum_values (st_sev_counts st)
  ∧ sum_values (st_sev_counts st) = Z.of_nat (length (st_vulnerabilities st)).

(** The three counts are in order and at most one apart. *)
Definition nearly_consistent (st : scan_state) : Prop :=
  Z.of_nat (length (st_vulnerabilities st)) ≤ sum_values (st_sev_counts st)
  ∧ sum_values (st_sev_counts st) ≤ st_findings st
  ∧ st_findings st ≤ Z.of_nat (length (st_vulnerabilities st)) + 1.

Definition state_of (r : ScanResult) : scan_state :=
  {| st_findings := findings r;
     st_sev_counts := sev_counts r;
     st_vulnerabilities := vulnerabilities r |}.

(** ** Vocabulary for the statements about deduplication *)

Definition string_lt (a b : string) : Prop := String.ltb a b = true.

(** The containers that [scan_all] does not skip. *)
Definition kept (settings : Settings) (containers : list Docker.Container)
  : list Docker.Container :=
  filter (λ c, has_exclude_label settings c = false) containers.

(** The names of the containers of a list that use an image, in the order
    of the list. *)
Definition users (image_ref : string) (containers : list Docker.Container) : list string :=
  Docker.name <$> filter (λ c, image_ref_of c = image_ref) containers.

(** ** reporting.py *)

(** Dictionaries whose keys are Python values rather than strings:
    [grouped] is keyed by whatever [v.get("image")] returned. A key must be
    hashable, and keys are compared with Python's [==], under which
    [True == 1] and [False == 0]. *)
Module Keyed.

Definition hashable (k : pyval) : bool :=
  match k with
  | PList _ | PDict _ => false
  | _ => true
  end.

Definition eqb (a b : pyval) : bool :=
  match a, b with
  | PNone, PNone => true
  | PStr s, PStr t => String.eqb s t
  | PBool x, PBool y => Bool.eqb x y
  | PInt m, PInt n => m =? n
  | PBool x, PInt n | PInt n, PBool x => n =? (if x then 1 else 0)
  | _, _ => false
  end.

Fixpoint get {V : Type} (k : pyval) (d : list (pyval * V)) : option V :=
  match d with
  | [] => None
  | (k', v) :: d' => if eqb k' k then Some v else get k d'
  end.

Fixpoint set {V : Type} (k : pyval) (v : V) (d : list (pyval * V))
  : list (pyval * V) :=
  match d with
  | [] => [(k, v)]
  | (k', v') :: d' =>
      if eqb k' k then (k', v) :: d' else (k', v') :: set k v d'
  end.

End Keyed.

(** A severity bucket of the report, [{"severity": sev, "items": [...]}],
    and a group, [{"image": image, "severities": [...]}]. *)
Record Bucket (I : Type) := { severity : string; items : I }.
Arguments severity {I} _.
Arguments items {I} _.

Record Group (I : Type) := { group_image : pyval; severities : list (Bucket I) }.
Arguments group_image {I} _.
Arguments severities {I} _.

Definition _aggregate_vulns (results : list ScanResult) : list Vulnerability :=
  r ← results; vulnerabilities r.

(** [list(reversed(SEVERITY_ORDER))] *)
Definition rev_severity_order : list string := reverse SEVERITY_ORDER.

(** [v.get("Severity", "UNKNOWN")] *)
Definition severity_of (v : Vulnerability) : pyval :=
  Py.get_or "Severity" (PStr "UNKNOWN") v.

(** [v.get("image") or "<unknown>"] *)
Definition image_of (v : Vulnerability) : pyval :=
  let x := Py.get_or "image" PNone v in
  if Py.truthy x then x else PStr "<unknown>".

(** [[v for v in vulns if meets_threshold(v.get("Severity", "UNKNOWN"), threshold)]];
    [None] when one of the calls raises. *)
Fixpoint filter_by_threshold (threshold : string) (vulns : list Vulnerability)
  : option (list Vulnerability) :=
  match vulns with
  | [] => Some []
  | v :: vulns' =>
      passes ← meets_threshold_val (severity_of v) threshold;
      rest ← filter_by_threshold threshold vulns';
      Some (if passes : bool then v :: rest else rest)
  end.

(** [{sev: [] for sev in rev_severity_order}] *)
Definition empty_buckets : list (string * list Vulnerability) :=
  (λ sev, (sev, [])) <$> rev_severity_order.

(** The first loop of grouping: one entry per result. *)
Definition group_init (results : list ScanResult)
  : list (pyval * list (string * list Vulnerability)) :=
  foldl (λ grouped r, Keyed.set (PStr (image r)) empty_buckets grouped) [] results.

(** The second half of the body of the second loop: the finding goes to the
    end of [grouped[img][sev]], a bucket that is created when the severity
    has none; [None] for the [AttributeError] of a severity without
    [upper]. *)
Definition group_file (grouped : list (pyval * list (string * list Vulnerability)))
    (img : pyval) (v : Vulnerability)
  : option (list (pyval * list (string * list Vulnerability))) :=
  sev ← Py.upper <$> as_str (severity_of v);
  sev_map ← Keyed.get img grouped;
  let sev_map := if Py.has_key sev sev_map then sev_map else Py.set sev [] sev_map in
  bucket ← Py.get sev sev_map;
  Some (Keyed.set img (Py.set sev (bucket ++ [v]) sev_map) grouped).

(** The body of the second loop, for one filtered finding; [None] when it
    raises: [TypeError] for an image that cannot be a key, or in
    [group_file]. *)
Definition group_add (grouped : list (pyval * list (string * list Vulnerability)))
    (v : Vulnerability) : option (list (pyval * list (string * list Vulnerability))) :=
  let img := image_of v in
  guard (Keyed.hashable img = true);;
  let grouped :=
    match Keyed.get img grouped with
    | Some _ => grouped
    | None => Keyed.set img empty_buckets grouped
    end in
  group_file grouped img v.

Fixpoint group_fill (grouped : list (pyval * list (string * list Vulnerability)))
    (filtered : list Vulnerability)
  : option (list (pyval * list (string * list Vulnerability))) :=
  match filtered with
  | [] => Some grouped
  | v :: filtered' => grouped' ← group_add grouped v; group_fill grouped' filtered'
  end.

(** The last loop: the non-empty canonical buckets of each image, highest
    severity first. *)
Definition compact (sev_map : list (string * list Vulnerability))
  : list (Bucket (list Vulnerability)) :=
  omap (λ sev, match Py.get sev sev_map with
               | Some (x :: l) => Some {| severity := sev; items := x :: l |}
               | _ => None
               end) rev_severity_order.

(** [grouped], as it stands before the last loop. *)
Definition grouped_by_image (threshold : string) (results : list ScanResult)
  : option (list (pyval * list (string * list Vulnerability))) :=
  filtered ← filter_by_threshold threshold (_aggregate_vulns results);
  group_fill (group_init results) filtered.

Definition group_vulns_by_image_and_severity (settings : Settings)
    (results : list ScanResult) : option (list (Group (list Vulnerability))) :=
  match grouped_by_image (min_notify_severity settings) results with
  | Some grouped =>
      Some ((λ entry, {| group_image := entry.1; severities := compact entry.2 |})
              <$> grouped)
  | None => None
  end.

(** The sort key of [build_attachments]. *)
Definition attachment_sort_key (v : Vulnerability) : option Z :=
  sev ← Py.upper <$> as_str (severity_of v);
  Some (match list_find (λ s, s = sev) SEVERITY_ORDER with
        | Some (i, _) => - Z.of_nat i
        | None => - Z.of_nat (length SEVERITY_ORDER)
        end).

(** [sorted(xs, key=...)] on keys already computed: increasing, and stable
    (an element goes in front of the later elements with the same key). *)
Fixpoint insert_by_key {A} (x : Z * A) (l : list (Z * A)) : list (Z * A) :=
  match l with
  | [] => [x]
  | y :: l' => if bool_decide (y.1 < x.1) then y :: insert_by_key x l' else x :: y :: l'
  end.

Definition sorted_by_key {A} (l : list (Z * A)) : list A :=
  (foldr insert_by_key [] l).*2.

(** [ordered_vulns] of [build_attachments]; [None] when a key raises. *)
Definition ordered_vulns (r : ScanResult) : option (list Vulnerability) :=
  keyed ← mapM (λ v, k ← attachment_sort_key v; Some (k, v)) (vulnerabilities r);
  Some (sorted_by_key keyed).

(** [(filename, path on disk, MIME type)] *)
Definition Attachment : Type := string * string * string.

(** The directory part of a path, as [pathlib] gives it for the absolute
    paths that [tempfile.mkstemp] returns. *)
Fixpoint parent_chars (cs : list ascii) : option (list ascii) :=
  match cs with
  | [] => None
  | c :: cs' =>
      match parent_chars cs' with
      | Some p => Some (c :: p)
      | None => if Ascii.eqb c "/" then Some [] else None
      end
  end.

Definition parent (path : string) : string :=
  string_of_list_ascii (default [] (parent_chars (list_ascii_of_string path))).

(** What the program does to the outside world, in the order it does it. *)
Inductive event : Type :=
  | LogInfo (message : string)
  | RenderReports (results : list ScanResult)
                  (grouped_vulnerabilities : list (Group (list Vulnerability)))
                  (threshold : string)
  | RenderImageReport (r : ScanResult) (vulns : list Vulnerability) (threshold : string)
  | WriteText (path : string)
  | SendEmail (subject : string) (attachments : list Attachment)
  | Uncaught.

Definition is_log (e : event) : bool :=
  match e with LogInfo _ => true | _ => false end.

(** The body of the loop of [build_attachments], for one result: the
    events, and the attachments it adds; an exception ends it. [json_path]
    is what [tempfile.mkstemp] returned, an absolute path with a file name,
    for which the path arithmetic does not raise. *)
Definition attach_result (settings : Settings) (r : ScanResult)
  : Try.run (list event * list Attachment) unit :=
  let image_safe := Py.replace ":" "_" (Py.replace "/" "_" (image r)) in
  let md_path := parent (json_path r) +:+ "/report_" +:+ image_safe +:+ ".md" in
  let threshold := min_notify_severity settings in
  vulns ← Try.lift (ordered_vulns r);
  Try.modify (λ st,
    (st.1 ++ [RenderImageReport r vulns threshold; WriteText md_path],
     st.2 ++ [("report_" +:+ image_safe +:+ ".md", md_path, "text/markdown")]
          ++ (if attach_json settings
              then [("trivy_" +:+ image_safe +:+ ".json", json_path r, "application/json")]
              else []))).

Definition build_attachments (settings : Settings) (results : list ScanResult)
  : Try.run (list event * list Attachment) unit :=
  Try.for_each results (attach_result settings).

(** [render_reports]: the context handed to the two templates. *)
Definition render_reports (settings : Settings) (results : list ScanResult)
  : Try.run (list event * list Attachment) unit :=
  grouped ← Try.lift (group_vulns_by_image_and_severity settings results);
  Try.modify (λ st,
    (st.1 ++ [RenderReports results grouped (min_notify_severity settings)], st.2)).

(** ** main.py *)

(** [any(meets_threshold(v.get("Severity", "UNKNOWN"), threshold) for v in vulns)]:
    stops at the first finding that meets the threshold. *)
Fixpoint any_meets (threshold : string) (vulns : list Vulnerability) : option bool :=
  match vulns with
  | [] => Some false
  | v :: vulns' =>
      hit ← meets_threshold_val (severity_of v) threshold;
      if hit : bool then Some true else any_meets threshold vulns'
  end.

(** [any_trigger] of [main] *)
Fixpoint any_trigger (threshold : string) (results : list ScanResult) : option bool :=
  match results with
  | [] => Some false
  | r :: results' =>
      hit ← any_meets threshold (vulnerabilities r);
      if hit : bool then Some true else any_trigger threshold results'
  end.

(** [main], from the scan results on: the events it causes. *)
Definition report (settings : Settings) (results : list ScanResult) : list event :=
  match results with
  | [] => [LogInfo "No containers to scan."]
  | _ =>
      match any_trigger (min_notify_severity settings) results with
      | None => [Uncaught]
      | Some false =>
          [LogInfo ("No vulnerabilities meeting threshold "
                    +:+ min_notify_severity settings
                    +:+ " found; notification suppressed.")]
      | Some true =>
          let subject :=
            "[Docker Scan] " +:+ pretty (length results)
            +:+ " image(s) scanned (threshold " +:+ min_notify_severity settings +:+ ")" in
          let '(outcome, (events, attachments)) :=
            (render_reports settings results;;
             build_attachments settings results) ([], []) in
          match outcome with
          | Some _ => events ++ [SendEmail subject attachments]
          | None => events ++ [Uncaught]
          end
      end
  end.

Definition main (settings : Settings) (trivy : string → string * option pyval)
    (containers : list Docker.Container) : list event :=
  report settings (scan_all settings trivy containers).

(** ** Vocabulary for the statements about reports *)

(** A finding as the [Vulnerability] type declares it: [Severity] and
    [image], when present, are strings. *)
Definition typed (v : Vulnerability) : Prop :=
  (Py.get "Severity" v = None ∨ ∃ s, Py.get "Severity" v = Some (PStr s))
  ∧ (Py.get "image" v = None ∨ ∃ s, Py.get "image" v = Some (PStr s)).

Definition all_typed (results : list ScanResult) : Prop :=
  Forall (λ r, Forall typed (vulnerabilities r)) results.

(** The severity text of a typed finding. *)
Definition severity_text (v : Vulnerability) : string :=
  default "" (as_str (severity_of v)).

(** The image text of a typed finding, after [or "<unknown>"]. *)
Definition image_text (v : Vulnerability) : string :=
  default "" (as_str (image_of v)).

(** [shouldNotify] of the specification: some finding of some result meets
    the threshold. *)
Definition some_finding_meets (threshold : string) (results : list ScanResult) : Prop :=
  ∃ r v, r ∈ results ∧ v ∈ vulnerabilities r
         ∧ meets_threshold (severity_text v) threshold = true.

(** *** Grouping on findings of the declared type *)

(** A dictionary with string keys as one with value keys. *)
Definition str_keys {B : Type} (g : list (string * B)) : list (pyval * B) :=
  (λ e, (PStr e.1, e.2)) <$> g.

(** The first loop, and the body of the second, when every image is a
    string. *)
Definition init_typed (results : list ScanResult)
  : list (string * list (string * list Vulnerability)) :=
  foldl (λ grouped r, Py.set (image r) empty_buckets grouped) [] results.

Definition add_typed (grouped : list (string * list (string * list Vulnerability)))
    (v : Vulnerability) : list (string * list (string * list Vulnerability)) :=
  let img := image_text v in
  let sev := Py.upper (severity_text v) in
  let grouped :=
    if Py.has_key img grouped then grouped else Py.set img empty_buckets grouped in
  let sev_map := Py.get_or img [] grouped in
  let sev_map := if Py.has_key sev sev_map then sev_map else Py.set sev [] sev_map in
  Py.set img (Py.set sev (Py.get_or sev [] sev_map ++ [v]) sev_map) grouped.

(** What [grouped[img][sev]] holds, nothing when a key is absent. *)
Definition cell (grouped : list (string * list (string * list Vulnerability)))
    (img sev : string) : list Vulnerability :=
  Py.get_or sev [] (Py.get_or img [] grouped).

(** The distinct elements of a list, each at its first occurrence. *)
Definition note_first (acc : list string) (x : string) : list string :=
  if decide (x ∈ acc) then acc else acc ++ [x].

Definition first_occurrences (l : list string) : list string :=
  foldl note_first [] l.

(** The finding passes the threshold filter. *)
Definition passes (threshold : string) (v : Vulnerability) : Prop :=
  meets_threshold (severity_text v) threshold = true.

#[global] Instance passes_dec threshold v : Decision (passes threshold v).
Proof. unfold passes. apply _. Defined.

(** The finding is attributed to image [img] and goes under key [sev]. *)
Definition filed_under (img sev : string) (v : Vulnerability) : Prop :=
  image_text v = img ∧ Py.upper (severity_text v) = sev.

#[global] Instance filed_under_dec img sev v : Decision (filed_under img sev v).
Proof. unfold filed_under. apply _. Defined.

(** The findings of all results that pass the threshold, and those of them
    filed under an image and a severity, in the order of the results. *)
Definition filtered_vulns (threshold : string) (results : list ScanResult)
  : list Vulnerability :=
  filter (passes threshold) (_aggregate_vulns results).

Definition selected (threshold : string) (results : list ScanResult)
    (img sev : string) : list Vulnerability :=
  filter (filed_under img sev) (filtered_vulns threshold results).

(** The buckets expected for an image: for each canonical level from the
    highest down, the selected findings, when there are any. *)
Definition expected_severities (threshold : string) (results : list ScanResult)
    (img : string) : list (Bucket (list Vulnerability)) :=
  omap (λ sev, match selected threshold results img sev with
               | [] => None
               | x :: l => Some {| severity := sev; items := x :: l |}
               end) rev_severity_order.

(** The images expected in the report: those of the results, then those
    named only by filtered findings. *)
Definition expected_images (threshold : string) (results : list ScanResult)
  : list string :=
  first_occurrences ((image <$> results)
                     ++ (image_text <$> filtered_vulns threshold results)).

(** [grouped] for results of the declared type, on string keys. *)
Definition grouped_typed (threshold : string) (results : list ScanResult)
  : list (string * list (string * list Vulnerability)) :=
  foldl add_typed (init_typed results) (filtered_vulns threshold results).

(** One bucket ranks above another. *)
Definition ranks_above {I} (a b : Bucket I) : Prop := rank (severity b) < rank (severity a).

(** ** Grouping over a store of objects *)

(** The same function with the objects it shares made explicit. A
    [ScanResult] instance and the lists and dictionary it refers to are
    cells of a store; the instance holds references. The lists that
    grouping creates for its buckets are cells as well, and [append] acts on
    the cell that [grouped[img][sev]] refers to; the report refers to these
    cells. The dictionaries [grouped] and [grouped[img]] map keys to the
    references of their lists. *)
Module Store.

Abbreviation loc := nat (only parsing).

Inductive object : Type :=
  | OScan (image : string) (findings : Z) (sev_counts : loc)
          (json_path : string) (vulnerabilities : loc) (containers : loc)
  | OCounts (d : list (string * Z))
  | ONames (l : list string)
  | OFindings (l : list Vulnerability).

Abbreviation store := (list object) (only parsing).

(** A new cell, behind every cell there is. *)
Definition alloc (o : object) : Try.run store loc :=
  λ h, (Some (length h), h ++ [o]).

Definition load (l : loc) : Try.run store object :=
  λ h, (h !! l, h).

Definition write (l : loc) (o : object) : Try.run store unit :=
  λ h, (Some tt, <[l := o]> h).

Definition load_findings (l : loc) : Try.run store (list Vulnerability) :=
  o ← load l;
  Try.lift (match o with OFindings x => Some x | _ => None end).

(** [r.image] and [r.vulnerabilities] of the instance at [l]. *)
Definition load_scan (l : loc) : Try.run store (string * loc) :=
  o ← load l;
  Try.lift (match o with
            | OScan image _ _ _ vulnerabilities _ => Some (image, vulnerabilities)
            | _ => None
            end).

(** [the_list.append(v)] *)
Definition append (l : loc) (v : Vulnerability) : Try.run store unit :=
  x ← load_findings l;
  write l (OFindings (x ++ [v])).

(** A comprehension whose element expression is [f]. *)
Fixpoint map_each {S A B} (f : A → Try.run S B) (l : list A) : Try.run S (list B) :=
  match l with
  | [] => mret []
  | x :: l' => y ← f x; ys ← map_each f l'; mret (y :: ys)
  end.

(** A loop that rebinds or updates one local variable. *)
Fixpoint fold_each {S A B} (f : B → A → Try.run S B) (b : B) (l : list A) : Try.run S B :=
  match l with
  | [] => mret b
  | x :: l' => b' ← f b x; fold_each f b' l'
  end.

Definition aggregate_vulns (results : list loc) : Try.run store (list Vulnerability) :=
  per_result ← map_each (λ r, scan ← load_scan r; load_findings scan.2) results;
  mret (mjoin per_result).

(** [{sev: [] for sev in rev_severity_order}]: a new list for every key. *)
Definition empty_buckets : Try.run store (list (string * loc)) :=
  map_each (λ sev, l ← alloc (OFindings []); mret (sev, l)) rev_severity_order.

Definition group_init (results : list loc) : Try.run store (list (pyval * list (string * loc))) :=
  fold_each (λ grouped r,
               scan ← load_scan r;
               sev_map ← empty_buckets;
               mret (Keyed.set (PStr scan.1) sev_map grouped))
            [] results.

Definition group_file (grouped : list (pyval * list (string * loc)))
    (img : pyval) (v : Vulnerability)
  : Try.run store (list (pyval * list (string * loc))) :=
  sev ← Try.lift (Py.upper <$> as_str (severity_of v));
  sev_map ← Try.lift (Keyed.get img grouped);
  sev_map ← (if Py.has_key sev sev_map then mret sev_map
             else l ← alloc (OFindings []); mret (Py.set sev l sev_map));
  bucket ← Try.lift (Py.get sev sev_map);
  append bucket v;;
  mret (Keyed.set img sev_map grouped).

Definition group_add (grouped : list (pyval * list (string * loc))) (v : Vulnerability)
  : Try.run store (list (pyval * list (string * loc))) :=
  let img := image_of v in
  Try.lift (guard (Keyed.hashable img = true));;
  grouped ← match Keyed.get img grouped with
            | Some _ => mret grouped
            | None => sev_map ← empty_buckets; mret (Keyed.set img sev_map grouped)
            end;
  group_file grouped img v.

Definition compact (sev_map : list (string * loc)) : Try.run store (list (Bucket loc)) :=
  fold_each (λ ordered sev,
               match Py.get sev sev_map with
               | Some l =>
                   x ← load_findings l;
                   mret (match x with
                         | [] => ordered
                         | _ => ordered ++ [{| severity := sev; items := l |}]
                         end)
               | None => mret ordered
               end)
            [] rev_severity_order.

Definition group_vulns_by_image_and_severity (settings : Settings) (results : list loc)
  : Try.run store (list (Group loc)) :=
  all_vulns ← aggregate_vulns results;
  filtered_vulns ← Try.lift (filter_by_threshold (min_notify_severity settings) all_vulns);
  grouped ← group_init results;
  grouped ← fold_each group_add grouped filtered_vulns;
  map_each (λ entry, ordered ← compact entry.2;
                     mret {| group_image := entry.1; severities := ordered |})
           grouped.

(** *** Reading the store *)

Definition findings_at (h : store) (l : loc) : option (list Vulnerability) :=
  match h !! l with Some (OFindings x) => Some x | _ => None end.

(** One bucket of a report with its list read out of the store. *)
Definition bucket_at (h : store) (b : Bucket loc) : option (Bucket (list Vulnerability)) :=
  x ← findings_at h (items b); Some {| severity := severity b; items := x |}.

(** The [ScanResult] that the instance at [l] stands for. *)
Definition result_at (h : store) (l : loc) : option ScanResult :=
  match h !! l with
  | Some (OScan image findings c json_path v n) =>
      match h !! c, h !! v, h !! n with
      | Some (OCounts counts), Some (OFindings vulns), Some (ONames names) =>
          Some {| image := image; findings := findings; sev_counts := counts;
                  json_path := json_path; vulnerabilities := vulns;
                  containers := names |}
      | _, _, _ => None
      end
  | _ => None
  end.

(** The report with the lists it refers to read out of the store. *)
Definition report_at (h : store) (report : list (Group loc))
  : option (list (Group (list Vulnerability))) :=
  mapM (λ g, buckets ← mapM (bucket_at h) (severities g);
             Some {| group_image := group_image g; severities := buckets |})
       report.

(** What a call returns in a store, read out of the store it leaves;
    [None] when the call raises. *)
Definition outcome (settings : Settings) (results : list loc) (h : store)
  : option (list (Group (list Vulnerability))) :=
  let '(out, h') := group_vulns_by_image_and_severity settings results h in
  report ← out; report_at h' report.

(** The store a call leaves. *)
Definition after (settings : Settings) (results : list loc) (h : store) : store :=
  (group_vulns_by_image_and_severity settings results h).2.

(** *** Vocabulary for the statements about the store *)

(** The list in a cell, nothing when there is none. *)
Definition deref (h : store) (l : loc) : list Vulnerability :=
  default [] (findings_at h l).

Definition read_sev_map (h : store) (sev_map : list (string * loc))
  : list (string * list Vulnerability) :=
  (λ e, (e.1, deref h e.2)) <$> sev_map.

Definition read_grouped (h : store) (grouped : list (pyval * list (string * loc)))
  : list (pyval * list (string * list Vulnerability)) :=
  (λ e, (e.1, read_sev_map h e.2)) <$> grouped.

(** The cells that [grouped] refers to. *)
Definition leaves (grouped : list (pyval * list (string * loc))) : list loc :=
  e ← grouped; e.2.*2.

(** A cell that holds a list and was created at or after mark [n0]. *)
Definition own_list (n0 : nat) (h : store) (l : loc) : Prop :=
  (n0 ≤ l)%nat ∧ is_Some (findings_at h l).

(** [grouped] refers to list cells created after the mark, to each once. *)
Definition owned (n0 : nat) (h : store) (grouped : list (pyval * list (string * loc)))
  : Prop :=
  NoDup (leaves grouped) ∧ Forall (own_list n0 h) (leaves grouped).

(** From [h] to [h'] no cell below the mark changed, and none vanished. *)
Definition preserves (n0 : nat) (h h' : store) : Prop :=
  (length h ≤ length h')%nat ∧ ∀ l, (l < n0)%nat → h' !! l = h !! l.

(** [r.image] and the reference [r.vulnerabilities] of the instance at [l]. *)
Definition scan_at (h : store) (l : loc) : option (string * loc) :=
  match h !! l with
  | Some (OScan image _ _ _ vulnerabilities _) => Some (image, vulnerabilities)
  | _ => None
  end.

(** The results that the instances at [results] stand for. *)
Definition results_at (h : store) (results : list loc) : option (list ScanResult) :=
  mapM (result_at h) results.

End Store.

(** ** Vocabulary for the statements about the attachment ordering *)

(** The finding's severity is a string that names a canonical level. *)
Definition categorized (v : Vulnerability) : Prop :=
  ∃ s, severity_of v = PStr s ∧ Py.upper s ∈ SEVERITY_ORDER.

(** One finding is listed no lower than another of a higher rank. *)
Definition rank_not_below (a b : Vulnerability) : Prop :=
  rank (severity_text b) ≤ rank (severity_text a).

(** ** Further vocabulary: the severity model *)

(** Text of ASCII characters only. On such text [Py.upper] and [Py.lower]
    are [str.upper] and [str.lower]; other characters are left as they are
    by [Py.upper] and [Py.lower], which [str.upper] and [str.lower] need
    not do. *)
Definition ascii_text (s : string) : bool :=
  forallb (λ c, (N_of_ascii c <? 128)%N) (list_ascii_of_string s).

(** The rank that [meets_threshold] compares a severity against: that of
    the threshold, and that of [LOW] for the empty threshold. *)
Definition threshold_rank (threshold : string) : Z :=
  if String.eqb threshold "" then rank "LOW" else rank threshold.

(** ** domain_types.py: [ScanResult.severity_breakdown] *)

(** The order of [(key, count)] tuples: by key, then by count. *)
Definition item_le (a b : string * Z) : Prop :=
  string_lt a.1 b.1 ∨ (a.1 = b.1 ∧ a.2 ≤ b.2).

#[global] Instance string_lt_dec a b : Decision (string_lt a b).
Proof. unfold string_lt. apply _. Defined.

#[global] Instance item_le_dec a b : Decision (item_le a b).
Proof. unfold item_le. apply _. Defined.

(** [", ".join(f"{k}:{v}" for k, v in sorted(self.sev_counts.items()))] *)
Definition severity_breakdown (r : ScanResult) : string :=
  String.concat ", "
    ((λ kv, kv.1 +:+ ":" +:+ pretty kv.2) <$> merge_sort item_le (sev_counts r)).

(** ** scanner.py: labels *)

(** [c.attrs.get("Config", {}).get("Labels", {}) or {}]; [None] when it
    raises. *)
Definition labels_of (c : Docker.Container) : option pyval :=
  attrs ← as_dict (Docker.attrs c);
  config ← as_dict (Py.get_or "Config" (PDict []) attrs);
  let labels := Py.get_or "Labels" (PDict []) config in
  Some (if Py.truthy labels then labels else PDict []).

(** The container carries the fixed label [docktor.ignore] with the value
    [true], in any letter case. *)
Definition fixed_label (c : Docker.Container) : bool :=
  match labels_of c ≫= λ labels, label_lower labels "docktor.ignore" with
  | Some value => String.eqb value "true"
  | None => false
  end.

(** The value part of the configured exclusion label, when there is one. *)
Definition configured_value (settings : Settings) : option string :=
  Py.split "=" (exclude_label settings) !! 1%nat.

(** The key part of the configured exclusion label. *)
Definition configured_key (settings : Settings) : string :=
  default "" (Py.split "=" (exclude_label settings) !! 0%nat).

(** ** scanner.py: [enumerate_containers] *)

(** Python's [==] on the values of the embedding: [True == 1], lists are
    compared element by element, dictionaries as mappings. *)
Fixpoint py_eqb (a b : pyval) : bool :=
  match a, b with
  | PNone, PNone => true
  | PStr s, PStr t => String.eqb s t
  | PBool x, PBool y => Bool.eqb x y
  | PInt m, PInt n => m =? n
  | PBool x, PInt n | PInt n, PBool x => n =? (if x then 1 else 0)
  | PList l, PList l' =>
      (fix all2 (l l' : list pyval) : bool :=
         match l, l' with
         | [], [] => true
         | x :: l, y :: l' => py_eqb x y && all2 l l'
         | _, _ => false
         end) l l'
  | PDict d, PDict d' =>
      (length d =? length d')%nat
      && (fix all (d : list (string * pyval)) : bool :=
            match d with
            | [] => true
            | (k, x) :: d =>
                match Py.get k d' with
                | Some y => py_eqb x y
                | None => false
                end && all d
            end) d
  | _, _ => false
  end.

Module Daemon.

(** A container as the daemon lists it: with its id. *)
Record Entry := { id : string; container : Docker.Container }.

End Daemon.

(** [labels.get(key)] on what [labels_of] returned; [None] when the value
    has no [get]. *)
Definition label_get (labels : pyval) (key : string) : option pyval :=
  d ← as_dict labels; Some (Py.get_or key PNone d).

(** The loop that looks for a container of the service [dock-tor] and takes
    its project; [None] when reading some labels raises. *)
Fixpoint find_project (containers : list Daemon.Entry) : option pyval :=
  match containers with
  | [] => Some PNone
  | c :: containers' =>
      labels ← labels_of (Daemon.container c);
      service ← label_get labels "com.docker.compose.service";
      if py_eqb service (PStr "dock-tor")
      then label_get labels "com.docker.compose.project"
      else find_project containers'
  end.

(** The last loop: the containers of the project; [None] when reading some
    labels raises. *)
Fixpoint of_project (compose_project : pyval) (containers : list Daemon.Entry)
  : option (list Daemon.Entry) :=
  match containers with
  | [] => Some []
  | c :: containers' =>
      labels ← labels_of (Daemon.container c);
      project ← label_get labels "com.docker.compose.project";
      rest ← of_project compose_project containers';
      Some (if py_eqb project compose_project then c :: rest else rest)
  end.

(** [enumerate_containers]. [daemon all] is what
    [client.containers.list(all=all)] returns, [self_id] the value of
    [HOSTNAME] (empty when unset), and [own_project] the project label that
    the lookup of this very container gives, [PNone] when the lookup raises
    or finds no such label. *)
Definition enumerate_containers (settings : Settings) (daemon : bool → list Daemon.Entry)
    (self_id : string) (own_project : pyval) : list Daemon.Entry :=
  let containers :=
    filter (λ c, String.prefix self_id (Daemon.id c) = false)
           (daemon (negb (only_running settings))) in
  if negb (String.eqb (scan_scope settings) "COMPOSE") then containers
  else
    default containers
      (compose_project ← (if Py.truthy own_project then Some own_project
                          else find_project containers);
       if negb (Py.truthy compose_project) then Some containers
       else of_project compose_project containers).

(** The whole run: [main] with the containers that the daemon lists. *)
Definition run (settings : Settings) (daemon : bool → list Daemon.Entry)
    (self_id : string) (own_project : pyval)
    (trivy : string → string * option pyval) : list event :=
  main settings trivy
    (Daemon.container <$> enumerate_containers settings daemon self_id own_project).

(** The containers that the daemon lists, without this one. *)
Definition others (settings : Settings) (daemon : bool → list Daemon.Entry)
    (self_id : string) : list Daemon.Entry :=
  filter (λ c, String.prefix self_id (Daemon.id c) = false)
         (daemon (negb (only_running settings))).

(** The value of the project label of a container, [None] when reading it
    raises. *)
Definition project_of (c : Daemon.Entry) : option pyval :=
  labels ← labels_of (Daemon.container c);
  label_get labels "com.docker.compose.project".

(** The value of the service label of a container, [None] when reading it
    raises. *)
Definition service_of (c : Daemon.Entry) : option pyval :=
  labels ← labels_of (Daemon.container c);
  label_get labels "com.docker.compose.service".

(** ** scanner.py: [scan_image] on any artifact *)

(** What the inner loop iterates over for one entry of [Results]; [None]
    when reading the entry raises. *)
Definition entry_iter (result : pyval) : option (list pyval) :=
  r ← as_dict result;
  let vs := Py.get_or "Vulnerabilities" (PList []) r in
  Py.iter (if Py.truthy vs then vs else PList []).

(** The raw records of one entry of [Results], none for an entry that
    cannot be read. *)
Definition entry_records (result : pyval) : list pyval :=
  default [] (entry_iter result).

(** What the outer loop iterates over; [None] when reading it raises. *)
Definition data_iter (data : pyval) : option (list pyval) :=
  top ← as_dict data;
  Py.iter (Py.get_or "Results" (PList []) top).

(** The raw records of an artifact, in the order of the document. *)
Definition records_of (artifact : option pyval) : list pyval :=
  default [] (data_iter (default (PDict []) artifact)) ≫= entry_records.

(** Every part of the artifact that the loops read can be read. *)
Definition readable (artifact : option pyval) : Prop :=
  ∃ results, data_iter (default (PDict []) artifact) = Some results
             ∧ Forall (λ result, is_Some (entry_iter result)) results.

(** The local state after [records], all processed to the end. *)
Definition tallied (image_ref : string) (records : list pyval) : scan_state :=
  foldl (counted image_ref) scan_init records.

(** The local state [st'] of a record that raised in state [st]. *)
Definition interrupted (st st' : scan_state) : Prop :=
  st_vulnerabilities st' = st_vulnerabilities st
  ∧ st_findings st' = st_findings st + 1
  ∧ ∀ k, Py.get_or k 0 (st_sev_counts st)
         ≤ Py.get_or k 0 (st_sev_counts st')
         ≤ Py.get_or k 0 (st_sev_counts st) + 1.

(** A raw record whose severity, when it has one, is a string. *)
Definition textual (record : pyval) : bool :=
  match as_dict record with
  | Some d =>
      match Py.get "Severity" d with
      | None | Some (PStr _) => true
      | Some _ => false
      end
  | None => true
  end.

(** ** reporting.py: [build_attachments] on findings of the declared type *)

(** The upper-case severity text under which a typed finding is filed. *)
Definition level (v : Vulnerability) : string := Py.upper (severity_text v).

(** The sort key of a typed finding. *)
Definition order_key (v : Vulnerability) : Z :=
  match list_find (λ s, s = level v) SEVERITY_ORDER with
  | Some (i, _) => - Z.of_nat i
  | None => - Z.of_nat (length SEVERITY_ORDER)
  end.

(** [ordered_vulns] for typed findings. *)
Definition ordered_typed (r : ScanResult) : list Vulnerability :=
  sorted_by_key ((λ v, (order_key v, v)) <$> vulnerabilities r).

(** A component of a normalised path: not empty and not [.]. *)
Definition component (c : string) : bool :=
  negb (String.eqb c "") && negb (String.eqb c ".").

(** A path as [tempfile.mkstemp] returns it: absolute and normalised, with
    a file name. [pathlib] keeps the text of such a path, and [parent] is
    its directory. *)
Definition rooted (path : string) : bool :=
  match Py.split "/" path with
  | "" :: c :: cs => forallb component (c :: cs)
  | _ => false
  end.

(** [image_safe] of [build_attachments]. *)
Definition image_safe (image : string) : string :=
  Py.replace ":" "_" (Py.replace "/" "_" image).

Definition report_name (r : ScanResult) : string :=
  "report_" +:+ image_safe (image r) +:+ ".md".

Definition report_path (r : ScanResult) : string :=
  parent (json_path r) +:+ "/report_" +:+ image_safe (image r) +:+ ".md".

(** The attachments that one result adds. *)
Definition attachments_of (settings : Settings) (r : ScanResult) : list Attachment :=
  [(report_name r, report_path r, "text/markdown")]
  ++ (if attach_json settings
      then [("trivy_" +:+ image_safe (image r) +:+ ".json", json_path r, "application/json")]
      else []).

(** The events that one result causes in [build_attachments]. *)
Definition attachment_events (settings : Settings) (r : ScanResult) : list event :=
  [RenderImageReport r (ordered_typed r) (min_notify_severity settings);
   WriteText (report_path r)].

(** The subject of the e-mail. *)
Definition subject_of (settings : Settings) (results : list ScanResult) : string :=
  "[Docker Scan] " +:+ pretty (length results)
  +:+ " image(s) scanned (threshold " +:+ min_notify_severity settings +:+ ")".

(** Proves that the findings of a literal list are typed. *)
Ltac typed_findings :=
  repeat (constructor;
          [split; first [left; reflexivity | right; eexists; reflexivity]|]);
  try constructor.

(** ** main.py: what a run sends *)

Definition is_send (e : event) : bool :=
  match e with SendEmail _ _ => true | _ => false end.

(** ** email_utils.py: the MIME type of an attachment *)

(** [s.split(sep, 1)]: split at the first separator only. *)
Fixpoint split_once (sep : ascii) (s : string) : list string :=
  match s with
  | EmptyString => [EmptyString]
  | String c s' =>
      if Ascii.eqb c sep then [EmptyString; s']
      else match split_once sep s' with
           | [] => [String c EmptyString]
           | w :: ws => String c w :: ws
           end
  end.

(** The MIME type that the loop of [send_email_with_attachments] gives an
    attachment; [guess] is [mimetypes.guess_type(filename)[0]]. [None] for
    the [ValueError] of unpacking a type without a slash. *)
Definition mime_parts (guess : string → option string) (a : Attachment)
  : option (string * string) :=
  let '(filename, _, mime) := a in
  let guessed := if negb (Py.truthy (PStr mime)) then guess filename else None in
  let mime_value :=
    if Py.truthy (PStr mime) then mime
    else match guessed with
         | Some g => if Py.truthy (PStr g) then g else "application/octet-stream"
         | None => "application/octet-stream"
         end in
  match split_once "/" mime_value with
  | [maintype; subtype] => Some (maintype, subtype)
  | _ => None
  end.

(** ** scanner.py: the shape of [sev_counts] *)

(** Every key once, in upper case, with a positive count. *)
Definition tidy (counts : list (string * Z)) : Prop :=
  NoDup counts.*1 ∧ Forall (λ kv, Py.upper kv.1 = kv.1 ∧ 1 ≤ kv.2) counts.
(** * Properties *)

Example repr_list :
  Py.str (PList [PInt (-3); PStr "a\b"; PBool true; PDict [("k", PNone)]])
  = "[-3, 'a\\b', True, {'k': None}]".
Proof. reflexivity. Qed.

Example split_twice : Py.split "=" "a=b=c" = ["a"; "b"; "c"].
Proof. reflexivity. Qed.

(** ** Severity model *)

Lemma upper_empty s : Py.upper s = "" ↔ s = "".
Proof. destruct s; simpl; split; congruence. Qed.

Lemma truthy_str s : Py.truthy (PStr s) = bool_decide (s ≠ "").
Proof.
  simpl. destruct (String.eqb_spec s ""); simpl;
    symmetry; [apply bool_decide_eq_false | apply bool_decide_eq_true]; auto.
Qed.

Lemma rank_canonical : rank <$> SEVERITY_ORDER = [0; 1; 2; 3; 4].
Proof. reflexivity. Qed.

Lemma get_key_in {V} k (v : V) d : Py.get k d = Some v → k ∈ d.*1.
Proof.
  induction d as [|[k' v'] d IH]; simpl; [done|].
  destruct (String.eqb_spec k' k) as [->|]; intros; [left | right; auto].
Qed.

Lemma get_None_iff {V} k (d : list (string * V)) : Py.get k d = None ↔ k ∉ d.*1.
Proof.
  induction d as [|[k' v'] d IH]; simpl.
  - split; [intros _; apply not_elem_of_nil | done].
  - rewrite not_elem_of_cons. destruct (String.eqb_spec k' k) as [->|].
    + split; [done | intros [? _]; done].
    + rewrite IH. split; [intros; split; auto | intros [_ ?]; done].
Qed.

Lemma rank_unrecognized level : Py.upper level ∈ SEVERITY_ORDER ∨ rank level = 0.
Proof.
  unfold rank, Py.get_or. destruct (Py.get _ _) as [n|] eqn:E; [left | by right].
  by apply get_key_in in E.
Qed.

Lemma rank_range level : 0 ≤ rank level ≤ 4.
Proof.
  unfold rank, Py.get_or. destruct (Py.get _ _) as [n|] eqn:E; simpl; [|lia].
  unfold _SEV_RANK in E. simpl in E.
  repeat (match type of E with
          | (if ?b then _ else _) = _ => destruct b; [inversion E; lia|]
          end).
  discriminate.
Qed.

(** What [meets_threshold] computes, in terms of [rank]: the threshold's
    rank is that of [LOW] when the threshold is empty. *)
Lemma meets_threshold_unfold severity threshold :
  meets_threshold severity threshold =
    bool_decide ((if String.eqb threshold "" then rank "LOW" else rank threshold)
                 ≤ rank severity).
Proof.
  unfold meets_threshold, rank. simpl Py.truthy.
  destruct severity, threshold; reflexivity.
Qed.

(** C2, as amended: [meets_threshold severity threshold] is
    [rank severity >= rank threshold] for every severity and every non-empty
    threshold, where [rank] sends the case-folded canonical levels to 0..4 and
    every other string, the empty severity included, to 0; an empty threshold
    stands for [LOW] (rank 1), not for [UNKNOWN]. [meets_threshold x x] holds
    for each canonical level [x], and [meets_threshold "UNKNOWN" "LOW"] is
    false. *)
Theorem meets_threshold_rank :
  (∀ severity threshold : string,
      meets_threshold severity threshold =
        bool_decide ((if String.eqb threshold "" then 1 else rank threshold)
                     ≤ rank severity))
  ∧ rank <$> SEVERITY_ORDER = [0; 1; 2; 3; 4]
  ∧ (∀ level, Py.upper level ∈ SEVERITY_ORDER ∨ rank level = 0)
  ∧ rank "" = 0
  ∧ Forall (λ x, meets_threshold x x = true) SEVERITY_ORDER
  ∧ meets_threshold "UNKNOWN" "LOW" = false.
Proof.
  split; [|split; [|split; [|split; [|split]]]].
  - intros. by rewrite meets_threshold_unfold.
  - exact rank_canonical.
  - exact rank_unrecognized.
  - reflexivity.
  - repeat constructor.
  - reflexivity.
Qed.

(** C2, as stated, fails at the empty threshold: [UNKNOWN] does not meet it,
    although both have rank 0. *)
Lemma meets_threshold_empty_threshold :
  meets_threshold "UNKNOWN" "" = false
  ∧ bool_decide (rank "" ≤ rank "UNKNOWN") = true.
Proof. split; reflexivity. Qed.

(** ** Dictionaries *)

Lemma get_set {V} k k' (v : V) d :
  Py.get k' (Py.set k v d) = if decide (k = k') then Some v else Py.get k' d.
Proof.
  induction d as [|[k0 v0] d IH]; simpl.
  - destruct (String.eqb_spec k k'); case_decide; congruence.
  - destruct (String.eqb_spec k0 k) as [->|Hne]; simpl.
    + destruct (String.eqb_spec k k'); case_decide; congruence.
    + destruct (String.eqb_spec k0 k') as [->|]; [|exact IH].
      case_decide; congruence.
Qed.

Lemma get_or_set {V} k k' (v dflt : V) d :
  Py.get_or k' dflt (Py.set k v d) = if decide (k = k') then v else Py.get_or k' dflt d.
Proof. unfold Py.get_or. rewrite get_set. by case_decide. Qed.

Lemma has_key_false {V} k (d : list (string * V)) :
  Py.has_key k d = false ↔ Py.get k d = None.
Proof.
  unfold Py.has_key. rewrite bool_decide_eq_false, <-eq_None_not_Some. done.
Qed.

Lemma set_keys {V} k k0 (v : V) d :
  k ∈ (Py.set k0 v d).*1 ↔ k = k0 ∨ k ∈ d.*1.
Proof.
  induction d as [|[k1 v1] d IH]; simpl.
  - rewrite list_elem_of_singleton, elem_of_nil. tauto.
  - destruct (String.eqb_spec k1 k0) as [->|]; simpl;
      rewrite !elem_of_cons; [tauto|].
    change (list_fmap _ _ fst ?l) with (l.*1). rewrite IH. tauto.
Qed.

Lemma sum_values_set k n d :
  sum_values (Py.set k (Py.get_or k 0 d + n) d) = sum_values d + n.
Proof.
  unfold sum_values, Py.get_or. induction d as [|[k0 v0] d IH]; simpl; [lia|].
  destruct (String.eqb_spec k0 k) as [->|]; simpl; [lia|].
  change (list_fmap _ _ snd ?l) with (l.*2). rewrite IH. lia.
Qed.

(** ** Scan-result construction *)

Section scan.
Variable image_ref : string.

Lemma scan_vuln_well_formed record st :
  well_formed record = true →
  scan_vuln image_ref record st = (Some tt, counted image_ref st record).
Proof.
  destruct record as [| | | | |d]; simpl; try done.
  intros Hk%negb_true_iff.
  unfold scan_vuln, stamp, mbind, run_bind, Try.bind, Try.modify, Try.lift; simpl.
  by rewrite Hk.
Qed.

(** A malformed record raises, after [findings] was incremented. *)
Lemma scan_vuln_malformed record st :
  well_formed record = false →
  ∃ st', scan_vuln image_ref record st = (None, st')
         ∧ st_findings st' = st_findings st + 1
         ∧ st_vulnerabilities st' = st_vulnerabilities st.
Proof.
  destruct record as [| | | | |d]; simpl;
    try (intros _; eexists; split; [reflexivity | by simpl]).
  intros Hk%negb_false_iff.
  unfold scan_vuln, stamp, mbind, run_bind, Try.bind, Try.modify, Try.lift; simpl.
  rewrite Hk. eexists; split; [reflexivity | by simpl].
Qed.

Lemma for_each_app {S A} (l1 l2 : list A) (body : A → Try.run S unit) st :
  Try.for_each (l1 ++ l2) body st =
    match Try.for_each l1 body st with
    | (Some _, st') => Try.for_each l2 body st'
    | (None, st') => (None, st')
    end.
Proof.
  revert st. induction l1 as [|x l1 IH]; intros st; simpl; [done|].
  unfold Try.bind. destruct (body x st) as [[[]|] st']; [apply IH | done].
Qed.

Lemma for_each_well_formed records st :
  Forall (λ r, well_formed r = true) records →
  Try.for_each records (scan_vuln image_ref) st
  = (Some tt, foldl (counted image_ref) st records).
Proof.
  intros H. revert st. induction H as [|r records Hr _ IH]; intros st; simpl; [done|].
  unfold Try.bind. by rewrite scan_vuln_well_formed, IH.
Qed.

(** On a one-result artifact the two loops are the loop over its records. *)
Lemma scan_data_artifact_of records st :
  Try.except_pass (scan_data image_ref (artifact_of records)) st
  = (Try.for_each records (scan_vuln image_ref) st).2.
Proof.
  unfold Try.except_pass, scan_data, scan_result, artifact_of,
    mbind, run_bind, Try.bind, Try.lift.
  simpl. destruct records as [|r records]; simpl; [done|].
  unfold Try.bind.
  destruct (scan_vuln image_ref r st) as [[[]|] st1]; [|done].
  by destruct (Try.for_each records (scan_vuln image_ref) st1) as [[[]|] st2].
Qed.

Lemma foldl_counted_findings records st :
  st_findings (foldl (counted image_ref) st records) = st_findings st + Z.of_nat (length records).
Proof.
  revert st. induction records as [|r records IH]; intros st; simpl; [lia|].
  rewrite IH. simpl. lia.
Qed.

Lemma foldl_counted_vulnerabilities records st :
  st_vulnerabilities (foldl (counted image_ref) st records)
  = st_vulnerabilities st ++ (finding_of image_ref <$> records).
Proof.
  revert st. induction records as [|r records IH]; intros st; simpl.
  - by rewrite app_nil_r.
  - rewrite IH. simpl. by rewrite <-app_assoc.
Qed.

Lemma foldl_counted_sum records st :
  sum_values (st_sev_counts (foldl (counted image_ref) st records))
  = sum_values (st_sev_counts st) + Z.of_nat (length records).
Proof.
  revert st. induction records as [|r records IH]; intros st; simpl; [lia|].
  rewrite IH. simpl. rewrite sum_values_set. lia.
Qed.

Lemma foldl_counted_get k records st :
  Py.get_or k 0 (st_sev_counts (foldl (counted image_ref) st records))
  = Py.get_or k 0 (st_sev_counts st) + occurrences k records.
Proof.
  unfold occurrences.
  revert st. induction records as [|r records IH]; intros st; simpl; [lia|].
  rewrite IH. simpl. rewrite get_or_set, filter_cons.
  case_decide; subst; rewrite ?length_cons, ?Nat2Z.inj_succ; lia.
Qed.

Lemma foldl_counted_keys k records st :
  k ∈ (st_sev_counts (foldl (counted image_ref) st records)).*1
  ↔ k ∈ (st_sev_counts st).*1 ∨ k ∈ tally_key <$> records.
Proof.
  revert st. induction records as [|r records IH]; intros st; simpl.
  - rewrite elem_of_nil. tauto.
  - rewrite IH, elem_of_cons. simpl. rewrite set_keys. tauto.
Qed.
End scan.

Lemma consistent_nearly st : consistent st → nearly_consistent st.
Proof. unfold consistent, nearly_consistent. lia. Qed.

Lemma for_each_invariant {S A} (P Q : S → Prop) (body : A → Try.run S unit) l st :
  (∀ x st, P st → match body x st with
                  | (Some _, st') => P st'
                  | (None, st') => Q st'
                  end) →
  P st →
  match Try.for_each l body st with
  | (Some _, st') => P st'
  | (None, st') => Q st'
  end.
Proof.
  intros Hbody. revert st. induction l as [|x l IH]; intros st HP; simpl; [done|].
  unfold Try.bind. specialize (Hbody x st HP).
  destruct (body x st) as [[[]|] st']; [by apply IH | done].
Qed.

Lemma scan_vuln_invariant image_ref record st :
  consistent st →
  match scan_vuln image_ref record st with
  | (Some _, st') => consistent st'
  | (None, st') => nearly_consistent st'
  end.
Proof.
  intros [H1 H2]. destruct (well_formed record) eqn:Hwf.
  - rewrite scan_vuln_well_formed by done.
    unfold consistent, counted; simpl.
    rewrite sum_values_set, length_app; simpl. lia.
  - destruct record as [| | | | |d]; simpl;
      try (unfold nearly_consistent; simpl; lia).
    apply negb_false_iff in Hwf.
    unfold scan_vuln, stamp, mbind, run_bind, Try.bind, Try.modify, Try.lift; simpl.
    rewrite Hwf. unfold nearly_consistent; simpl.
    rewrite sum_values_set. lia.
Qed.

Lemma scan_result_invariant image_ref result st :
  consistent st →
  match scan_result image_ref result st with
  | (Some _, st') => consistent st'
  | (None, st') => nearly_consistent st'
  end.
Proof.
  intros Hst. unfold scan_result, mbind, run_bind, Try.bind, Try.lift.
  destruct (as_dict result) as [r|]; [|by apply consistent_nearly].
  destruct (Py.iter _) as [vulns|]; [|by apply consistent_nearly].
  apply (for_each_invariant consistent nearly_consistent); [|done].
  intros; by apply scan_vuln_invariant.
Qed.

Lemma scan_data_invariant image_ref data st :
  consistent st →
  nearly_consistent (Try.except_pass (scan_data image_ref data) st).
Proof.
  intros Hst. unfold Try.except_pass, scan_data, mbind, run_bind, Try.bind, Try.lift.
  destruct (as_dict data) as [top|]; simpl; [|by apply consistent_nearly].
  destruct (Py.iter _) as [results|]; simpl; [|by apply consistent_nearly].
  pose proof (for_each_invariant consistent nearly_consistent
                (scan_result image_ref) results st) as Hloop.
  specialize (Hloop (λ x st0, scan_result_invariant image_ref x st0) Hst).
  destruct (Try.for_each results _ st) as [[[]|] st']; simpl;
    [by apply consistent_nearly | done].
Qed.

(** Whatever the artifact holds, the three counts of the result are in
    order and at most one apart. *)
Lemma scan_image_nearly_consistent image_ref path artifact :
  nearly_consistent (state_of (scan_image image_ref path artifact)).
Proof.
  unfold scan_image, state_of; simpl.
  pose proof (scan_data_invariant image_ref (default (PDict []) artifact) scan_init) as H.
  destruct (Try.except_pass _ _) as [f c v]; simpl in *. apply H.
  split; reflexivity.
Qed.

Lemma scan_image_artifact_of image_ref path records :
  state_of (scan_image image_ref path (Some (artifact_of records)))
  = (Try.for_each records (scan_vuln image_ref) scan_init).2.
Proof.
  unfold scan_image, state_of; simpl default.
  rewrite scan_data_artifact_of.
  by destruct (Try.for_each _ _ _) as [? []].
Qed.

Lemma scan_image_state_eq image_ref path a1 a2 :
  state_of (scan_image image_ref path a1) = state_of (scan_image image_ref path a2) →
  scan_image image_ref path a1 = scan_image image_ref path a2.
Proof. unfold scan_image, state_of; simpl. by intros [= -> -> ->]. Qed.

(** When every record is well formed the three counts agree. *)
Lemma scan_image_consistent image_ref path records :
  Forall (λ r, well_formed r = true) records →
  consistent (state_of (scan_image image_ref path (Some (artifact_of records)))).
Proof.
  intros Hwf. rewrite scan_image_artifact_of, for_each_well_formed by done.
  unfold consistent; simpl.
  rewrite foldl_counted_findings, foldl_counted_sum, foldl_counted_vulnerabilities.
  simpl. rewrite length_fmap. unfold sum_values; simpl. lia.
Qed.

(** C1 at an artifact whose only record carries an [image] key: the record
    is counted in [findings] and in [sev_counts], the construction of the
    finding raises, and the result comes back with one finding counted and
    none listed. *)
Theorem scan_image_counts_disagree :
  let r := scan_image "nginx:1.25" "/tmp/trivy_x.json"
             (Some (artifact_of
                [PDict [("VulnerabilityID", PStr "CVE-2024-0001");
                        ("Severity", PStr "HIGH");
                        ("image", PStr "nginx")]])) in
  findings r = 1
  ∧ sum_values (sev_counts r) = 1
  ∧ length (vulnerabilities r) = 0%nat.
Proof. repeat split. Qed.

(** The same at a record that is not a JSON object: only [findings] moves. *)
Lemma scan_image_scalar_record_counted :
  let r := scan_image "nginx:1.25" "/tmp/trivy_x.json"
             (Some (artifact_of [PStr "CVE-2024-0001"])) in
  findings r = 1
  ∧ sum_values (sev_counts r) = 0
  ∧ length (vulnerabilities r) = 0%nat.
Proof. repeat split. Qed.

(** C6, as stated, fails: a well-formed record that follows a malformed one
    is neither counted, nor tallied, nor appended. *)
Lemma scan_image_drops_records_after_malformed :
  let good := PDict [("VulnerabilityID", PStr "CVE-2024-0002"); ("Severity", PStr "LOW")] in
  let r := scan_image "nginx:1.25" "/tmp/trivy_x.json"
             (Some (artifact_of [PInt 7; good])) in
  well_formed (PInt 7) = false
  ∧ well_formed good = true
  ∧ findings r = 1
  ∧ sev_counts r = []
  ∧ vulnerabilities r = [].
Proof. repeat split. Qed.

(** C6, as amended: a malformed record ends the processing of the artifact.
    The well-formed records before it are counted, tallied and appended, and
    [vulnerabilities] holds exactly their findings; no record after it is
    processed, so the result is the one of the artifact cut after the
    malformed record. *)
Theorem scan_image_malformed_record_ends_scan image_ref path before bad after :
  Forall (λ r, well_formed r = true) before →
  well_formed bad = false →
  let r := scan_image image_ref path (Some (artifact_of (before ++ bad :: after))) in
  r = scan_image image_ref path (Some (artifact_of (before ++ [bad])))
  ∧ vulnerabilities r = finding_of image_ref <$> before
  ∧ Z.of_nat (length before) ≤ findings r
  ∧ ∀ k, occurrences k before ≤ Py.get_or k 0 (sev_counts r).
Proof.
  intros Hwf Hbad r.
  assert (Hrun : ∀ rest,
    ∃ st', Try.for_each (before ++ bad :: rest) (scan_vuln image_ref) scan_init = (None, st')
           ∧ scan_vuln image_ref bad (foldl (counted image_ref) scan_init before) = (None, st')).
  { intros rest. rewrite for_each_app, for_each_well_formed by done. simpl.
    unfold Try.bind.
    destruct (scan_vuln_malformed image_ref bad
                (foldl (counted image_ref) scan_init before) Hbad) as (st' & -> & _).
    by exists st'. }
  destruct (Hrun after) as (st1 & Hafter & Hst1), (Hrun []) as (st2 & Hcut & Hst2).
  assert (st2 = st1) as -> by congruence.
  pose proof (scan_image_artifact_of image_ref path (before ++ bad :: after)) as Hr.
  pose proof (scan_image_artifact_of image_ref path (before ++ [bad])) as Hr'.
  rewrite Hafter in Hr. rewrite Hcut in Hr'. fold r in Hr. simpl in Hr, Hr'.
  split; [|split; [|split]].
  - apply scan_image_state_eq. by rewrite Hr'.
  - transitivity (st_vulnerabilities st1); [by rewrite <-Hr|].
    destruct (scan_vuln_malformed image_ref bad
                (foldl (counted image_ref) scan_init before) Hbad) as (st' & E & _ & Hv).
    rewrite Hst1 in E. inversion E; subst st'. rewrite Hv.
    by rewrite foldl_counted_vulnerabilities.
  - replace (findings r) with (st_findings st1) by by rewrite <-Hr.
    destruct (scan_vuln_malformed image_ref bad
                (foldl (counted image_ref) scan_init before) Hbad) as (st' & E & Hf & _).
    rewrite Hst1 in E. inversion E; subst st'. rewrite Hf.
    rewrite foldl_counted_findings. simpl. lia.
  - intros k. replace (sev_counts r) with (st_sev_counts st1) by by rewrite <-Hr.
    pose proof (foldl_counted_get image_ref k before scan_init) as Hk. simpl in Hk.
    unfold Py.get_or at 2 in Hk. simpl in Hk.
    revert Hst1.
    unfold scan_vuln, stamp, mbind, run_bind, Try.bind, Try.modify, Try.lift.
    destruct bad as [| | | | |d]; simpl; try (intros [= <-]; simpl; lia).
    destruct (Py.has_key "image" d); intros [= <-]; simpl.
    rewrite get_or_set; case_decide; subst; lia.
Qed.

Lemma scan_image_malformed_record_ends_scan_witness :
  let good := PDict [("VulnerabilityID", PStr "CVE-2024-0002"); ("Severity", PStr "LOW")] in
  let r := scan_image "nginx:1.25" "/tmp/trivy_x.json"
             (Some (artifact_of ([good] ++ PInt 7 :: [good; good]))) in
  r = scan_image "nginx:1.25" "/tmp/trivy_x.json" (Some (artifact_of [good; PInt 7]))
  ∧ vulnerabilities r = finding_of "nginx:1.25" <$> [good].
Proof.
  intros good r.
  destruct (scan_image_malformed_record_ends_scan "nginx:1.25" "/tmp/trivy_x.json"
              [good] (PInt 7) [good; good]) as (Hcut & Hv & _).
  - repeat constructor.
  - reflexivity.
  - split; [exact Hcut | exact Hv].
Defined.

Lemma tally_key_unfold d :
  tally_key (PDict d) =
    match Py.get "Severity" d with
    | None => "UNKNOWN"
    | Some (PStr s) => Py.upper s
    | Some x => Py.upper (Py.repr x)
    end.
Proof.
  unfold tally_key, Py.get_or; simpl.
  by destruct (Py.get "Severity" d) as [[]|].
Qed.

(** C7, as stated, fails: an unrecognized severity is tallied under its own
    upper-cased text, which is not a canonical level, and the finding keeps
    the text of the record as it was. *)
Lemma scan_image_keeps_unrecognized_severity :
  let r := scan_image "nginx:1.25" "/tmp/trivy_x.json"
             (Some (artifact_of [PDict [("Severity", PStr "negligible")]])) in
  sev_counts r = [("NEGLIGIBLE", 1)]
  ∧ ("NEGLIGIBLE" ∉ SEVERITY_ORDER)
  ∧ vulnerabilities r = [[("image", PStr "nginx:1.25"); ("Severity", PStr "negligible")]].
Proof.
  repeat split. unfold SEVERITY_ORDER. rewrite !not_elem_of_cons.
  repeat split; try discriminate. apply not_elem_of_nil.
Qed.

(** C7, as amended: for an artifact of well-formed records, each record is
    tallied in [sev_counts] under the upper-cased text of its severity:
    [UNKNOWN] when the record has no severity, the upper-cased string when
    it is a string, canonical or not. The keys of [sev_counts] are exactly
    these texts, each with the number of records that have it. The finding
    stored for a record is the record itself with the image reference put
    in front: its severity is kept as written, and none is added. *)
Theorem scan_image_tally image_ref path records :
  Forall (λ r, well_formed r = true) records →
  let r := scan_image image_ref path (Some (artifact_of records)) in
  vulnerabilities r = finding_of image_ref <$> records
  ∧ (∀ k, k ∈ (sev_counts r).*1 ↔ k ∈ tally_key <$> records)
  ∧ (∀ k, Py.get_or k 0 (sev_counts r) = occurrences k records)
  ∧ (∀ d, tally_key (PDict d) =
            match Py.get "Severity" d with
            | None => "UNKNOWN"
            | Some (PStr s) => Py.upper s
            | Some x => Py.upper (Py.repr x)
            end).
Proof.
  intros Hwf r.
  pose proof (scan_image_artifact_of image_ref path records) as Hr. fold r in Hr.
  rewrite for_each_well_formed in Hr by done. simpl in Hr.
  replace (vulnerabilities r) with (st_vulnerabilities (state_of r)) by done.
  replace (sev_counts r) with (st_sev_counts (state_of r)) by done.
  rewrite Hr. split; [|split; [|split]].
  - by rewrite foldl_counted_vulnerabilities.
  - intros k. rewrite foldl_counted_keys. simpl. rewrite elem_of_nil. tauto.
  - intros k. rewrite foldl_counted_get. done.
  - exact tally_key_unfold.
Qed.

Lemma scan_image_tally_witness :
  let records := [PDict [("Severity", PStr "high")]; PDict [("PkgName", PStr "zlib")];
                  PDict [("Severity", PStr "negligible")]; PDict [("Severity", PStr "HIGH")]] in
  let r := scan_image "nginx:1.25" "/tmp/trivy_x.json" (Some (artifact_of records)) in
  Forall (λ r, well_formed r = true) records
  ∧ Py.get_or "HIGH" 0 (sev_counts r) = 2
  ∧ Py.get_or "UNKNOWN" 0 (sev_counts r) = 1.
Proof.
  intros records r.
  assert (Hwf : Forall (λ r, well_formed r = true) records) by repeat constructor.
  split; [exact Hwf|].
  destruct (scan_image_tally "nginx:1.25" "/tmp/trivy_x.json" records Hwf)
    as (_ & _ & Hcount & _).
  split; apply Hcount.
Defined.

(** ** Image deduplication *)

Lemma string_le_iff a b : string_le a b ↔ a = b ∨ string_lt a b.
Proof.
  unfold string_le, string_lt, String.leb, String.ltb.
  change (String.compare a b) with (String_as_OT.compare a b).
  destruct (String_as_OT.compare_spec a b) as [E|L|G].
  - split; [by left | done].
  - split; [by right | done].
  - split; [done|]. intros [->|]; [|done].
    by apply (StrictOrder_Irreflexive (R:=String_as_OT.lt)) in G.
Qed.

Lemma string_lt_iff a b : string_lt a b ↔ String_as_OT.lt a b.
Proof.
  unfold string_lt, String.ltb, String_as_OT.lt.
  change (String_as_OT.compare a b) with (String.compare a b).
  destruct (String.compare a b); split; congruence.
Qed.

#[local] Instance string_lt_trans : Transitive string_lt.
Proof.
  intros a b c. rewrite !string_lt_iff.
  apply (StrictOrder_Transitive (R:=String_as_OT.lt)).
Qed.

Lemma string_lt_irrefl a : ¬ string_lt a a.
Proof. rewrite string_lt_iff. apply (StrictOrder_Irreflexive (R:=String_as_OT.lt)). Qed.

#[local] Instance string_le_trans : Transitive string_le.
Proof.
  intros a b c. rewrite !string_le_iff.
  intros [->|Hab] [->|Hbc]; auto. right. by transitivity b.
Qed.

#[local] Instance string_le_total : Total string_le.
Proof. intros a b. apply String.leb_total. Qed.

Lemma StronglySorted_strict (l : list string) :
  StronglySorted string_le l → NoDup l → StronglySorted string_lt l.
Proof.
  induction 1 as [|x l Hl IH Hx]; intros Hnd; [constructor|].
  apply NoDup_cons in Hnd as [Hx' Hnd].
  constructor; [by apply IH|].
  rewrite Forall_forall in Hx |- *. intros y Hy.
  destruct (proj1 (string_le_iff x y) (Hx y Hy)) as [->|]; [done | done].
Qed.

Lemma sorted_set_sorted xs : StronglySorted string_lt (sorted_set xs).
Proof.
  unfold sorted_set. apply StronglySorted_strict.
  - apply (StronglySorted_merge_sort string_le).
  - rewrite merge_sort_Permutation. apply NoDup_remove_dups.
Qed.

Lemma elem_of_sorted_set x xs : x ∈ sorted_set xs ↔ x ∈ xs.
Proof. unfold sorted_set. by rewrite merge_sort_Permutation, elem_of_remove_dups. Qed.

Section dedup.
Variable settings : Settings.

Let step (acc : list string * list (string * list string)) (c : Docker.Container) :=
  if has_exclude_label settings c then acc
  else (acc.1 ++ [image_ref_of c],
        setdefault_append (image_ref_of c) (Docker.name c) acc.2).

Lemma foldl_step_kept containers acc :
  foldl step acc containers = foldl step acc (kept settings containers).
Proof.
  revert acc. unfold kept.
  induction containers as [|c cs IH]; intros acc; [done|].
  rewrite filter_cons. cbn [foldl]. rewrite IH.
  assert (Hstep : has_exclude_label settings c = true → step acc c = acc).
  { intros E. unfold step. by rewrite E. }
  case_decide as E; [done|].
  rewrite Hstep; [done|]. by destruct (has_exclude_label settings c).
Qed.

Lemma collect_images_kept containers :
  collect_images settings containers
  = collect_images settings (kept settings containers).
Proof. apply foldl_step_kept. Qed.

Lemma foldl_step_all cs acc :
  Forall (λ c, has_exclude_label settings c = false) cs →
  (foldl step acc cs).1 = acc.1 ++ (image_ref_of <$> cs)
  ∧ (∀ ref, Py.get_or ref [] (foldl step acc cs).2
            = Py.get_or ref [] acc.2 ++ users ref cs)
  ∧ (∀ ref, ref ∈ (foldl step acc cs).2.*1
            ↔ ref ∈ acc.2.*1 ∨ ref ∈ image_ref_of <$> cs).
Proof.
  intros H. revert acc. induction H as [|c cs Hc _ IH]; intros acc.
  - simpl. rewrite app_nil_r. split; [done|]. split.
    + intros. unfold users. simpl. by rewrite app_nil_r.
    + intros. rewrite elem_of_nil. tauto.
  - cbn [foldl].
    assert (step acc c = (acc.1 ++ [image_ref_of c],
              setdefault_append (image_ref_of c) (Docker.name c) acc.2)) as ->.
    { unfold step. by rewrite Hc. }
    destruct (IH (acc.1 ++ [image_ref_of c],
                  setdefault_append (image_ref_of c) (Docker.name c) acc.2))
      as (H1 & H2 & H3).
    split; [|split].
    + rewrite H1. simpl. by rewrite <-app_assoc.
    + intros ref. rewrite H2. simpl. unfold setdefault_append, users.
      rewrite get_or_set, filter_cons.
      case_decide; subst; simpl; [by rewrite <-app_assoc | done].
    + intros ref. rewrite H3. simpl. unfold setdefault_append.
      rewrite set_keys, elem_of_cons. tauto.
Qed.

Lemma kept_all containers :
  Forall (λ c, has_exclude_label settings c = false) (kept settings containers).
Proof. unfold kept. apply Forall_forall. intros c [? _]%list_elem_of_filter. done. Qed.

Lemma kept_idemp containers :
  kept settings (kept settings containers) = kept settings containers.
Proof.
  unfold kept. induction containers as [|c cs IH]; [done|].
  rewrite filter_cons. case_decide; [|done].
  rewrite filter_cons, decide_True by done. by rewrite IH.
Qed.
End dedup.

Lemma deduplicate_unfold settings containers :
  deduplicate settings containers
  = (sorted_set (collect_images settings containers).1,
     (collect_images settings containers).2).
Proof. unfold deduplicate. by destruct (collect_images settings containers). Qed.

Lemma collect_images_spec settings containers :
  (collect_images settings containers).1 = image_ref_of <$> kept settings containers
  ∧ (∀ ref, Py.get_or ref [] (collect_images settings containers).2
            = users ref (kept settings containers))
  ∧ (∀ ref, ref ∈ (collect_images settings containers).2.*1
            ↔ ref ∈ image_ref_of <$> kept settings containers).
Proof.
  rewrite collect_images_kept.
  destruct (foldl_step_all settings (kept settings containers) ([], [])
              (kept_all settings containers)) as (H1 & H2 & H3).
  split; [exact H1|]. split.
  - intros ref. exact (H2 ref).
  - intros ref. etransitivity; [exact (H3 ref)|]. simpl. rewrite elem_of_nil. tauto.
Qed.

Lemma kept_excluded settings c before after :
  has_exclude_label settings c = true →
  kept settings (before ++ c :: after) = kept settings (before ++ after).
Proof.
  intros E. unfold kept. rewrite !filter_app, filter_cons.
  rewrite decide_False; [done|]. by rewrite E.
Qed.

Lemma scan_all_unfold settings trivy containers :
  scan_all settings trivy containers
  = (λ image_ref,
       {| image := image_ref;
          findings := findings (scan_image image_ref (trivy image_ref).1 (trivy image_ref).2);
          sev_counts := sev_counts (scan_image image_ref (trivy image_ref).1 (trivy image_ref).2);
          json_path := (trivy image_ref).1;
          vulnerabilities :=
            vulnerabilities (scan_image image_ref (trivy image_ref).1 (trivy image_ref).2);
          containers := Py.get_or image_ref [] (deduplicate settings containers).2 |})
    <$> (deduplicate settings containers).1.
Proof.
  unfold scan_all. destruct (deduplicate settings containers) as [refs mapping].
  rewrite <-list_fmap_compose. done.
Qed.

(** C5: deduplication yields the distinct image references of the containers
    that are not excluded, in strictly increasing order, and a mapping whose
    keys are these references and whose value at a reference lists the names
    of the non-excluded containers using it, in the order of the containers.
    An excluded container contributes nothing: the outcome is that of the
    sequence without it, wherever it stands and whatever image it uses.
    [scan_all] returns one result per distinct reference, in that order, each
    carrying the names mapped to its image. *)
Theorem deduplicate_kept settings (cs : list Docker.Container) :
  let unique_refs := (deduplicate settings cs).1 in
  let mapping := (deduplicate settings cs).2 in
  StronglySorted string_lt unique_refs
  ∧ (∀ ref, ref ∈ unique_refs ↔ ref ∈ image_ref_of <$> kept settings cs)
  ∧ (∀ ref, ref ∈ mapping.*1 ↔ ref ∈ unique_refs)
  ∧ (∀ ref, Py.get_or ref [] mapping = users ref (kept settings cs))
  ∧ deduplicate settings cs = deduplicate settings (kept settings cs)
  ∧ (∀ c before after,
        has_exclude_label settings c = true →
        deduplicate settings (before ++ c :: after)
        = deduplicate settings (before ++ after))
  ∧ (∀ trivy,
        image <$> scan_all settings trivy cs = unique_refs
        ∧ Forall (λ r, containers r = users (image r) (kept settings cs))
                 (scan_all settings trivy cs)).
Proof.
  intros unique_refs mapping. subst unique_refs mapping.
  rewrite deduplicate_unfold. simpl.
  destruct (collect_images_spec settings cs) as (H1 & H2 & H3).
  split; [apply sorted_set_sorted|].
  split; [intros; by rewrite elem_of_sorted_set, H1|].
  split; [intros; by rewrite elem_of_sorted_set, H3, H1|].
  split; [exact H2|].
  assert (Hkept : ∀ l, deduplicate settings l = deduplicate settings (kept settings l)).
  { intros l. rewrite !deduplicate_unfold. by rewrite <-collect_images_kept. }
  split; [by rewrite <-deduplicate_unfold|].
  split.
  - intros c before after E.
    rewrite (Hkept (before ++ c :: after)), (Hkept (before ++ after)).
    by rewrite (kept_excluded settings c before after E).
  - intros trivy. rewrite scan_all_unfold, deduplicate_unfold. simpl. split.
    + rewrite <-list_fmap_compose. apply list_fmap_id.
    + apply Forall_fmap, Forall_forall. intros ref _. simpl. apply H2.
Qed.

Lemma deduplicate_kept_witness :
  let settings := {| exclude_label := "docktor.ignore=true"; only_running := true;
                     attach_json := true; min_notify_severity := "LOW";
                     scan_scope := "ALL" |} in
  let container n ref labels :=
    {| Docker.name := n;
       Docker.image := {| Docker.tags := [ref]; Docker.id := "sha256:0" |};
       Docker.attrs := PDict [("Config", PDict [("Labels", PDict labels)])] |} in
  let ignored := container "cache" "redis:7" [("docktor.ignore", PStr "True")] in
  has_exclude_label settings ignored = true
  ∧ deduplicate settings ([container "web" "nginx:1.25" []] ++ ignored
                          :: [container "queue" "redis:7" []])
    = (["nginx:1.25"; "redis:7"], [("nginx:1.25", ["web"]); ("redis:7", ["queue"])]).
Proof.
  intros settings container ignored.
  assert (E : has_exclude_label settings ignored = true) by reflexivity.
  split; [exact E|].
  destruct (deduplicate_kept settings []) as (_ & _ & _ & _ & _ & Hex & _).
  rewrite (Hex ignored _ _ E). reflexivity.
Defined.

(** ** Notification gate *)

Lemma typed_severity v : typed v → severity_of v = PStr (severity_text v).
Proof.
  intros [[H|[s H]] _]; unfold severity_text, severity_of, Py.get_or; by rewrite H.
Qed.

Lemma typed_meets v threshold :
  typed v →
  meets_threshold_val (severity_of v) threshold
  = Some (meets_threshold (severity_text v) threshold).
Proof. intros H. by rewrite (typed_severity v H). Qed.

Lemma any_meets_typed threshold vulns :
  Forall typed vulns →
  ∃ b, any_meets threshold vulns = Some b
       ∧ (b = true ↔ ∃ v, v ∈ vulns ∧ meets_threshold (severity_text v) threshold = true).
Proof.
  induction 1 as [|v vulns Hv _ (b & Hb & IH)]; simpl.
  - exists false. split; [done|]. split; [done|]. intros (v & []%elem_of_nil & _).
  - rewrite (typed_meets v threshold Hv). simpl.
    destruct (meets_threshold (severity_text v) threshold) eqn:E.
    + exists true. split; [done|]. split; [|done]. intros _. exists v. split; [left | done].
    + exists b. split; [done|]. rewrite IH. split.
      * intros (w & Hw & Hm). exists w. split; [by right | done].
      * intros (w & [->|Hw]%elem_of_cons & Hm); [congruence|]. by exists w.
Qed.

Lemma any_trigger_typed threshold results :
  all_typed results →
  ∃ b, any_trigger threshold results = Some b
       ∧ (b = true ↔ some_finding_meets threshold results).
Proof.
  unfold some_finding_meets.
  induction 1 as [|r results Hr _ (b & Hb & IH)]; simpl.
  - exists false. split; [done|]. split; [done|]. intros (r & v & []%elem_of_nil & _).
  - destruct (any_meets_typed threshold (vulnerabilities r) Hr) as (b0 & -> & H0). simpl.
    destruct b0.
    + exists true. split; [done|]. split; [|done]. intros _.
      destruct (proj1 H0 eq_refl) as (v & Hv & Hm). exists r, v. split; [left | done].
    + exists b. split; [done|]. rewrite IH. split.
      * intros (r' & v & Hr' & Hv). exists r', v. split; [by right | done].
      * intros (r' & v & [->|Hr']%elem_of_cons & Hv & Hm).
        -- assert (false = true) by (apply H0; eauto). done.
        -- by exists r', v.
Qed.

(** When the gate is not passed, [main] does nothing but log (or fails
    while evaluating the gate). *)
Lemma report_gate_closed settings results :
  any_trigger (min_notify_severity settings) results ≠ Some true →
  report settings results = [Uncaught] ∨ Forall (λ e, is_log e = true) (report settings results).
Proof.
  intros Hgate. unfold report. destruct results as [|r results].
  - right. by repeat constructor.
  - destruct (any_trigger _ (r :: results)) as [[]|]; [done | right | left]; [|done].
    by repeat constructor.
Qed.

(** C3: the notification gate is true exactly when some finding of some
    result, taken from the unfiltered vulnerabilities lists, meets the
    threshold; when it is false, [main] only writes a log line: nothing is
    rendered, no attachment is built and no mail is sent. The results are
    those of the declared type: a finding's severity, when present, is a
    string. *)
Theorem notification_gate settings results :
  all_typed results →
  ∃ gate, any_trigger (min_notify_severity settings) results = Some gate
          ∧ (gate = true ↔ some_finding_meets (min_notify_severity settings) results)
          ∧ (gate = false →
             Forall (λ e, is_log e = true) (report settings results)
             ∧ length (report settings results) = 1%nat).
Proof.
  intros Htyped.
  destruct (any_trigger_typed (min_notify_severity settings) results Htyped)
    as (gate & Hgate & Hiff).
  exists gate. split; [done|]. split; [done|]. intros ->.
  unfold report. destruct results as [|r results]; [by repeat constructor|].
  rewrite Hgate. by repeat constructor.
Qed.

Lemma notification_gate_witness :
  let settings := {| exclude_label := "docktor.ignore=true"; only_running := true;
                     attach_json := true; min_notify_severity := "HIGH";
                     scan_scope := "ALL" |} in
  let result sev :=
    {| image := "nginx:1.25"; findings := 1; sev_counts := [(sev, 1)];
       json_path := "/tmp/trivy_x.json";
       vulnerabilities := [[("image", PStr "nginx:1.25"); ("Severity", PStr sev)]];
       containers := ["web"] |} in
  any_trigger "HIGH" [result "MEDIUM"] = Some false
  ∧ any_trigger "HIGH" [result "HIGH"] = Some true
  ∧ report settings [result "MEDIUM"]
    = [LogInfo "No vulnerabilities meeting threshold HIGH found; notification suppressed."].
Proof.
  intros settings result.
  assert (Htyped : all_typed [result "MEDIUM"]).
  { constructor; [|constructor]. constructor; [|constructor].
    split; right; eexists; reflexivity. }
  destruct (notification_gate settings [result "MEDIUM"] Htyped) as (gate & Hgate & _ & _).
  repeat split.
Defined.

(** ** Ordering of the per-image attachment *)

(** C8 at a result with one [CRITICAL] finding followed by one finding of a
    severity outside the canonical levels: the per-image ordering puts the
    uncategorized finding first, above the [CRITICAL] one, although its rank
    is that of [UNKNOWN]. *)
Theorem ordered_vulns_uncategorized_first :
  let critical := [("image", PStr "nginx:1.25"); ("VulnerabilityID", PStr "CVE-2024-0001");
                   ("Severity", PStr "CRITICAL")] in
  let other := [("image", PStr "nginx:1.25"); ("VulnerabilityID", PStr "CVE-2024-0002");
                ("Severity", PStr "negligible")] in
  let r := {| image := "nginx:1.25"; findings := 2;
              sev_counts := [("CRITICAL", 1); ("NEGLIGIBLE", 1)];
              json_path := "/tmp/trivy_x.json";
              vulnerabilities := [critical; other]; containers := ["web"] |} in
  ordered_vulns r = Some [other; critical]
  ∧ rank "negligible" = rank "UNKNOWN"
  ∧ rank "negligible" < rank "CRITICAL"
  ∧ attachment_sort_key other = Some (-5)
  ∧ attachment_sort_key critical = Some (-4).
Proof. repeat split. Qed.

(** ** Grouping *)

Lemma typed_image v : typed v → image_of v = PStr (image_text v).
Proof.
  intros [_ [H|[s H]]]; unfold image_text, image_of, Py.get_or; rewrite H; simpl; [done|].
  by destruct (String.eqb s "").
Qed.

Lemma filter_by_threshold_typed threshold vulns :
  Forall typed vulns →
  filter_by_threshold threshold vulns = Some (filter (passes threshold) vulns).
Proof.
  induction 1 as [|v vulns Hv _ IH]; simpl; [done|].
  rewrite (typed_meets v threshold Hv), IH. simpl. rewrite filter_cons.
  case_decide as E; unfold passes in E.
  - by rewrite E.
  - by apply not_true_is_false in E as ->.
Qed.

Lemma aggregate_typed results : all_typed results → Forall typed (_aggregate_vulns results).
Proof.
  unfold _aggregate_vulns. induction 1 as [|r results Hr _ IH]; simpl; [constructor|].
  by apply Forall_app.
Qed.

Lemma keyed_get_str {B} (k : string) (g : list (string * B)) :
  Keyed.get (PStr k) (str_keys g) = Py.get k g.
Proof. induction g as [|[k' b] g IH]; simpl; [done|]. by rewrite IH. Qed.

Lemma keyed_set_str {B} (k : string) (b : B) (g : list (string * B)) :
  Keyed.set (PStr k) b (str_keys g) = str_keys (Py.set k b g).
Proof.
  induction g as [|[k' b'] g IH]; simpl; [done|].
  destruct (String.eqb k' k); simpl; [done|]. by rewrite IH.
Qed.

Lemma group_init_typed results : group_init results = str_keys (init_typed results).
Proof.
  unfold group_init, init_typed.
  change (@nil (pyval * list (string * list Vulnerability)))
    with (str_keys (@nil (string * list (string * list Vulnerability)))).
  generalize (@nil (string * list (string * list Vulnerability))).
  induction results as [|r results IH]; intros g; simpl; [done|].
  by rewrite keyed_set_str, IH.
Qed.

Lemma has_key_true {V} k (d : list (string * V)) :
  Py.has_key k d = true ↔ is_Some (Py.get k d).
Proof. unfold Py.has_key. apply bool_decide_eq_true. Qed.

Lemma group_add_typed g v :
  typed v → group_add (str_keys g) v = Some (str_keys (add_typed g v)).
Proof.
  intros Hv. unfold group_add, group_file, add_typed.
  rewrite (typed_image v Hv), (typed_severity v Hv). simpl.
  rewrite keyed_get_str.
  set (img := image_text v). set (sev := Py.upper (severity_text v)).
  assert (Hg1 : ∃ g1, g1 = (if Py.has_key img g then g else Py.set img empty_buckets g)
                      ∧ match Py.get img g with
                        | Some _ => str_keys g
                        | None => Keyed.set (PStr img) empty_buckets (str_keys g)
                        end = str_keys g1
                      ∧ is_Some (Py.get img g1)).
  { destruct (Py.get img g) as [b|] eqn:E.
    - exists g. rewrite (proj2 (has_key_true img g)) by (rewrite E; eauto).
      rewrite E. eauto.
    - exists (Py.set img empty_buckets g).
      rewrite (proj2 (has_key_false img g) E), keyed_set_str, get_set, decide_True by done.
      eauto. }
  destruct Hg1 as (g1 & <- & -> & [sev_map Hsm]).
  assert (Hgo : Py.get_or img [] g1 = sev_map) by (unfold Py.get_or; by rewrite Hsm).
  rewrite keyed_get_str, Hsm, !Hgo. simpl.
  set (sm := if Py.has_key sev sev_map then sev_map else Py.set sev [] sev_map).
  assert (is_Some (Py.get sev sm)) as [bucket Hb].
  { unfold sm. destruct (Py.has_key sev sev_map) eqn:E.
    - by apply has_key_true.
    - rewrite get_set, decide_True by done. eauto. }
  rewrite Hb. simpl. unfold Py.get_or. rewrite Hb. simpl. by rewrite keyed_set_str.
Qed.

Lemma group_fill_typed g vulns :
  Forall typed vulns →
  group_fill (str_keys g) vulns = Some (str_keys (foldl add_typed g vulns)).
Proof.
  intros H. revert g. induction H as [|v vulns Hv _ IH]; intros g; simpl; [done|].
  rewrite (group_add_typed g v Hv). simpl. apply IH.
Qed.

Lemma set_fst {V} k (v : V) d :
  (Py.set k v d).*1 = if decide (k ∈ d.*1) then d.*1 else d.*1 ++ [k].
Proof.
  induction d as [|[k' v'] d IH]; [done|].
  cbn [Py.set]. destruct (String.eqb_spec k' k) as [->|Hne].
  - rewrite fmap_cons. cbn [fst]. rewrite decide_True; [done | left].
  - rewrite !fmap_cons. cbn [fst]. rewrite IH.
    destruct (decide (k ∈ d.*1)) as [Hin|Hout].
    + rewrite decide_True; [done | by right].
    + rewrite decide_False; [done|]. rewrite not_elem_of_cons. split; [congruence | done].
Qed.

Lemma get_in_nodup {V} k (v : V) d :
  NoDup d.*1 → (k, v) ∈ d → Py.get k d = Some v.
Proof.
  induction d as [|[k' v'] d IH]; simpl; [by intros _ ?%elem_of_nil|].
  intros [Hk' Hnd]%NoDup_cons [[= -> ->]|Hin]%elem_of_cons.
  - by rewrite String.eqb_refl.
  - destruct (String.eqb_spec k' k) as [->|]; [|by apply IH].
    exfalso. apply Hk'. apply list_elem_of_fmap. by exists (k, v).
Qed.

Lemma note_first_fold acc l :
  (NoDup acc → NoDup (foldl note_first acc l))
  ∧ (∀ x, x ∈ foldl note_first acc l ↔ x ∈ acc ∨ x ∈ l).
Proof.
  revert acc. induction l as [|y l IH]; intros acc; simpl.
  - split; [done|]. intros x. rewrite elem_of_nil. tauto.
  - destruct (IH (note_first acc y)) as [Hnd Hin]. split.
    + intros Hacc. apply Hnd. unfold note_first. case_decide; [done|].
      apply NoDup_app. split; [done|]. split; [|apply NoDup_singleton].
      intros x Hx ->%list_elem_of_singleton. done.
    + intros x. rewrite Hin, elem_of_cons. unfold note_first. case_decide.
      * split; [tauto|]. intros [?|[->|?]]; auto.
      * rewrite elem_of_app, list_elem_of_singleton. tauto.
Qed.

Lemma first_occurrences_NoDup l : NoDup (first_occurrences l).
Proof. apply (note_first_fold [] l). constructor. Qed.

Lemma elem_of_first_occurrences x l : x ∈ first_occurrences l ↔ x ∈ l.
Proof.
  unfold first_occurrences. rewrite (proj2 (note_first_fold [] l) x), elem_of_nil. tauto.
Qed.

Lemma empty_buckets_get sev : Py.get_or sev [] empty_buckets = [].
Proof.
  unfold Py.get_or, empty_buckets. induction rev_severity_order as [|s l IH]; [done|].
  rewrite fmap_cons. cbn [Py.get]. by destruct (String.eqb s sev).
Qed.

Lemma init_typed_fold results g :
  (foldl (λ grouped r, Py.set (image r) empty_buckets grouped) g results).*1
  = foldl note_first g.*1 (image <$> results)
  ∧ ((∀ img sev, cell g img sev = []) →
     ∀ img sev,
       cell (foldl (λ grouped r, Py.set (image r) empty_buckets grouped) g results)
            img sev = []).
Proof.
  revert g. induction results as [|r results IH]; intros g; simpl; [done|].
  destruct (IH (Py.set (image r) empty_buckets g)) as [Hk Hc]. split.
  - rewrite Hk, set_fst. done.
  - intros Hg. apply Hc. intros img sev. unfold cell. rewrite get_or_set.
    case_decide; [apply empty_buckets_get | apply Hg].
Qed.

Lemma add_typed_fst g v : (add_typed g v).*1 = note_first g.*1 (image_text v).
Proof.
  unfold add_typed, note_first. rewrite set_fst.
  destruct (Py.has_key (image_text v) g) eqn:E.
  - apply has_key_true in E as [b Hb]. apply get_key_in in Hb. by rewrite !decide_True.
  - apply has_key_false, get_None_iff in E.
    rewrite set_fst, (decide_False _ _ E), decide_True; [done|].
    rewrite elem_of_app, list_elem_of_singleton. by right.
Qed.

Lemma add_typed_cell g v img sev :
  cell (add_typed g v) img sev
  = cell g img sev ++ (if decide (filed_under img sev v) then [v] else []).
Proof.
  unfold add_typed, filed_under.
  set (i := image_text v). set (s := Py.upper (severity_text v)).
  set (g1 := if Py.has_key i g then g else Py.set i empty_buckets g).
  assert (Hg1 : ∀ img sev, cell g1 img sev = cell g img sev).
  { intros img' sev'. unfold g1. destruct (Py.has_key i g) eqn:E; [done|].
    apply has_key_false in E. unfold cell. rewrite get_or_set. case_decide; [|done].
    subst img'. rewrite empty_buckets_get. unfold Py.get_or at 2. rewrite E.
    done. }
  set (sev_map := Py.get_or i [] g1).
  set (sm := if Py.has_key s sev_map then sev_map else Py.set s [] sev_map).
  assert (Hsm : ∀ sev, Py.get_or sev [] sm = Py.get_or sev [] sev_map).
  { intros sev'. unfold sm. destruct (Py.has_key s sev_map) eqn:E; [done|].
    apply has_key_false in E. rewrite get_or_set. case_decide; [|done].
    subst sev'. unfold Py.get_or. by rewrite E. }
  unfold cell at 1. rewrite get_or_set. case_decide as Hi.
  - rewrite get_or_set. case_decide as Hs.
    + rewrite decide_True by done. rewrite Hsm. subst img sev.
      by rewrite <-(Hg1 i s).
    + rewrite decide_False by tauto. rewrite Hsm, app_nil_r. subst img.
      by rewrite <-(Hg1 i sev).
  - rewrite decide_False by tauto. rewrite app_nil_r. apply Hg1.
Qed.

Lemma add_typed_fold vulns g :
  (foldl add_typed g vulns).*1 = foldl note_first g.*1 (image_text <$> vulns)
  ∧ ∀ img sev, cell (foldl add_typed g vulns) img sev
               = cell g img sev ++ filter (filed_under img sev) vulns.
Proof.
  revert g. induction vulns as [|v vulns IH]; intros g; simpl.
  - split; [done|]. intros. by rewrite app_nil_r.
  - destruct (IH (add_typed g v)) as [Hk Hc]. split.
    + by rewrite Hk, add_typed_fst.
    + intros img sev. rewrite Hc, add_typed_cell, filter_cons, <-app_assoc.
      by case_decide.
Qed.

Lemma grouped_by_image_typed threshold results :
  all_typed results →
  grouped_by_image threshold results = Some (str_keys (grouped_typed threshold results)).
Proof.
  intros Ht. unfold grouped_by_image, grouped_typed, filtered_vulns.
  pose proof (aggregate_typed results Ht) as Hall.
  rewrite (filter_by_threshold_typed threshold _ Hall). simpl.
  rewrite group_init_typed. apply group_fill_typed.
  apply Forall_forall. intros v [_ Hv]%list_elem_of_filter.
  by apply (proj1 (Forall_forall _ _) Hall).
Qed.

Lemma grouped_typed_fst threshold results :
  (grouped_typed threshold results).*1 = expected_images threshold results.
Proof.
  unfold grouped_typed, expected_images, first_occurrences.
  rewrite (proj1 (add_typed_fold _ _)). unfold init_typed.
  rewrite (proj1 (init_typed_fold results [])). by rewrite foldl_app.
Qed.

Lemma grouped_typed_cell threshold results img sev :
  cell (grouped_typed threshold results) img sev = selected threshold results img sev.
Proof.
  unfold grouped_typed, selected.
  rewrite (proj2 (add_typed_fold _ _)). unfold init_typed.
  by rewrite (proj2 (init_typed_fold results [])).
Qed.

Lemma compact_cell g img sev_map threshold results :
  g = grouped_typed threshold results →
  Py.get img g = Some sev_map →
  compact sev_map = expected_severities threshold results img.
Proof.
  intros -> Hget. unfold compact, expected_severities.
  apply list_omap_ext. apply Forall2_same_length_lookup. split; [done|].
  intros i sev sev' H1 H2. assert (sev' = sev) as -> by congruence.
  rewrite <-grouped_typed_cell. unfold cell, Py.get_or at 2. rewrite Hget. simpl.
  unfold Py.get_or. by destruct (Py.get sev sev_map) as [[]|].
Qed.

Lemma expected_severities_elem threshold results img b :
  b ∈ expected_severities threshold results img
  ↔ severity b ∈ SEVERITY_ORDER
    ∧ items b = selected threshold results img (severity b)
    ∧ items b ≠ [].
Proof.
  unfold expected_severities. rewrite list_elem_of_omap. split.
  - intros (sev & Hsev & Hb).
    destruct (selected threshold results img sev) as [|x l] eqn:E; [done|].
    injection Hb as <-. simpl. rewrite E.
    split; [|done]. by apply elem_of_reverse in Hsev.
  - intros (Hsev & Hitems & Hne). exists (severity b). split; [by apply elem_of_reverse|].
    rewrite <-Hitems. destruct b as [sev [|x l]]; simpl in *; done.
Qed.

Lemma omap_sorted {A B} (R : relation A) (R' : relation B) (f : A → option B) l :
  (∀ x y x' y', R x y → f x = Some x' → f y = Some y' → R' x' y') →
  StronglySorted R l → StronglySorted R' (omap f l).
Proof.
  intros Hf. induction 1 as [|x l _ IH Hx]; simpl; [constructor|].
  destruct (f x) as [x'|] eqn:E; [|done].
  constructor; [done|]. apply Forall_forall. intros y' (y & Hy & Hfy)%list_elem_of_omap.
  rewrite Forall_forall in Hx. eauto.
Qed.

Lemma expected_severities_sorted threshold results img :
  StronglySorted ranks_above (expected_severities threshold results img).
Proof.
  unfold expected_severities.
  apply (omap_sorted (λ a b, rank b < rank a)).
  - intros x y x' y' Hxy Hx Hy.
    destruct (selected _ _ _ x); [done|]. destruct (selected _ _ _ y); [done|].
    injection Hx as <-. injection Hy as <-. exact Hxy.
  - unfold rev_severity_order, SEVERITY_ORDER. simpl.
    repeat (constructor; [|repeat constructor; done]). constructor.
Qed.

Lemma filter_none {A} (P : A → Prop) `{∀ x, Decision (P x)} (l : list A) :
  (∀ x, x ∈ l → ¬ P x) → filter P l = [].
Proof.
  induction l as [|x l IH]; intros Hl; [done|].
  rewrite filter_cons, decide_False by (apply Hl; left).
  apply IH. intros y Hy. apply Hl. by right.
Qed.

Lemma expected_severities_none threshold results img :
  (∀ v, v ∈ filtered_vulns threshold results → image_text v ≠ img) →
  expected_severities threshold results img = [].
Proof.
  intros Hnone. unfold expected_severities.
  assert (Hsel : ∀ sev, selected threshold results img sev = []).
  { intros sev. unfold selected. apply filter_none.
    intros v Hv [Himg _]. by apply (Hnone v). }
  induction rev_severity_order as [|sev l IH]; [done|].
  simpl. by rewrite Hsel.
Qed.

Lemma report_of_typed_results settings results :
  all_typed results →
  group_vulns_by_image_and_severity settings results
  = Some ((λ img, {| group_image := PStr img;
                     severities :=
                       expected_severities (min_notify_severity settings) results img |})
            <$> expected_images (min_notify_severity settings) results).
Proof.
  intros Ht. unfold group_vulns_by_image_and_severity.
  rewrite (grouped_by_image_typed _ results Ht). f_equal.
  rewrite <-grouped_typed_fst. unfold str_keys. rewrite <-!list_fmap_compose.
  apply list_fmap_ext. intros i [img sev_map] Hi. simpl. f_equal.
  apply (compact_cell (grouped_typed (min_notify_severity settings) results)); [done|].
  apply get_in_nodup.
  - rewrite grouped_typed_fst. apply first_occurrences_NoDup.
  - by apply list_elem_of_lookup_2 in Hi.
Qed.

Lemma expected_images_elem threshold results img :
  img ∈ expected_images threshold results
  ↔ img ∈ image <$> results ∨ img ∈ image_text <$> filtered_vulns threshold results.
Proof. unfold expected_images. by rewrite elem_of_first_occurrences, elem_of_app. Qed.

(** C4: for results of the declared type (a finding's severity and image,
    when present, are strings) the grouped report has exactly one group for
    every image of the results and one group for every image that only a
    filtered finding names; the buckets of a group are those of the
    canonical levels for which some finding of that image passes the
    threshold, from the highest level down, each holding exactly these
    findings in the order of the results; a group whose image has no finding
    that passes has no bucket. *)
Theorem group_report settings results :
  all_typed results →
  let threshold := min_notify_severity settings in
  ∃ report,
    group_vulns_by_image_and_severity settings results = Some report
    ∧ NoDup (group_image <$> report)
    ∧ (∀ r, r ∈ results → PStr (image r) ∈ group_image <$> report)
    ∧ (∀ v, v ∈ filtered_vulns threshold results →
            PStr (image_text v) ∈ group_image <$> report)
    ∧ (∀ g, g ∈ report →
         ∃ img, group_image g = PStr img
           ∧ (img ∈ image <$> results
              ∨ img ∈ image_text <$> filtered_vulns threshold results)
           ∧ StronglySorted ranks_above (severities g)
           ∧ (∀ b, b ∈ severities g ↔
                   severity b ∈ SEVERITY_ORDER
                   ∧ items b = selected threshold results img (severity b)
                   ∧ items b ≠ [])
           ∧ ((∀ v, v ∈ filtered_vulns threshold results → image_text v ≠ img) →
              severities g = [])).
Proof.
  intros Ht threshold. eexists. split; [by apply report_of_typed_results|].
  fold threshold. rewrite <-list_fmap_compose.
  assert (Hinj : Inj (=) (=) PStr) by (by intros ?? [=]).
  split; [|split; [|split]].
  - apply NoDup_fmap_2; [done | apply first_occurrences_NoDup].
  - intros r Hr. apply list_elem_of_fmap. exists (image r). split; [done|].
    apply expected_images_elem. left. by apply list_elem_of_fmap_2.
  - intros v Hv. apply list_elem_of_fmap. exists (image_text v). split; [done|].
    apply expected_images_elem. right. by apply list_elem_of_fmap_2.
  - intros g (img & -> & Himg)%list_elem_of_fmap. exists img. simpl.
    split; [done|]. split; [by apply expected_images_elem|].
    split; [apply expected_severities_sorted|].
    split; [intros b; apply expected_severities_elem|].
    apply expected_severities_none.
Qed.

Lemma group_report_witness :
  let settings := {| exclude_label := "docktor.ignore=true"; only_running := true;
                     attach_json := true; min_notify_severity := "MEDIUM";
                     scan_scope := "ALL" |} in
  let finding img sev : Vulnerability := [("image", PStr img); ("Severity", PStr sev)] in
  let result img vulns :=
    {| image := img; findings := Z.of_nat (length vulns); sev_counts := [];
       json_path := "/tmp/trivy_x.json"; vulnerabilities := vulns; containers := [] |} in
  let results := [result "alpine:3" [finding "alpine:3" "LOW"];
                  result "nginx:1.25" [finding "nginx:1.25" "CRITICAL";
                                       finding "nginx:1.25" "LOW"]] in
  all_typed results
  ∧ group_vulns_by_image_and_severity settings results
    = Some [{| group_image := PStr "alpine:3"; severities := [] |};
            {| group_image := PStr "nginx:1.25";
               severities := [{| severity := "CRITICAL";
                                 items := [finding "nginx:1.25" "CRITICAL"] |}] |}].
Proof.
  intros settings finding result results.
  assert (Hf : ∀ img sev, typed (finding img sev)).
  { intros. split; right; eexists; reflexivity. }
  assert (Ht : all_typed results).
  { constructor; [|constructor; [|constructor]].
    - constructor; [apply Hf | constructor].
    - constructor; [apply Hf|]. constructor; [apply Hf | constructor]. }
  split; [exact Ht|].
  destruct (group_report settings results Ht) as (report & Hrep & _).
  rewrite Hrep. f_equal. vm_compute in Hrep. by injection Hrep as <-.
Defined.

(** ** Findings outside the canonical levels *)

Lemma scan_image_well_formed_state image_ref path records :
  Forall (λ r, well_formed r = true) records →
  state_of (scan_image image_ref path (Some (artifact_of records)))
  = foldl (counted image_ref) scan_init records.
Proof. intros Hwf. by rewrite scan_image_artifact_of, for_each_well_formed. Qed.

Lemma occurrences_pos record records :
  record ∈ records → 1 ≤ occurrences (tally_key record) records.
Proof.
  intros Hin. unfold occurrences.
  assert (record ∈ filter (λ r, tally_key r = tally_key record) records) as Hf
    by (by apply list_elem_of_filter).
  destruct (filter _ records); [by apply elem_of_nil in Hf|].
  rewrite length_cons. lia.
Qed.

Lemma cell_elem g img sev v :
  v ∈ cell g img sev →
  ∃ sev_map bucket,
    Py.get img g = Some sev_map ∧ Py.get sev sev_map = Some bucket ∧ v ∈ bucket.
Proof.
  unfold cell, Py.get_or.
  destruct (Py.get img g) as [sev_map|]; simpl; [|by intros ?%elem_of_nil].
  destruct (Py.get sev sev_map) as [bucket|] eqn:E; simpl; [|by intros ?%elem_of_nil].
  intros Hv. by exists sev_map, bucket.
Qed.

(** C10: a finding whose severity is a string outside the canonical levels
    (after case folding) and which passes the threshold filter is put by the
    grouping loop in a bucket keyed by its upper-cased severity, and is in no
    bucket of the grouped report, although the scan of its image listed it
    and counted it in [findings] and in [sev_counts]. The results are of the
    declared type; the finding comes from a well-formed record of the
    artifact of one of them. *)
Theorem uncategorized_finding_hidden settings results r image_ref path records d s :
  all_typed results →
  r ∈ results →
  Forall (λ record, well_formed record = true) records →
  state_of r = state_of (scan_image image_ref path (Some (artifact_of records))) →
  PDict d ∈ records →
  Py.get "Severity" d = Some (PStr s) →
  Py.upper s ∉ SEVERITY_ORDER →
  meets_threshold s (min_notify_severity settings) = true →
  let v := finding_of image_ref (PDict d) in
  (v ∈ vulnerabilities r
   ∧ 1 ≤ findings r
   ∧ 1 ≤ Py.get_or (Py.upper s) 0 (sev_counts r))
  ∧ (∃ grouped sev_map bucket,
        grouped_by_image (min_notify_severity settings) results = Some grouped
        ∧ Keyed.get (image_of v) grouped = Some sev_map
        ∧ Py.get (Py.upper s) sev_map = Some bucket
        ∧ v ∈ bucket)
  ∧ (∃ report,
        group_vulns_by_image_and_severity settings results = Some report
        ∧ ∀ g b, g ∈ report → b ∈ severities g → v ∉ items b).
Proof.
  intros Ht Hr Hwf Hstate Hrec Hsev Hnc Hmeets v.
  rewrite (scan_image_well_formed_state image_ref path records Hwf) in Hstate.
  assert (Hkey : tally_key (PDict d) = Py.upper s).
  { unfold tally_key, Py.get_or. simpl. by rewrite Hsev. }
  assert (Hv : v ∈ vulnerabilities r).
  { change (vulnerabilities r) with (st_vulnerabilities (state_of r)).
    rewrite Hstate, foldl_counted_vulnerabilities. simpl.
    by apply list_elem_of_fmap_2. }
  assert (Htv : typed v).
  { unfold all_typed in Ht. rewrite Forall_forall in Ht.
    specialize (Ht r Hr). rewrite Forall_forall in Ht. by apply Ht. }
  assert (Hst : severity_text v = s).
  { unfold severity_text, severity_of, Py.get_or, v, finding_of. simpl. by rewrite Hsev. }
  assert (Hpass : v ∈ filtered_vulns (min_notify_severity settings) results).
  { unfold filtered_vulns. apply list_elem_of_filter. split.
    - unfold passes. by rewrite Hst.
    - unfold _aggregate_vulns. apply list_elem_of_bind. by exists r. }
  split; [|split].
  - split; [done|]. split.
    + change (findings r) with (st_findings (state_of r)).
      rewrite Hstate, foldl_counted_findings. simpl.
      apply list_elem_of_lookup in Hrec as [i Hi]. apply lookup_lt_Some in Hi. lia.
    + change (sev_counts r) with (st_sev_counts (state_of r)).
      rewrite Hstate, foldl_counted_get, <-Hkey. simpl.
      pose proof (occurrences_pos _ _ Hrec). unfold Py.get_or; simpl. lia.
  - assert (Hcell : v ∈ cell (grouped_typed (min_notify_severity settings) results)
                          (image_text v) (Py.upper s)).
    { rewrite grouped_typed_cell. unfold selected. apply list_elem_of_filter.
      split; [|done]. split; [done | by rewrite Hst]. }
    apply cell_elem in Hcell as (sev_map & bucket & H1 & H2 & H3).
    exists (str_keys (grouped_typed (min_notify_severity settings) results)), sev_map, bucket.
    split; [by apply grouped_by_image_typed|].
    rewrite (typed_image v Htv), keyed_get_str. done.
  - eexists. split; [by apply report_of_typed_results|].
    intros g b (img & -> & _)%list_elem_of_fmap Hb Hin. simpl in Hb.
    apply expected_severities_elem in Hb as (Hcanon & Hitems & _).
    rewrite Hitems in Hin. unfold selected in Hin.
    apply list_elem_of_filter in Hin as [[_ Hs] _].
    rewrite Hst in Hs. rewrite <-Hs in Hcanon. done.
Qed.

Lemma uncategorized_finding_hidden_witness :
  let settings := {| exclude_label := "docktor.ignore=true"; only_running := true;
                     attach_json := true; min_notify_severity := "UNKNOWN";
                     scan_scope := "ALL" |} in
  let d := [("VulnerabilityID", PStr "CVE-2024-0002"); ("Severity", PStr "negligible")] in
  let r := scan_image "nginx:1.25" "/tmp/trivy_x.json" (Some (artifact_of [PDict d])) in
  findings r = 1
  ∧ sev_counts r = [("NEGLIGIBLE", 1)]
  ∧ group_vulns_by_image_and_severity settings [r]
    = Some [{| group_image := PStr "nginx:1.25"; severities := [] |}]
  ∧ ∃ report,
      group_vulns_by_image_and_severity settings [r] = Some report
      ∧ ∀ g b, g ∈ report → b ∈ severities g →
               finding_of "nginx:1.25" (PDict d) ∉ items b.
Proof.
  intros settings d r.
  split; [reflexivity|]. split; [reflexivity|]. split; [reflexivity|].
  assert (Ht : all_typed [r]).
  { constructor; [|constructor]. constructor; [|constructor].
    split; right; eexists; reflexivity. }
  assert (Hnc : Py.upper "negligible" ∉ SEVERITY_ORDER).
  { unfold SEVERITY_ORDER. rewrite !not_elem_of_cons.
    repeat split; try discriminate. apply not_elem_of_nil. }
  destruct (uncategorized_finding_hidden settings [r] r "nginx:1.25" "/tmp/trivy_x.json"
              [PDict d] d "negligible" Ht) as (_ & _ & Hhidden).
  - left.
  - by repeat constructor.
  - reflexivity.
  - left.
  - reflexivity.
  - exact Hnc.
  - reflexivity.
  - exact Hhidden.
Defined.

(** ** Grouping over a store *)

Section store_facts.
Implicit Types (h : Store.store) (l : Store.loc) (g : list (pyval * list (string * Store.loc)))
  (sm : list (string * Store.loc)).

Lemma run_bind_unfold {S A B} (m : Try.run S A) (k : A → Try.run S B) st :
  (m ≫= k) st = match m st with
                | (Some a, st') => k a st'
                | (None, st') => (None, st')
                end.
Proof. done. Qed.

Lemma preserves_refl n0 h : Store.preserves n0 h h.
Proof. by split. Qed.

Lemma preserves_trans n0 h1 h2 h3 :
  Store.preserves n0 h1 h2 → Store.preserves n0 h2 h3 → Store.preserves n0 h1 h3.
Proof.
  intros [L1 F1] [L2 F2]. split; [lia|]. intros l Hl. by rewrite F2, F1.
Qed.

Lemma preserves_app n0 h ext : (n0 ≤ length h)%nat → Store.preserves n0 h (h ++ ext).
Proof.
  intros Hn. split; [rewrite length_app; lia|].
  intros l Hl. apply lookup_app_l. lia.
Qed.

Lemma preserves_write n0 h l o : (n0 ≤ l)%nat → Store.preserves n0 h (<[l := o]> h).
Proof.
  intros Hn. split; [by rewrite length_insert|].
  intros l' Hl'. apply list_lookup_insert_ne. lia.
Qed.

Lemma findings_at_lt h l : is_Some (Store.findings_at h l) → (l < length h)%nat.
Proof.
  unfold Store.findings_at. destruct (h !! l) eqn:E; [|by intros [? [=]]].
  intros _. by apply lookup_lt_Some in E.
Qed.

Lemma findings_at_app h ext l :
  (l < length h)%nat → Store.findings_at (h ++ ext) l = Store.findings_at h l.
Proof. intros Hl. unfold Store.findings_at. by rewrite lookup_app_l. Qed.

Lemma findings_at_write_ne h l l' o :
  l ≠ l' → Store.findings_at (<[l := o]> h) l' = Store.findings_at h l'.
Proof. intros Hne. unfold Store.findings_at. by rewrite list_lookup_insert_ne. Qed.

Lemma findings_at_write h l x :
  (l < length h)%nat → Store.findings_at (<[l := Store.OFindings x]> h) l = Some x.
Proof. intros Hl. unfold Store.findings_at. by rewrite list_lookup_insert_eq. Qed.

Lemma load_findings_run h l :
  Store.load_findings l h = (Store.findings_at h l, h).
Proof.
  unfold Store.load_findings, Store.findings_at. rewrite run_bind_unfold. unfold Store.load, Try.lift.
  by destruct (h !! l) as [[]|].
Qed.

Lemma read_sev_map_ext h h' sm :
  (∀ l, l ∈ sm.*2 → Store.findings_at h' l = Store.findings_at h l) →
  Store.read_sev_map h' sm = Store.read_sev_map h sm.
Proof.
  intros H. unfold Store.read_sev_map. apply list_fmap_ext. intros i [s l] Hi. simpl.
  unfold Store.deref. rewrite H; [done|].
  apply list_elem_of_fmap. exists (s, l). split; [done|]. by apply list_elem_of_lookup_2 in Hi.
Qed.

Lemma leaves_cons k sm g : Store.leaves ((k, sm) :: g) = sm.*2 ++ Store.leaves g.
Proof. done. Qed.

Lemma read_grouped_ext h h' g :
  (∀ l, l ∈ Store.leaves g → Store.findings_at h' l = Store.findings_at h l) →
  Store.read_grouped h' g = Store.read_grouped h g.
Proof.
  induction g as [|[k sm] g IH]; intros H; [done|].
  unfold Store.read_grouped. rewrite !fmap_cons. simpl. f_equal.
  - f_equal. apply read_sev_map_ext. intros l Hl. apply H.
    rewrite leaves_cons, elem_of_app. by left.
  - apply IH. intros l Hl. apply H. rewrite leaves_cons, elem_of_app. by right.
Qed.
End store_facts.

Section keyed_facts.
Context {A B : Type} (f : A → B).
Implicit Types (d : list (pyval * A)) (e : list (string * A)).

Lemma keyed_get_fmap k d :
  Keyed.get k ((λ x, (x.1, f x.2)) <$> d) = f <$> Keyed.get k d.
Proof.
  induction d as [|[k' a] d IH]; [done|].
  rewrite fmap_cons. cbn [Keyed.get fst snd]. by destruct (Keyed.eqb k' k).
Qed.

Lemma keyed_set_fmap k a d :
  (λ x, (x.1, f x.2)) <$> Keyed.set k a d
  = Keyed.set k (f a) ((λ x, (x.1, f x.2)) <$> d).
Proof.
  induction d as [|[k' a'] d IH]; [done|].
  rewrite fmap_cons. cbn [Keyed.set fst snd].
  destruct (Keyed.eqb k' k); rewrite fmap_cons; [done|]. by rewrite IH.
Qed.

Lemma py_get_fmap k e :
  Py.get k ((λ x, (x.1, f x.2)) <$> e) = f <$> Py.get k e.
Proof.
  induction e as [|[k' a] e IH]; [done|].
  rewrite fmap_cons. cbn [Py.get fst snd]. by destruct (String.eqb k' k).
Qed.

Lemma py_set_fmap k a e :
  (λ x, (x.1, f x.2)) <$> Py.set k a e
  = Py.set k (f a) ((λ x, (x.1, f x.2)) <$> e).
Proof.
  induction e as [|[k' a'] e IH]; [done|].
  rewrite fmap_cons. cbn [Py.set fst snd].
  destruct (String.eqb k' k); rewrite fmap_cons; [done|]. by rewrite IH.
Qed.

Lemma py_has_key_fmap k e :
  Py.has_key k ((λ x, (x.1, f x.2)) <$> e) = Py.has_key k e.
Proof.
  unfold Py.has_key. rewrite py_get_fmap. apply bool_decide_ext.
  by rewrite fmap_is_Some.
Qed.
End keyed_facts.

Lemma keyed_set_get_id {A} k (a : A) d :
  Keyed.get k d = Some a → Keyed.set k a d = d.
Proof.
  induction d as [|[k' a'] d IH]; [done|]. cbn [Keyed.get Keyed.set].
  destruct (Keyed.eqb k' k); [by intros [= ->] | intros H; by rewrite IH].
Qed.

Lemma keyed_get_set_some {A} k (a a' : A) d :
  Keyed.get k d = Some a' → Keyed.get k (Keyed.set k a d) = Some a.
Proof.
  induction d as [|[k' a''] d IH]; [done|]. cbn [Keyed.get Keyed.set].
  destruct (Keyed.eqb k' k) eqn:E; cbn [Keyed.get]; rewrite E; [done | apply IH].
Qed.

Lemma keyed_set_set {A} k (a a' : A) d :
  is_Some (Keyed.get k d) → Keyed.set k a (Keyed.set k a' d) = Keyed.set k a d.
Proof.
  induction d as [|[k' a''] d IH]; [by intros [? [=]]|]. cbn [Keyed.get Keyed.set].
  destruct (Keyed.eqb k' k) eqn:E; cbn [Keyed.set]; rewrite E; [done|].
  intros H. by rewrite IH.
Qed.

Lemma keyed_eqb_refl k : Keyed.hashable k = true → Keyed.eqb k k = true.
Proof.
  destruct k as [|[]|n|s| |]; simpl; try done.
  - intros _. apply Z.eqb_refl.
  - intros _. apply String.eqb_refl.
Qed.

Lemma keyed_get_set_none {A} k (a : A) d :
  Keyed.hashable k = true → Keyed.get k d = None →
  Keyed.get k (Keyed.set k a d) = Some a.
Proof.
  intros Hk. induction d as [|[k' a'] d IH]; cbn [Keyed.get Keyed.set].
  - intros _. by rewrite (keyed_eqb_refl k Hk).
  - destruct (Keyed.eqb k' k) eqn:E; [done|]. cbn [Keyed.get]. by rewrite E.
Qed.

Lemma py_get_elem k l (sm : list (string * nat)) :
  Py.get k sm = Some l → l ∈ sm.*2.
Proof.
  induction sm as [|[k' l'] sm IH]; [done|]. cbn [Py.get]. rewrite fmap_cons.
  destruct (String.eqb k' k); [intros [= ->]; left | intros; right; auto].
Qed.

Section leaves_facts.
Implicit Types (h : Store.store) (l : Store.loc) (g : list (pyval * list (string * Store.loc)))
  (sm : list (string * Store.loc)).

Lemma keyed_get_leaves k g sm l :
  Keyed.get k g = Some sm → l ∈ sm.*2 → l ∈ Store.leaves g.
Proof.
  induction g as [|[k' sm'] g IH]; [done|]. cbn [Keyed.get].
  rewrite leaves_cons, elem_of_app.
  destruct (Keyed.eqb k' k); [intros [= ->]; by left | intros; right; auto].
Qed.

(** The cells after [grouped[k] = sm]: those of [sm] instead of those of
    the entry that was there. *)
Lemma leaves_set k g :
  ∃ rest,
    Store.leaves g ≡ₚ (default [] (Keyed.get k g)).*2 ++ rest
    ∧ ∀ sm, Store.leaves (Keyed.set k sm g) ≡ₚ sm.*2 ++ rest.
Proof.
  induction g as [|[k' sm'] g (rest & H1 & H2)]; cbn [Keyed.get Keyed.set].
  - exists []. split; [done|]. intros sm. by rewrite leaves_cons.
  - destruct (Keyed.eqb k' k).
    + exists (Store.leaves g). split; [done|]. intros sm. by rewrite leaves_cons.
    + exists (sm'.*2 ++ rest). split.
      * rewrite leaves_cons, H1. simpl. by rewrite !(assoc_L (++)), (comm (++) sm'.*2).
      * intros sm. rewrite leaves_cons, H2.
        by rewrite !(assoc_L (++)), (comm (++) sm'.*2).
Qed.

Lemma py_set_snd_none k l sm :
  Py.get k sm = None → (Py.set k l sm).*2 = sm.*2 ++ [l].
Proof.
  induction sm as [|[k' l'] sm IH]; [done|]. cbn [Py.get Py.set].
  destruct (String.eqb k' k); [done|]. intros H. rewrite !fmap_cons, IH by done. done.
Qed.
End leaves_facts.

Section store_steps.
Implicit Types (h : Store.store) (l : Store.loc) (g : list (pyval * list (string * Store.loc)))
  (sm : list (string * Store.loc)).

Lemma alloc_buckets keys h :
  ∃ sm ext,
    Store.map_each (λ sev, l ← Store.alloc (Store.OFindings []); mret (sev, l)) keys h
    = (Some sm, h ++ ext)
    ∧ Store.read_sev_map (h ++ ext) sm = (λ sev, (sev, [])) <$> keys
    ∧ NoDup sm.*2
    ∧ Forall (λ l, (length h ≤ l)%nat ∧ Store.findings_at (h ++ ext) l = Some []) sm.*2.
Proof.
  revert h. induction keys as [|k keys IH]; intros h.
  - exists [], []. rewrite app_nil_r. repeat split; constructor.
  - destruct (IH (h ++ [Store.OFindings []])) as (sm & ext & Hrun & Hread & Hnd & Hall).
    exists ((k, length h) :: sm), (Store.OFindings [] :: ext).
    assert (Hh : h ++ Store.OFindings [] :: ext = (h ++ [Store.OFindings []]) ++ ext)
      by (by rewrite <-app_assoc).
    assert (Hl0 : Store.findings_at (h ++ Store.OFindings [] :: ext) (length h) = Some []).
    { unfold Store.findings_at. by rewrite list_lookup_middle. }
    rewrite Forall_forall in Hall.
    split; [|split; [|split]].
    + cbn [Store.map_each]. rewrite run_bind_unfold.
      rewrite run_bind_unfold. unfold Store.alloc at 1. cbn [mret run_ret Try.ret].
      rewrite run_bind_unfold, Hrun. by rewrite Hh.
    + unfold Store.read_sev_map. rewrite !fmap_cons. cbn [fst snd].
      unfold Store.deref at 1. rewrite Hl0. simpl. f_equal. rewrite Hh. exact Hread.
    + rewrite fmap_cons. apply NoDup_cons. split; [|done].
      intros Hin. destruct (Hall _ Hin) as [Hle _]. rewrite length_app in Hle.
      simpl in Hle. lia.
    + rewrite fmap_cons. apply Forall_cons. split; [by split|].
      apply Forall_forall. intros l Hl. destruct (Hall _ Hl) as [Hle Hf].
      rewrite length_app in Hle. simpl in Hle. rewrite Hh. split; [lia | done].
Qed.

Lemma empty_buckets_run h :
  ∃ sm ext,
    Store.empty_buckets h = (Some sm, h ++ ext)
    ∧ Store.read_sev_map (h ++ ext) sm = empty_buckets
    ∧ NoDup sm.*2
    ∧ Forall (λ l, (length h ≤ l)%nat ∧ Store.findings_at (h ++ ext) l = Some []) sm.*2.
Proof. apply alloc_buckets. Qed.

Lemma read_sev_map_write_other h sm l o :
  l ∉ sm.*2 → Store.read_sev_map (<[l := o]> h) sm = Store.read_sev_map h sm.
Proof.
  intros Hl. apply read_sev_map_ext. intros l' Hl'. apply findings_at_write_ne.
  by intros ->.
Qed.

Lemma read_sev_map_write h sm s l x :
  NoDup sm.*2 → Py.get s sm = Some l → (l < length h)%nat →
  Store.read_sev_map (<[l := Store.OFindings x]> h) sm = Py.set s x (Store.read_sev_map h sm).
Proof.
  intros Hnd Hget Hl. induction sm as [|[s' l'] sm IH]; [done|].
  rewrite fmap_cons in Hnd. apply NoDup_cons in Hnd as [Hl' Hnd].
  unfold Store.read_sev_map in *. rewrite !fmap_cons. cbn [Py.get Py.set fst snd] in *.
  destruct (String.eqb s' s).
  - injection Hget as ->. f_equal.
    + f_equal. unfold Store.deref. by rewrite findings_at_write.
    + by apply read_sev_map_write_other.
  - f_equal.
    + f_equal. unfold Store.deref. rewrite findings_at_write_ne; [done|].
      intros ->. apply Hl'. by apply (py_get_elem s).
    + by apply IH.
Qed.

Lemma read_grouped_write_other h g l o :
  l ∉ Store.leaves g → Store.read_grouped (<[l := o]> h) g = Store.read_grouped h g.
Proof.
  intros Hl. apply read_grouped_ext. intros l' Hl'. apply findings_at_write_ne.
  by intros ->.
Qed.

Lemma read_grouped_write h g k sm s l x :
  NoDup (Store.leaves g) → Keyed.get k g = Some sm → Py.get s sm = Some l →
  (l < length h)%nat →
  Store.read_grouped (<[l := Store.OFindings x]> h) g
  = Keyed.set k (Py.set s x (Store.read_sev_map h sm)) (Store.read_grouped h g).
Proof.
  intros Hnd Hk Hs Hl. induction g as [|[k' sm'] g IH]; [done|].
  rewrite leaves_cons in Hnd. apply NoDup_app in Hnd as (Hsm' & Hdisj & Hg).
  unfold Store.read_grouped in *. rewrite !fmap_cons. cbn [Keyed.get Keyed.set fst snd] in *.
  destruct (Keyed.eqb k' k).
  - injection Hk as ->. f_equal.
    + f_equal. by apply read_sev_map_write.
    + apply read_grouped_write_other. apply Hdisj. by apply (py_get_elem s).
  - f_equal.
    + f_equal. apply read_sev_map_write_other. intros Hin.
      apply (Hdisj l Hin). apply (keyed_get_leaves k g sm); [done|].
      by apply (py_get_elem s).
    + by apply IH.
Qed.

Lemma read_grouped_get h g k :
  Keyed.get k (Store.read_grouped h g) = Store.read_sev_map h <$> Keyed.get k g.
Proof. unfold Store.read_grouped. apply (keyed_get_fmap (Store.read_sev_map h)). Qed.

Lemma read_grouped_set h g k sm :
  Store.read_grouped h (Keyed.set k sm g) = Keyed.set k (Store.read_sev_map h sm) (Store.read_grouped h g).
Proof. unfold Store.read_grouped. apply (keyed_set_fmap (Store.read_sev_map h)). Qed.

Lemma own_list_mono n0 h h' l :
  Store.own_list n0 h l → (∀ l', is_Some (Store.findings_at h l') → Store.findings_at h' l' = Store.findings_at h l') →
  Store.own_list n0 h' l.
Proof. intros [Hn Hf] Hh. split; [done|]. by rewrite Hh. Qed.

Lemma owned_app n0 h g ext : Store.owned n0 h g → Store.owned n0 (h ++ ext) g.
Proof.
  intros [Hnd Hall]. split; [done|]. eapply Forall_impl; [exact Hall|].
  intros l [Hn Hf]. split; [done|]. rewrite findings_at_app; [done|].
  by apply findings_at_lt.
Qed.

Lemma read_grouped_app n0 h g ext :
  Store.owned n0 h g → Store.read_grouped (h ++ ext) g = Store.read_grouped h g.
Proof.
  intros [_ Hall]. apply read_grouped_ext. intros l Hl.
  rewrite Forall_forall in Hall. destruct (Hall l Hl) as [_ Hf].
  apply findings_at_app. by apply findings_at_lt.
Qed.

(** [grouped[k] = sm] for a dictionary [sm] of new lists. *)
Lemma owned_set_fresh n0 h g k sm :
  Store.owned n0 h g → (n0 ≤ length h)%nat → ∀ ext,
  NoDup sm.*2 →
  Forall (λ l, (length h ≤ l)%nat ∧ Store.findings_at (h ++ ext) l = Some []) sm.*2 →
  Store.owned n0 (h ++ ext) (Keyed.set k sm g).
Proof.
  intros Hown Hn0 ext Hnd Hall.
  pose proof (owned_app n0 h g ext Hown) as [Hnd' Hall'].
  destruct Hown as [_ Hold].
  destruct (leaves_set k g) as (rest & H1 & H2).
  rewrite H1 in Hnd', Hall', Hold.
  apply NoDup_app in Hnd' as (_ & _ & Hrest).
  apply Forall_app in Hall' as [_ Hrest'].
  apply Forall_app in Hold as [_ Hrest0].
  rewrite Forall_forall in Hall, Hrest0.
  split; rewrite (H2 sm).
  - apply NoDup_app. split; [done|]. split; [|done].
    intros l Hl Hl'. destruct (Hall l Hl) as [Hge _].
    destruct (Hrest0 l Hl') as [_ Hf]. apply findings_at_lt in Hf. lia.
  - apply Forall_app. split; [|done]. apply Forall_forall. intros l Hl.
    destruct (Hall l Hl) as [Hge Hf]. split; [lia|]. rewrite Hf. eauto.
Qed.
End store_steps.

Section store_group.
Implicit Types (h : Store.store) (l : Store.loc)
  (g : list (pyval * list (string * Store.loc))) (sm : list (string * Store.loc)).

Lemma lift_bind {S A B} (o : option A) (k : A → Try.run S B) st :
  (Try.lift o ≫= k) st = match o with Some a => k a st | None => (None, st) end.
Proof. rewrite run_bind_unfold. unfold Try.lift. by destruct o. Qed.

Lemma mret_bind {S A B} (a : A) (k : A → Try.run S B) st :
  (mret a ≫= k) st = k a st.
Proof. done. Qed.

Lemma append_run h l v x :
  Store.findings_at h l = Some x →
  Store.append l v h = (Some tt, <[l := Store.OFindings (x ++ [v])]> h).
Proof.
  intros Hl. unfold Store.append. rewrite run_bind_unfold, load_findings_run, Hl. done.
Qed.

(** The cell that is appended to changes, no other cell of [grouped]. *)
Lemma owned_write n0 h g l x :
  Store.owned n0 h g → l ∈ Store.leaves g →
  Store.owned n0 (<[l := Store.OFindings x]> h) g.
Proof.
  intros [Hnd Hall] Hl. split; [done|]. rewrite Forall_forall in Hall.
  apply Forall_forall. intros l' Hl'. destruct (Hall l' Hl') as [Hn Hf].
  split; [done|]. destruct (decide (l = l')) as [->|Hne].
  - rewrite findings_at_write; [eauto | by apply findings_at_lt].
  - by rewrite findings_at_write_ne.
Qed.

Lemma group_file_refines n0 h g img v sm_old :
  Store.owned n0 h g → (n0 ≤ length h)%nat → Keyed.get img g = Some sm_old →
  ∃ h', Store.preserves n0 h h' ∧
    match group_file (Store.read_grouped h g) img v with
    | Some G' =>
        ∃ g', Store.group_file g img v h = (Some g', h')
              ∧ Store.read_grouped h' g' = G'
              ∧ Store.owned n0 h' g'
    | None => Store.group_file g img v h = (None, h')
    end.
Proof.
  intros Hown Hn0 Hget. unfold group_file, Store.group_file.
  rewrite lift_bind.
  destruct (as_str (severity_of v)) as [s0|]; simpl;
    [|exists h; split; [apply preserves_refl | done]].
  set (sev := Py.upper s0).
  rewrite lift_bind, read_grouped_get, Hget. simpl.
  assert (Hhk : Py.has_key sev (Store.read_sev_map h sm_old) = Py.has_key sev sm_old)
    by (unfold Store.read_sev_map; apply py_has_key_fmap).
  rewrite !Hhk.
  (* the bucket dictionary and the cell of the severity, once it is there *)
  assert (∃ h2 sm' l,
    (if Py.has_key sev sm_old then mret sm_old
     else l ← Store.alloc (Store.OFindings []); mret (Py.set sev l sm_old)) h
    = (Some sm', h2)
    ∧ Store.preserves n0 h h2
    ∧ Py.get sev sm' = Some l
    ∧ Store.read_sev_map h2 sm'
      = (if Py.has_key sev sm_old then Store.read_sev_map h sm_old
         else Py.set sev [] (Store.read_sev_map h sm_old))
    ∧ Store.owned n0 h2 (Keyed.set img sm' g)
    ∧ Store.read_grouped h2 g = Store.read_grouped h g)
    as (h2 & sm' & l & Hstep & Hpres & Hl & Hread & Hown2 & Hsame).
  { destruct (Py.has_key sev sm_old) eqn:Hhas.
    - apply has_key_true in Hhas as [l Hl]. exists h, sm_old, l.
      rewrite (keyed_set_get_id img sm_old g Hget).
      split; [done|]. split; [apply preserves_refl|]. by repeat (split; [done|]).
    - apply has_key_false in Hhas.
      exists (h ++ [Store.OFindings []]), (Py.set sev (length h) sm_old), (length h).
      assert (Hnew : Store.findings_at (h ++ [Store.OFindings []]) (length h) = Some []).
      { unfold Store.findings_at. by rewrite list_lookup_middle. }
      assert (Hold : Store.read_sev_map (h ++ [Store.OFindings []]) sm_old
                     = Store.read_sev_map h sm_old).
      { apply read_sev_map_ext. intros l' Hl'. apply findings_at_app.
        destruct Hown as [_ Hall]. rewrite Forall_forall in Hall.
        destruct (Hall l') as [_ Hf]; [by apply (keyed_get_leaves img g sm_old)|].
        by apply findings_at_lt. }
      split; [done|]. split; [by apply preserves_app|].
      split; [by rewrite get_set, decide_True|].
      split.
      { unfold Store.read_sev_map at 1.
        rewrite (py_set_fmap (Store.deref (h ++ [Store.OFindings []]))).
        fold (Store.read_sev_map (h ++ [Store.OFindings []]) sm_old).
        rewrite Hold. unfold Store.deref. by rewrite Hnew. }
      split; [|by apply (read_grouped_app n0)].
      pose proof (owned_app n0 h g [Store.OFindings []] Hown) as [Hnd Hall].
      destruct (leaves_set img g) as (rest & H1 & H2). rewrite Hget in H1. simpl in H1.
      assert (Hfresh : length h ∉ Store.leaves g).
      { intros Hin. destruct Hown as [_ Hall0]. rewrite Forall_forall in Hall0.
        destruct (Hall0 _ Hin) as [_ Hf]. apply findings_at_lt in Hf. lia. }
      split; rewrite (H2 (Py.set sev (length h) sm_old)), py_set_snd_none by done.
      + rewrite <-(assoc_L (++)), (comm (++) [length h]), (assoc_L (++)), <-H1.
        rewrite (comm (++)). simpl. by apply NoDup_cons.
      + rewrite <-(assoc_L (++)), (comm (++) [length h]), (assoc_L (++)), <-H1.
        apply Forall_app. split; [done|]. apply Forall_singleton.
        split; [lia|]. rewrite Hnew. eauto. }
  rewrite run_bind_unfold, Hstep, lift_bind, Hl.
  assert (Hget' : Keyed.get img (Keyed.set img sm' g) = Some sm')
    by (by apply (keyed_get_set_some img sm' sm_old)).
  assert (Hleaf : l ∈ Store.leaves (Keyed.set img sm' g)).
  { apply (keyed_get_leaves img _ sm'); [done|]. by apply (py_get_elem sev). }
  destruct Hown2 as [Hnd2 Hall2]. pose proof Hall2 as Hall2'.
  rewrite Forall_forall in Hall2'. destruct (Hall2' l Hleaf) as [Hnl [x Hx]].
  rewrite run_bind_unfold, (append_run h2 l v x Hx).
  cbv beta iota. unfold mret, run_ret, Try.ret.
  exists (<[l := Store.OFindings (x ++ [v])]> h2).
  split.
  { eapply preserves_trans; [exact Hpres|]. by apply preserves_write. }
  set (SM' := if Py.has_key sev sm_old then Store.read_sev_map h sm_old
              else Py.set sev [] (Store.read_sev_map h sm_old)) in *.
  assert (Hb : Py.get sev SM' = Some x).
  { rewrite <-Hread. unfold Store.read_sev_map.
    rewrite (py_get_fmap (Store.deref h2)), Hl. simpl. unfold Store.deref. by rewrite Hx. }
  fold SM'. rewrite Hb. simpl. eexists. split; [reflexivity|]. split.
  - rewrite (read_grouped_write h2 _ img sm' sev l (x ++ [v]) Hnd2 Hget' Hl)
      by (apply findings_at_lt; rewrite Hx; eauto).
    rewrite read_grouped_set, Hread, Hsame.
    apply keyed_set_set. rewrite read_grouped_get, Hget. simpl. eauto.
  - by apply owned_write.
Qed.

Lemma group_add_refines n0 h g v :
  Store.owned n0 h g → (n0 ≤ length h)%nat →
  ∃ h', Store.preserves n0 h h' ∧
    match group_add (Store.read_grouped h g) v with
    | Some G' =>
        ∃ g', Store.group_add g v h = (Some g', h')
              ∧ Store.read_grouped h' g' = G'
              ∧ Store.owned n0 h' g'
    | None => Store.group_add g v h = (None, h')
    end.
Proof.
  intros Hown Hn0. unfold group_add, Store.group_add.
  rewrite lift_bind.
  destruct (Keyed.hashable (image_of v)) eqn:Hhash; simpl;
    [|exists h; split; [apply preserves_refl | done]].
  rewrite read_grouped_get.
  destruct (Keyed.get (image_of v) g) as [sm_old|] eqn:Hget; simpl.
  - by apply (group_file_refines n0 h g _ v sm_old).
  - destruct (empty_buckets_run h) as (sm & ext & Hrun & Hread & Hnd & Hall).
    assert (Heq :
      ((Store.empty_buckets ≫= λ sev_map, mret (Keyed.set (image_of v) sev_map g))
         ≫= λ grouped, Store.group_file grouped (image_of v) v) h
      = Store.group_file (Keyed.set (image_of v) sm g) (image_of v) v (h ++ ext)).
    { rewrite !run_bind_unfold, Hrun. done. }
    rewrite Heq. clear Heq.
    assert (Hown1 : Store.owned n0 (h ++ ext) (Keyed.set (image_of v) sm g))
      by (by apply owned_set_fresh).
    assert (Hn1 : (n0 ≤ length (h ++ ext))%nat) by (rewrite length_app; lia).
    destruct (group_file_refines n0 (h ++ ext) (Keyed.set (image_of v) sm g)
                (image_of v) v sm Hown1 Hn1) as (h' & Hpres & Hfile).
    { by apply keyed_get_set_none. }
    exists h'. split.
    { eapply preserves_trans; [by apply preserves_app | exact Hpres]. }
    rewrite read_grouped_set, Hread, (read_grouped_app n0 h g ext Hown) in Hfile.
    exact Hfile.
Qed.
End store_group.

Section store_call.
Implicit Types (h : Store.store) (l : Store.loc)
  (g : list (pyval * list (string * Store.loc))) (sm : list (string * Store.loc)).

Lemma load_scan_run h l : Store.load_scan l h = (Store.scan_at h l, h).
Proof.
  unfold Store.load_scan, Store.scan_at. rewrite run_bind_unfold.
  unfold Store.load, Try.lift. by destruct (h !! l) as [[]|].
Qed.

Lemma scan_at_app h ext l p :
  Store.scan_at h l = Some p → Store.scan_at (h ++ ext) l = Some p.
Proof.
  unfold Store.scan_at. destruct (h !! l) as [o|] eqn:E; [|done].
  by rewrite (lookup_app_l_Some _ _ _ _ E).
Qed.

Lemma group_init_refines n0 results rs h g0 :
  Store.owned n0 h g0 → (n0 ≤ length h)%nat →
  Forall2 (λ l r, ∃ vl, Store.scan_at h l = Some (image r, vl)) results rs →
  ∃ g ext,
    Store.fold_each (λ grouped r,
                       scan ← Store.load_scan r;
                       sev_map ← Store.empty_buckets;
                       mret (Keyed.set (PStr scan.1) sev_map grouped))
                    g0 results h
    = (Some g, h ++ ext)
    ∧ Store.read_grouped (h ++ ext) g
      = foldl (λ grouped r, Keyed.set (PStr (image r)) empty_buckets grouped)
              (Store.read_grouped h g0) rs
    ∧ Store.owned n0 (h ++ ext) g.
Proof.
  intros Hown Hn0 Hrs. revert rs h g0 Hown Hn0 Hrs.
  induction results as [|l results IH]; intros rs h g0 Hown Hn0 Hrs.
  - apply Forall2_nil_inv_l in Hrs as ->.
    exists g0, []. rewrite app_nil_r. split; [done|]. by split.
  - apply Forall2_cons_inv_l in Hrs as (r & rs' & [vl Hl] & Hrs & ->).
    destruct (empty_buckets_run h) as (sm & ext & Hrun & Hread & Hnd & Hall).
    assert (Hown1 : Store.owned n0 (h ++ ext) (Keyed.set (PStr (image r)) sm g0))
      by (by apply owned_set_fresh).
    destruct (IH rs' (h ++ ext) (Keyed.set (PStr (image r)) sm g0))
      as (g & ext' & Hfold & Hrg & Hown').
    { done. }
    { rewrite length_app. lia. }
    { eapply Forall2_impl; [exact Hrs|]. intros l' r' [vl' H']. exists vl'.
      by apply scan_at_app. }
    exists g, (ext ++ ext'). rewrite (assoc_L (++)).
    split; [|split; [|done]].
    + cbn [Store.fold_each]. rewrite !run_bind_unfold, load_scan_run, Hl.
      rewrite run_bind_unfold, Hrun. exact Hfold.
    + rewrite Hrg. cbn [foldl]. f_equal.
      by rewrite read_grouped_set, Hread, (read_grouped_app n0 h g0 ext Hown).
Qed.

Lemma group_fill_refines n0 vulns h g :
  Store.owned n0 h g → (n0 ≤ length h)%nat →
  ∃ h', Store.preserves n0 h h' ∧
    match group_fill (Store.read_grouped h g) vulns with
    | Some G' =>
        ∃ g', Store.fold_each Store.group_add g vulns h = (Some g', h')
              ∧ Store.read_grouped h' g' = G'
              ∧ Store.owned n0 h' g'
    | None => Store.fold_each Store.group_add g vulns h = (None, h')
    end.
Proof.
  revert h g. induction vulns as [|v vulns IH]; intros h g Hown Hn0.
  - exists h. split; [apply preserves_refl|]. simpl. by exists g.
  - destruct (group_add_refines n0 h g v Hown Hn0) as (h1 & Hpres & Hadd).
    cbn [group_fill Store.fold_each]. rewrite run_bind_unfold.
    destruct (group_add (Store.read_grouped h g) v) as [G1|]; simpl.
    + destruct Hadd as (g1 & -> & <- & Hown1).
      destruct (IH h1 g1 Hown1) as (h' & Hpres' & Hfill).
      { destruct Hpres. lia. }
      exists h'. split; [by eapply preserves_trans|]. exact Hfill.
    + rewrite Hadd. exists h1. by split.
Qed.
End store_call.

Section store_report.
Implicit Types (h : Store.store) (l : Store.loc)
  (g : list (pyval * list (string * Store.loc))) (sm : list (string * Store.loc)).

Lemma compact_fold h sm keys acc accv :
  Forall (λ l, is_Some (Store.findings_at h l)) sm.*2 →
  Forall2 (λ b B, Store.bucket_at h b = Some B) acc accv →
  ∃ out,
    Store.fold_each
      (λ ordered sev,
         match Py.get sev sm with
         | Some l =>
             x ← Store.load_findings l;
             mret (match x with
                   | [] => ordered
                   | _ => ordered ++ [{| severity := sev; items := l |}]
                   end)
         | None => mret ordered
         end) acc keys h
    = (Some out, h)
    ∧ Forall2 (λ b B, Store.bucket_at h b = Some B) out
        (accv ++ omap (λ sev, match Py.get sev (Store.read_sev_map h sm) with
                              | Some (x :: l) => Some {| severity := sev; items := x :: l |}
                              | _ => None
                              end) keys).
Proof.
  intros Hvalid. revert acc accv. induction keys as [|k keys IH]; intros acc accv Hacc.
  - exists acc. split; [done|]. by rewrite app_nil_r.
  - cbn [Store.fold_each omap list_omap]. unfold Store.read_sev_map at 1.
    rewrite (py_get_fmap (Store.deref h)).
    destruct (Py.get k sm) as [l|] eqn:Hk; simpl.
    + rewrite Forall_forall in Hvalid.
      destruct (Hvalid l (py_get_elem k l sm Hk)) as [x Hx].
      rewrite run_bind_unfold, run_bind_unfold, load_findings_run, Hx.
      unfold Store.deref. rewrite Hx. simpl.
      destruct x as [|y ys].
      * apply IH. done.
      * destruct (IH (acc ++ [{| severity := k; items := l |}])
                    (accv ++ [{| severity := k; items := y :: ys |}])) as (out & Hrun & Hout).
        { apply Forall2_app; [done|]. constructor; [|constructor].
          unfold Store.bucket_at. simpl. by rewrite Hx. }
        exists out. split; [exact Hrun|]. by rewrite <-app_assoc in Hout.
    + rewrite run_bind_unfold. apply IH. done.
Qed.

Lemma compact_refines h sm :
  Forall (λ l, is_Some (Store.findings_at h l)) sm.*2 →
  ∃ out, Store.compact sm h = (Some out, h)
         ∧ mapM (Store.bucket_at h) out = Some (compact (Store.read_sev_map h sm)).
Proof.
  intros Hvalid.
  destruct (compact_fold h sm rev_severity_order [] [] Hvalid) as (out & Hrun & Hout);
    [constructor|].
  exists out. split; [exact Hrun|]. by apply mapM_Some_2.
Qed.

Lemma compact_all h g :
  Forall (λ l, is_Some (Store.findings_at h l)) (Store.leaves g) →
  ∃ out,
    Store.map_each (λ entry, ordered ← Store.compact entry.2;
                             mret {| group_image := entry.1; severities := ordered |})
                   g h
    = (Some out, h)
    ∧ Store.report_at h out
      = Some ((λ entry, {| group_image := entry.1; severities := compact entry.2 |})
                <$> Store.read_grouped h g).
Proof.
  induction g as [|[k sm] g IH]; intros Hvalid.
  - by exists [].
  - rewrite leaves_cons in Hvalid. apply Forall_app in Hvalid as [Hsm Hg].
    destruct (compact_refines h sm Hsm) as (ordered & Hrun & Hread).
    destruct (IH Hg) as (out & Hrun' & Hread').
    exists ({| group_image := k; severities := ordered |} :: out). split.
    + cbn [Store.map_each]. rewrite !run_bind_unfold. cbn [fst snd].
      rewrite Hrun. cbv beta iota. unfold mret at 1, run_ret at 1, Try.ret at 1.
      cbv beta iota. rewrite run_bind_unfold, Hrun'. done.
    + unfold Store.report_at in *. unfold Store.read_grouped. rewrite !fmap_cons.
      cbn [mapM]. simpl. rewrite Hread. simpl.
      fold (Store.read_grouped h g). by rewrite Hread'.
Qed.

Lemma result_at_scan h l r :
  Store.result_at h l = Some r →
  ∃ vl, Store.scan_at h l = Some (image r, vl)
        ∧ Store.findings_at h vl = Some (vulnerabilities r).
Proof.
  unfold Store.result_at, Store.scan_at, Store.findings_at.
  destruct (h !! l) as [[img f c p v n| | |]|]; try done.
  destruct (h !! c) as [[]|]; try done.
  destruct (h !! v) as [[| | |x]|] eqn:Hv; try done.
  destruct (h !! n) as [[]|]; try done.
  intros [= <-]. exists v. by rewrite Hv.
Qed.

Lemma load_each_run h results rs :
  Forall2 (λ l r, Store.result_at h l = Some r) results rs →
  Store.map_each (λ r, scan ← Store.load_scan r; Store.load_findings scan.2) results h
  = (Some (vulnerabilities <$> rs), h).
Proof.
  induction 1 as [|l r results rs Hl _ IH]; [done|].
  destruct (result_at_scan h l r Hl) as (vl & Hscan & Hvl).
  cbn [Store.map_each].
  rewrite !run_bind_unfold, load_scan_run, Hscan. cbv beta iota. cbn [snd].
  rewrite load_findings_run, Hvl. cbv beta iota.
  rewrite run_bind_unfold, IH. done.
Qed.

Lemma join_vulnerabilities rs : mjoin (vulnerabilities <$> rs) = _aggregate_vulns rs.
Proof.
  unfold _aggregate_vulns. induction rs as [|r rs IH]; [done|].
  rewrite fmap_cons. simpl. by rewrite IH.
Qed.

Lemma aggregate_run h results rs :
  Forall2 (λ l r, Store.result_at h l = Some r) results rs →
  Store.aggregate_vulns results h = (Some (_aggregate_vulns rs), h).
Proof.
  intros Hrs. unfold Store.aggregate_vulns.
  rewrite run_bind_unfold, (load_each_run h results rs Hrs).
  by rewrite <-join_vulnerabilities.
Qed.
End store_report.

Section store_purity.
Implicit Types (h : Store.store) (l : Store.loc).

Lemma owned_nil n0 h : Store.owned n0 h [].
Proof. split; constructor. Qed.

(** A call changes no cell that was there before it, and what it returns,
    read out of the store it leaves, is the value of the function on the
    results that the store held. *)
Lemma group_refines settings h results rs :
  Forall2 (λ l r, Store.result_at h l = Some r) results rs →
  Store.preserves (length h) h (Store.after settings results h)
  ∧ Store.outcome settings results h = group_vulns_by_image_and_severity settings rs
  ∧ ∀ report,
      (Store.group_vulns_by_image_and_severity settings results h).1 = Some report →
      is_Some (Store.report_at (Store.after settings results h) report).
Proof.
  intros Hrs. unfold Store.after, Store.outcome, Store.group_vulns_by_image_and_severity,
    group_vulns_by_image_and_severity, grouped_by_image.
  rewrite run_bind_unfold, (aggregate_run h results rs Hrs), lift_bind.
  destruct (filter_by_threshold _ _) as [filtered|]; simpl;
    [|split; [apply preserves_refl|]; split; [done|]; by intros ? [=]].
  destruct (group_init_refines (length h) results rs h [] (owned_nil _ h))
    as (g & ext & Hinit & Hread & Hown); [done| |].
  { eapply Forall2_impl; [exact Hrs|]. intros l r Hl.
    destruct (result_at_scan h l r Hl) as (vl & Hscan & _). by exists vl. }
  unfold Store.group_init. rewrite run_bind_unfold, Hinit.
  destruct (group_fill_refines (length h) filtered (h ++ ext) g Hown)
    as (h' & Hpres & Hfill); [rewrite length_app; lia|].
  assert (Hpres' : Store.preserves (length h) h h').
  { eapply preserves_trans; [by apply preserves_app | exact Hpres]. }
  rewrite run_bind_unfold. unfold group_init. rewrite Hread in Hfill.
  change (Store.read_grouped h []) with (@nil (pyval * list (string * list Vulnerability)))
    in Hfill.
  destruct (group_fill _ filtered) as [G'|].
  - destruct Hfill as (g' & -> & <- & [_ Hall]).
    destruct (compact_all h' g') as (out & -> & Hout).
    { eapply Forall_impl; [exact Hall|]. by intros l []. }
    simpl. split; [done|]. split; [exact Hout|].
    intros report [= <-]. rewrite Hout. eauto.
  - rewrite Hfill. simpl. split; [done|]. split; [done|]. by intros ? [=].
Qed.

Lemma lookup_preserved h h' l o :
  Store.preserves (length h) h h' → h !! l = Some o → h' !! l = Some o.
Proof. intros [_ H] Hl. rewrite H; [done|]. by apply lookup_lt_Some in Hl. Qed.

Lemma result_at_preserved h h' l r :
  Store.preserves (length h) h h' →
  Store.result_at h l = Some r → Store.result_at h' l = Some r.
Proof.
  intros Hpres. unfold Store.result_at.
  destruct (h !! l) as [[img f c p v n| | |]|] eqn:El; try done.
  destruct (h !! c) as [[d| | |]|] eqn:Ec; try done.
  destruct (h !! v) as [[| | |x]|] eqn:Ev; try done.
  destruct (h !! n) as [[|names| |]|] eqn:En; try done.
  by rewrite (lookup_preserved h h' _ _ Hpres El), (lookup_preserved h h' _ _ Hpres Ec),
    (lookup_preserved h h' _ _ Hpres Ev), (lookup_preserved h h' _ _ Hpres En).
Qed.

Lemma results_at_preserved h h' results rs :
  Store.preserves (length h) h h' →
  Store.results_at h results = Some rs → Store.results_at h' results = Some rs.
Proof.
  intros Hpres. unfold Store.results_at. rewrite !mapM_Some. intros H.
  eapply Forall2_impl; [exact H|]. intros l r. by apply result_at_preserved.
Qed.

Lemma bucket_at_preserved h h' b B :
  Store.preserves (length h) h h' →
  Store.bucket_at h b = Some B → Store.bucket_at h' b = Some B.
Proof.
  intros Hpres. unfold Store.bucket_at, Store.findings_at.
  destruct (h !! items b) as [o|] eqn:E; [|done].
  by rewrite (lookup_preserved h h' _ _ Hpres E).
Qed.

Lemma report_at_preserved h h' report rep :
  Store.preserves (length h) h h' →
  Store.report_at h report = Some rep → Store.report_at h' report = Some rep.
Proof.
  intros Hpres. unfold Store.report_at. rewrite !mapM_Some. intros H.
  eapply Forall2_impl; [exact H|]. intros g G. simpl.
  destruct (mapM (Store.bucket_at h) (severities g)) as [bs|] eqn:E; [|done].
  simpl. intros [= <-].
  assert (mapM (Store.bucket_at h') (severities g) = Some bs) as ->; [|done].
  apply mapM_Some. apply mapM_Some in E. eapply Forall2_impl; [exact E|].
  intros b B. by apply bucket_at_preserved.
Qed.

(** C9: a call of grouping on a store changes no cell that existed before
    it, so every input [ScanResult] reads the same afterwards, with its
    findings count, [sev_counts], vulnerabilities and containers; what the
    call returns is the value of the grouping function on these results, so
    a second call on the same list returns a structurally identical report
    (or raises as the first did), and the report of the first call still
    reads the same after the second. *)
Theorem grouping_is_pure settings h results rs :
  Store.results_at h results = Some rs →
  let h1 := Store.after settings results h in
  let h2 := Store.after settings results h1 in
  Store.outcome settings results h1 = Store.outcome settings results h
  ∧ Store.outcome settings results h = group_vulns_by_image_and_severity settings rs
  ∧ (∀ report,
        (Store.group_vulns_by_image_and_severity settings results h).1 = Some report →
        Store.report_at h2 report = Store.outcome settings results h)
  ∧ Store.results_at h1 results = Some rs
  ∧ Store.results_at h2 results = Some rs
  ∧ Store.preserves (length h) h h1
  ∧ Store.preserves (length h1) h1 h2.
Proof.
  intros Hrs h1 h2.
  assert (H0 : Forall2 (λ l r, Store.result_at h l = Some r) results rs)
    by (by apply mapM_Some).
  destruct (group_refines settings h results rs H0) as (Hpres & Hout & Hsome).
  fold h1 in Hpres, Hsome.
  pose proof (results_at_preserved h h1 results rs Hpres Hrs) as Hrs1.
  assert (H1 : Forall2 (λ l r, Store.result_at h1 l = Some r) results rs)
    by (by apply mapM_Some).
  destruct (group_refines settings h1 results rs H1) as (Hpres1 & Hout1 & _).
  fold h2 in Hpres1.
  split; [by rewrite Hout1, Hout|]. split; [done|].
  split; [|split; [done|]; split; [|done]].
  - intros report Hrep. destruct (Hsome report Hrep) as [rep Hrep1].
    rewrite (report_at_preserved h1 h2 report rep Hpres1 Hrep1).
    unfold Store.outcome.
    destruct (Store.group_vulns_by_image_and_severity settings results h)
      as [out hh] eqn:E. simpl in Hrep. subst out.
    assert (hh = h1) as -> by (unfold h1, Store.after; by rewrite E).
    simpl. by rewrite Hrep1.
  - by apply (results_at_preserved h1 h2).
Qed.
End store_purity.

Lemma grouping_is_pure_witness :
  let settings := {| exclude_label := "docktor.ignore=true"; only_running := true;
                     attach_json := true; min_notify_severity := "LOW";
                     scan_scope := "ALL" |} in
  let finding sev : Vulnerability := [("image", PStr "nginx:1.25"); ("Severity", PStr sev)] in
  let h : Store.store :=
    [Store.OCounts [("HIGH", 1); ("LOW", 1)];
     Store.OFindings [finding "HIGH"; finding "LOW"];
     Store.ONames ["web"];
     Store.OScan "nginx:1.25" 2 0%nat "/tmp/trivy_x.json" 1%nat 2%nat] in
  let h1 := Store.after settings [3%nat] h in
  Store.results_at h [3%nat]
  = Some [{| image := "nginx:1.25"; findings := 2; sev_counts := [("HIGH", 1); ("LOW", 1)];
             json_path := "/tmp/trivy_x.json";
             vulnerabilities := [finding "HIGH"; finding "LOW"];
             containers := ["web"] |}]
  ∧ Store.outcome settings [3%nat] h1 = Store.outcome settings [3%nat] h
  ∧ Store.results_at h1 [3%nat] = Store.results_at h [3%nat].
Proof.
  intros settings finding h h1.
  assert (Hrs : Store.results_at h [3%nat]
    = Some [{| image := "nginx:1.25"; findings := 2;
               sev_counts := [("HIGH", 1); ("LOW", 1)];
               json_path := "/tmp/trivy_x.json";
               vulnerabilities := [finding "HIGH"; finding "LOW"];
               containers := ["web"] |}]) by reflexivity.
  destruct (grouping_is_pure settings h [3%nat] _ Hrs) as (Hsame & _ & _ & Hin & _).
  split; [exact Hrs|]. split; [exact Hsame|]. by rewrite Hrs.
Defined.

(** ** What [has_exclude_label] decides *)

(** The fixed label excludes, in any letter case, whatever is configured. *)
Lemma has_exclude_label_fixed settings n img labels value :
  Py.get "docktor.ignore" labels = Some (PStr value) →
  Py.lower value = "true" →
  has_exclude_label settings
    {| Docker.name := n; Docker.image := img;
       Docker.attrs := PDict [("Config", PDict [("Labels", PDict labels)])] |} = true.
Proof.
  intros Hget Hlow. unfold has_exclude_label, has_exclude_label_body, label_lower; simpl.
  destruct labels as [|kv labels]; [done|]. simpl.
  unfold Py.get_or. rewrite Hget. simpl. by rewrite Hlow.
Qed.

(** The configured label is compared after lower-casing the container's
    value only: a configured value with a capital letter matches nothing. *)
Example has_exclude_label_configured_capital :
  has_exclude_label
    {| exclude_label := "team=Infra"; only_running := true; attach_json := true;
       min_notify_severity := "LOW"; scan_scope := "ALL" |}
    {| Docker.name := "web";
       Docker.image := {| Docker.tags := ["nginx:1.25"]; Docker.id := "sha256:0" |};
       Docker.attrs := PDict [("Config", PDict [("Labels", PDict [("team", PStr "Infra")])])] |}
  = false.
Proof. reflexivity. Qed.

(** ** The attachment ordering on categorized findings *)

Lemma insert_by_key_perm {A} (x : Z * A) l : insert_by_key x l ≡ₚ x :: l.
Proof.
  induction l as [|y l IH]; [done|]. simpl. case_bool_decide; [|done].
  by rewrite IH, Permutation_swap.
Qed.

Lemma insert_by_key_sorted {A} (x : Z * A) l :
  StronglySorted (λ a b, a.1 ≤ b.1) l →
  StronglySorted (λ a b, a.1 ≤ b.1) (insert_by_key x l).
Proof.
  induction 1 as [|y l Hl IH Hy]; simpl; [repeat constructor|].
  case_bool_decide as Hlt.
  - constructor; [done|]. rewrite insert_by_key_perm. constructor; [lia | done].
  - constructor; [by constructor|]. constructor; [lia|].
    eapply Forall_impl; [exact Hy|]. intros z Hz. simpl in *. lia.
Qed.

Lemma foldr_insert_sorted {A} (l : list (Z * A)) :
  StronglySorted (λ a b, a.1 ≤ b.1) (foldr insert_by_key [] l)
  ∧ foldr insert_by_key [] l ≡ₚ l.
Proof.
  induction l as [|x l [IH1 IH2]]; simpl; [split; [constructor | done]|].
  split; [by apply insert_by_key_sorted|]. by rewrite insert_by_key_perm, IH2.
Qed.

Lemma attachment_sort_key_categorized v :
  categorized v → attachment_sort_key v = Some (- rank (severity_text v)).
Proof.
  intros (s & Hs & Hin). unfold attachment_sort_key, severity_text. rewrite Hs. simpl.
  unfold rank, Py.get_or. unfold SEVERITY_ORDER in *.
  repeat (apply elem_of_cons in Hin as [->|Hin]; [done|]).
  by apply elem_of_nil in Hin.
Qed.

(** For a result whose findings all have a canonical severity, the
    per-image ordering lists the same findings from the highest rank down. *)
Lemma ordered_vulns_categorized r :
  Forall categorized (vulnerabilities r) →
  ∃ vulns, ordered_vulns r = Some vulns
           ∧ vulns ≡ₚ vulnerabilities r
           ∧ StronglySorted rank_not_below vulns.
Proof.
  intros Hcat. unfold ordered_vulns.
  assert (Hkeys : mapM (λ v, k ← attachment_sort_key v; Some (k, v)) (vulnerabilities r)
                  = Some ((λ v, (- rank (severity_text v), v)) <$> vulnerabilities r)).
  { apply mapM_Some. apply Forall2_fmap_r. apply Forall_Forall2_diag.
    eapply Forall_impl; [exact Hcat|]. intros v Hv.
    by rewrite (attachment_sort_key_categorized v Hv). }
  rewrite Hkeys. simpl. eexists. split; [reflexivity|].
  destruct (foldr_insert_sorted ((λ v, (- rank (severity_text v), v)) <$> vulnerabilities r))
    as [Hsorted Hperm].
  unfold sorted_by_key. split.
  - rewrite Hperm, <-list_fmap_compose. by rewrite list_fmap_id.
  - assert (Hall : Forall (λ e : Z * Vulnerability, e.1 = - rank (severity_text e.2))
                     (foldr insert_by_key []
                        ((λ v, (- rank (severity_text v), v)) <$> vulnerabilities r))).
    { rewrite Hperm. apply Forall_fmap, Forall_forall. by intros. }
    revert Hsorted Hall. generalize (foldr insert_by_key []
      ((λ v, (- rank (severity_text v), v)) <$> vulnerabilities r)).
    intros l Hsorted. induction Hsorted as [|x l Hl IH Hx]; intros Hall; [constructor|].
    apply Forall_cons in Hall as [Hx1 Hall]. rewrite fmap_cons.
    constructor; [by apply IH|]. apply Forall_fmap, Forall_forall. intros y Hy.
    rewrite Forall_forall in Hx, Hall. specialize (Hx y Hy). specialize (Hall y Hy).
    unfold rank_not_below. simpl. lia.
Qed.

(** * Further properties *)

(** ** Severity model: case, order, thresholds *)

Lemma upper_char_idem c : Py.upper_char (Py.upper_char c) = Py.upper_char c.
Proof. by destruct c as [[] [] [] [] [] [] [] []]. Qed.

Lemma upper_idem s : Py.upper (Py.upper s) = Py.upper s.
Proof. induction s as [|c s IH]; [done|]. simpl. by rewrite upper_char_idem, IH. Qed.

Lemma upper_lower_char c :
  (N_of_ascii c <? 128)%N = true → Py.upper_char (Py.lower_char c) = Py.upper_char c.
Proof. by destruct c as [[] [] [] [] [] [] [] []]. Qed.

Lemma upper_lower s : ascii_text s = true → Py.upper (Py.lower s) = Py.upper s.
Proof.
  unfold ascii_text. induction s as [|c s IH]; [done|]. simpl.
  intros [Hc Hs]%andb_true_iff. by rewrite upper_lower_char, IH.
Qed.

Lemma lower_empty s : Py.lower s = "" ↔ s = "".
Proof. destruct s; simpl; split; congruence. Qed.

Lemma rank_upper s : rank (Py.upper s) = rank s.
Proof. unfold rank. by rewrite upper_idem. Qed.

Lemma rank_lower s : ascii_text s = true → rank (Py.lower s) = rank s.
Proof. intros Hs. unfold rank. by rewrite upper_lower. Qed.

Lemma meets_threshold_ranks severity threshold :
  meets_threshold severity threshold
  = bool_decide (threshold_rank threshold ≤ rank severity).
Proof. apply meets_threshold_unfold. Qed.

Lemma threshold_rank_upper t : threshold_rank (Py.upper t) = threshold_rank t.
Proof.
  unfold threshold_rank. rewrite rank_upper.
  destruct t; [done|]. reflexivity.
Qed.

Lemma threshold_rank_lower t :
  ascii_text t = true → threshold_rank (Py.lower t) = threshold_rank t.
Proof.
  intros Ht. unfold threshold_rank. rewrite rank_lower by done.
  destruct t; [done|]. reflexivity.
Qed.

(** X1: on ASCII text, where the case maps of the embedding are those of
    the program, the letter case of either argument does not matter to
    [meets_threshold]. *)
Theorem meets_threshold_case_insensitive severity threshold :
  ascii_text severity = true →
  ascii_text threshold = true →
  meets_threshold (Py.upper severity) threshold = meets_threshold severity threshold
  ∧ meets_threshold (Py.lower severity) threshold = meets_threshold severity threshold
  ∧ meets_threshold severity (Py.upper threshold) = meets_threshold severity threshold
  ∧ meets_threshold severity (Py.lower threshold) = meets_threshold severity threshold.
Proof.
  intros Hs Ht. rewrite !meets_threshold_ranks.
  by rewrite rank_upper, rank_lower, threshold_rank_upper, threshold_rank_lower.
Qed.

Lemma meets_threshold_case_insensitive_witness :
  meets_threshold (Py.lower "High") "medium" = meets_threshold "High" "medium"
  ∧ meets_threshold "High" (Py.upper "medium") = meets_threshold "High" "medium".
Proof.
  destruct (meets_threshold_case_insensitive "High" "medium") as (_ & Hl & Hu & _).
  - reflexivity.
  - reflexivity.
  - split; [exact Hl | exact Hu].
Defined.

(** X2: a severity that meets a threshold meets every threshold that is
    not higher, and so does every severity that does not rank lower. *)
Theorem meets_threshold_monotone severity severity' threshold threshold' :
  rank severity ≤ rank severity' →
  threshold_rank threshold' ≤ threshold_rank threshold →
  meets_threshold severity threshold = true →
  meets_threshold severity' threshold' = true.
Proof.
  rewrite !meets_threshold_ranks, !bool_decide_eq_true. lia.
Qed.

Lemma meets_threshold_monotone_witness :
  meets_threshold "high" "MEDIUM" = true ∧ meets_threshold "CRITICAL" "low" = true.
Proof.
  split; [reflexivity|].
  apply (meets_threshold_monotone "high" "CRITICAL" "MEDIUM" "low").
  - vm_compute. discriminate.
  - vm_compute. discriminate.
  - reflexivity.
Defined.

(** X3: a non-empty threshold that names no canonical level, like
    [UNKNOWN] itself, is met by every severity, the absent one included. *)
Theorem meets_threshold_unrecognized_threshold threshold :
  threshold ≠ "" →
  Py.upper threshold ∉ ["LOW"; "MEDIUM"; "HIGH"; "CRITICAL"] →
  ∀ severity, meets_threshold severity threshold = true.
Proof.
  intros Hne Hnot severity. rewrite meets_threshold_ranks, bool_decide_eq_true.
  unfold threshold_rank. destruct (String.eqb_spec threshold ""); [done|].
  pose proof (rank_range severity).
  assert (rank threshold = 0) as ->; [|lia].
  destruct (rank_unrecognized threshold) as [Hin|]; [|done].
  unfold SEVERITY_ORDER in Hin. apply elem_of_cons in Hin as [Hu|Hin]; [|done].
  unfold rank. by rewrite Hu.
Qed.

Lemma meets_threshold_unrecognized_threshold_witness :
  meets_threshold "" "HIHG" = true ∧ meets_threshold "low" "unknown" = true.
Proof.
  split.
  - apply (meets_threshold_unrecognized_threshold "HIHG"); [discriminate|].
    rewrite !not_elem_of_cons. repeat split; try discriminate. apply not_elem_of_nil.
  - apply (meets_threshold_unrecognized_threshold "unknown"); [discriminate|].
    rewrite !not_elem_of_cons. repeat split; try discriminate. apply not_elem_of_nil.
Defined.

(** ** [severity_breakdown] *)

Lemma string_lt_le_cases a b : string_lt a b ∨ a = b ∨ string_lt b a.
Proof.
  destruct (string_le_total a b) as [H|H]; apply string_le_iff in H;
    destruct H as [H|H]; auto.
Qed.

Lemma string_lt_asym a b : string_lt a b → string_lt b a → False.
Proof. intros H1 H2. apply (string_lt_irrefl a). by transitivity b. Qed.

#[local] Instance item_le_trans : Transitive item_le.
Proof.
  intros [k1 v1] [k2 v2] [k3 v3]. unfold item_le; simpl.
  intros [H1|[-> H1]] [H2|[-> H2]]; [left; by transitivity k2 | by left | by left|].
  right. split; [done | lia].
Qed.

#[local] Instance item_le_total : Total item_le.
Proof.
  intros [k1 v1] [k2 v2]. unfold item_le; simpl.
  destruct (string_lt_le_cases k1 k2) as [?|[->|?]]; [by left; left| |by right; left].
  destruct (Z.le_ge_cases v1 v2); [left | right]; by right.
Qed.

#[local] Instance item_le_antisym : AntiSymm (=) item_le.
Proof.
  intros [k1 v1] [k2 v2]. unfold item_le; simpl.
  intros [H1|[E1 H1]] [H2|[E2 H2]].
  - by destruct (string_lt_asym k1 k2).
  - rewrite E2 in H1. by destruct (string_lt_irrefl k1).
  - rewrite E1 in H2. by destruct (string_lt_irrefl k2).
  - rewrite E1. f_equal. lia.
Qed.

(** X4: the breakdown text does not depend on the order in which the
    severities were first counted: two results with the same counts have
    the same text. A result without counts has the empty text. *)
Theorem severity_breakdown_order_free r r' :
  sev_counts r ≡ₚ sev_counts r' →
  severity_breakdown r = severity_breakdown r'
  ∧ (sev_counts r = [] → severity_breakdown r = "").
Proof.
  intros Hperm. split.
  - unfold severity_breakdown. do 2 f_equal.
    apply (Sorted_unique item_le).
    + apply (Sorted_merge_sort item_le).
    + apply (Sorted_merge_sort item_le).
    + by rewrite !merge_sort_Permutation.
  - unfold severity_breakdown. by intros ->.
Qed.

Lemma severity_breakdown_order_free_witness :
  let result counts :=
    {| image := "nginx:1.25"; findings := 3; sev_counts := counts;
       json_path := "/tmp/trivy_x.json"; vulnerabilities := []; containers := [] |} in
  severity_breakdown (result [("LOW", 2); ("HIGH", 1)]) = "HIGH:1, LOW:2"
  ∧ severity_breakdown (result [("HIGH", 1); ("LOW", 2)]) = "HIGH:1, LOW:2".
Proof.
  intros result.
  destruct (severity_breakdown_order_free (result [("LOW", 2); ("HIGH", 1)])
              (result [("HIGH", 1); ("LOW", 2)])) as [Heq _].
  - simpl. apply Permutation_swap.
  - split; [|rewrite <-Heq]; reflexivity.
Defined.

(** ** Deduplication: order of the containers, attribution *)

#[local] Instance string_le_antisym : AntiSymm (=) string_le.
Proof. intros a b. apply String.leb_antisym. Qed.

Lemma sorted_set_same_elements xs ys :
  (∀ x, x ∈ xs ↔ x ∈ ys) → sorted_set xs = sorted_set ys.
Proof.
  intros H. unfold sorted_set. apply (Sorted_unique string_le).
  - apply (Sorted_merge_sort string_le).
  - apply (Sorted_merge_sort string_le).
  - rewrite !merge_sort_Permutation. apply NoDup_Permutation.
    + apply NoDup_remove_dups.
    + apply NoDup_remove_dups.
    + intros x. by rewrite !elem_of_remove_dups.
Qed.

Lemma kept_perm settings cs cs' :
  cs ≡ₚ cs' → kept settings cs ≡ₚ kept settings cs'.
Proof. intros H. unfold kept. by rewrite H. Qed.

#[local] Instance users_perm ref : Proper ((≡ₚ) ==> (≡ₚ)) (users ref).
Proof. intros l l' H. unfold users. by rewrite H. Qed.

Lemma partition_by_key {A K} `{EqDecision K} (f : A → K) (ks : list K) (l : list A) :
  NoDup ks → (∀ x, x ∈ l → f x ∈ ks) →
  (k ← ks; filter (λ x, f x = k) l) ≡ₚ l.
Proof.
  intros Hnd. induction l as [|x l IH]; intros Hin.
  - clear. induction ks as [|k ks IH]; [done|]. by rewrite bind_cons, IH.
  - destruct (list_elem_of_split ks (f x)) as (ks1 & ks2 & ->); [apply Hin; left|].
    apply NoDup_app in Hnd as (Hnd1 & Hdisj & Hnd2).
    apply NoDup_cons in Hnd2 as [Hx2 Hnd2].
    assert (Hother : ∀ ks', f x ∉ ks' →
              (k ← ks'; filter (λ y, f y = k) (x :: l)) = (k ← ks'; filter (λ y, f y = k) l)).
    { intros ks'. induction ks' as [|k ks' IHk]; intros Hks'; [done|].
      apply not_elem_of_cons in Hks' as [Hne Hks'].
      rewrite !bind_cons, IHk by done.
      by rewrite filter_cons, decide_False. }
    assert (H1 : f x ∉ ks1) by (intros Hk; eapply Hdisj; [exact Hk | left]).
    rewrite bind_app, bind_cons, (Hother ks1 H1), (Hother ks2 Hx2), filter_cons,
      decide_True by done.
    assert (IH' : (k ← ks1 ++ f x :: ks2; filter (λ y, f y = k) l) ≡ₚ l).
    { apply IH. intros y Hy. apply Hin. by right. }
    rewrite bind_app, bind_cons in IH'.
    rewrite <-app_comm_cons, <-Permutation_middle. by constructor.
Qed.

(** X5: the distinct images do not depend on the order of the containers:
    for a reordered listing the same images are scanned in the same order,
    with the same findings, and every result names the same containers. *)
Theorem scan_all_order_free settings trivy cs cs' :
  cs ≡ₚ cs' →
  (deduplicate settings cs).1 = (deduplicate settings cs').1
  ∧ Forall2 (λ r r', image r = image r' ∧ state_of r = state_of r'
                     ∧ json_path r = json_path r' ∧ containers r ≡ₚ containers r')
            (scan_all settings trivy cs) (scan_all settings trivy cs').
Proof.
  intros Hperm.
  assert (Hrefs : (deduplicate settings cs).1 = (deduplicate settings cs').1).
  { rewrite !deduplicate_unfold. simpl. apply sorted_set_same_elements. intros x.
    rewrite !(proj1 (collect_images_spec _ _)). by rewrite (kept_perm settings cs cs' Hperm). }
  split; [done|].
  rewrite !scan_all_unfold, <-Hrefs. apply Forall2_fmap, Forall_Forall2_diag, Forall_forall.
  intros ref _. simpl. repeat split.
  rewrite !deduplicate_unfold. simpl.
  rewrite !(proj1 (proj2 (collect_images_spec _ _))).
  by rewrite (kept_perm settings cs cs' Hperm).
Qed.

Lemma scan_all_order_free_witness :
  let settings := {| exclude_label := "docktor.ignore=true"; only_running := true;
                     attach_json := true; min_notify_severity := "LOW";
                     scan_scope := "ALL" |} in
  let container n ref :=
    {| Docker.name := n;
       Docker.image := {| Docker.tags := [ref]; Docker.id := "sha256:0" |};
       Docker.attrs := PDict [] |} in
  (deduplicate settings [container "web" "nginx:1.25"; container "db" "alpine:3"]).1
  = (deduplicate settings [container "db" "alpine:3"; container "web" "nginx:1.25"]).1.
Proof.
  intros settings container.
  apply (scan_all_order_free settings (λ _, ("", None))
           [container "web" "nginx:1.25"; container "db" "alpine:3"]
           [container "db" "alpine:3"; container "web" "nginx:1.25"]).
  apply Permutation_swap.
Defined.

Lemma sorted_set_NoDup xs : NoDup (sorted_set xs).
Proof. unfold sorted_set. rewrite merge_sort_Permutation. apply NoDup_remove_dups. Qed.

Lemma fmap_bind_list {A B C} (f : B → C) (g : A → list B) (l : list A) :
  f <$> (l ≫= g) = l ≫= (λ x, f <$> g x).
Proof.
  induction l as [|x l IH]; [done|]. by rewrite !bind_cons, fmap_app, IH.
Qed.

(** X6: every container that is not excluded is named by exactly one
    result, the one of its image: the container lists of the results,
    taken together, are the names of the kept containers. *)
Theorem scan_all_names_each_container_once settings trivy cs :
  (r ← scan_all settings trivy cs; containers r) ≡ₚ Docker.name <$> kept settings cs.
Proof.
  rewrite scan_all_unfold, list_fmap_bind, deduplicate_unfold. simpl.
  destruct (collect_images_spec settings cs) as (H1 & H2 & _).
  rewrite (Forall_bind_ext _ (λ ref, Docker.name <$>
             filter (λ c, image_ref_of c = ref) (kept settings cs))).
  - rewrite <-fmap_bind_list. f_equiv. apply partition_by_key.
    + apply sorted_set_NoDup.
    + intros c Hc. rewrite elem_of_sorted_set, H1. by apply list_elem_of_fmap_2.
  - apply Forall_forall. intros ref _. simpl. apply H2.
Qed.

(** ** [has_exclude_label]: what the configured label can and cannot do *)

Lemma lower_char_idem c : Py.lower_char (Py.lower_char c) = Py.lower_char c.
Proof. by destruct c as [[] [] [] [] [] [] [] []]. Qed.

Lemma lower_idem s : Py.lower (Py.lower s) = Py.lower s.
Proof. induction s as [|c s IH]; [done|]. simpl. by rewrite lower_char_idem, IH. Qed.

Lemma label_lower_is_lower labels key value :
  label_lower labels key = Some value → Py.lower value = value.
Proof.
  unfold label_lower. destruct (as_dict labels) as [d|]; [|done]. simpl.
  destruct (as_str _) as [s|]; [|done]. simpl. intros [= <-]. apply lower_idem.
Qed.

Lemma has_exclude_label_unfold settings c :
  has_exclude_label settings c
  = match labels_of c with
    | Some labels =>
        match label_lower labels "docktor.ignore" with
        | Some fixed =>
            if String.eqb fixed "true" then true
            else match label_lower labels (configured_key settings),
                       configured_value settings with
                 | Some dynamic, Some value => String.eqb dynamic value
                 | _, _ => false
                 end
        | None => false
        end
    | None => false
    end.
Proof.
  unfold has_exclude_label, has_exclude_label_body, labels_of, configured_key,
    configured_value.
  destruct (as_dict (Docker.attrs c)) as [attrs|]; [|done]. simpl.
  destruct (as_dict (Py.get_or "Config" (PDict []) attrs)) as [config|]; [|done]. simpl.
  destruct (label_lower _ "docktor.ignore") as [fixed|]; [|done]. simpl.
  destruct (String.eqb fixed "true"); [done|].
  destruct (label_lower _ _) as [dynamic|]; [|done]. simpl.
  by destruct (Py.split "=" (exclude_label settings) !! 1%nat).
Qed.

(** X7: a configured exclusion label without [=], or whose value has a
    capital letter, excludes no container: the container's value is
    lower-cased before the comparison and the configured value is not, so
    only the fixed label [docktor.ignore=true] decides. *)
Theorem configured_label_without_effect settings c :
  (∀ value, configured_value settings = Some value → Py.lower value ≠ value) →
  has_exclude_label settings c = fixed_label c.
Proof.
  intros Hcfg. rewrite has_exclude_label_unfold. unfold fixed_label.
  destruct (labels_of c) as [labels|]; [|done]. simpl.
  destruct (label_lower labels "docktor.ignore") as [fixed|]; [|done].
  destruct (String.eqb fixed "true"); [done|].
  destruct (label_lower labels (configured_key settings)) as [dynamic|] eqn:Hd; [|done].
  destruct (configured_value settings) as [value|]; [|done].
  destruct (String.eqb_spec dynamic value) as [->|]; [|done].
  destruct (Hcfg value eq_refl). by apply (label_lower_is_lower labels (configured_key settings)).
Qed.

Lemma configured_label_without_effect_witness :
  has_exclude_label
    {| exclude_label := "team=Infra"; only_running := true; attach_json := true;
       min_notify_severity := "LOW"; scan_scope := "ALL" |}
    {| Docker.name := "web";
       Docker.image := {| Docker.tags := ["nginx:1.25"]; Docker.id := "sha256:0" |};
       Docker.attrs := PDict [("Config", PDict [("Labels", PDict [("team", PStr "Infra")])])] |}
  = false.
Proof.
  rewrite configured_label_without_effect; [reflexivity|].
  intros value [= <-]. discriminate.
Defined.

(** X8: when the value of the configured exclusion label is [false], every
    container with readable labels that does not carry the configured key
    is excluded: the missing label reads as ["false"]. *)
Theorem configured_false_excludes_unlabelled settings c labels :
  configured_value settings = Some "false" →
  labels_of c = Some (PDict labels) →
  Py.get (configured_key settings) labels = None →
  (Py.get "docktor.ignore" labels = None
   ∨ ∃ s, Py.get "docktor.ignore" labels = Some (PStr s)) →
  has_exclude_label settings c = true.
Proof.
  intros Hv Hl Hk Hfixed. rewrite has_exclude_label_unfold, Hl, Hv.
  unfold label_lower, Py.get_or. simpl. rewrite Hk. simpl.
  destruct Hfixed as [->|[s ->]]; simpl; [done|].
  by destruct (String.eqb (Py.lower s) "true").
Qed.

Lemma configured_false_excludes_unlabelled_witness :
  has_exclude_label
    {| exclude_label := "scan=false"; only_running := true; attach_json := true;
       min_notify_severity := "LOW"; scan_scope := "ALL" |}
    {| Docker.name := "web";
       Docker.image := {| Docker.tags := ["nginx:1.25"]; Docker.id := "sha256:0" |};
       Docker.attrs := PDict [("Config", PDict [("Labels", PDict [("tier", PStr "front")])])] |}
  = true.
Proof.
  apply (configured_false_excludes_unlabelled _ _ [("tier", PStr "front")]).
  - reflexivity.
  - reflexivity.
  - reflexivity.
  - by left.
Defined.

(** ** [enumerate_containers] *)

Lemma prefix_empty s : String.prefix "" s = true.
Proof. by destruct s. Qed.

Lemma of_project_sublist p l r : of_project p l = Some r → sublist r l.
Proof.
  revert r. induction l as [|c l IH]; intros r; simpl.
  - intros [= <-]. constructor.
  - destruct (labels_of (Daemon.container c)) as [labels|]; [|done]. simpl.
    destruct (label_get labels _) as [project|]; [|done]. simpl.
    destruct (of_project p l) as [rest|]; [|done]. simpl.
    intros [= <-]. destruct (py_eqb project p).
    + by constructor; apply IH.
    + by constructor; apply IH.
Qed.

Lemma of_project_filter p l :
  Forall (λ c, is_Some (project_of c)) l →
  of_project p l
  = Some (filter (λ c, project_of c ≫= (λ v, Some (py_eqb v p)) = Some true) l).
Proof.
  induction 1 as [|c l [v Hv] _ IH]; [done|].
  rewrite filter_cons. unfold project_of in Hv |- *. simpl.
  destruct (labels_of (Daemon.container c)) as [labels|]; [|done]. simpl in *.
  rewrite Hv. simpl. unfold project_of in IH. rewrite IH. simpl.
  destruct (py_eqb v p); by rewrite ?decide_True, ?decide_False by (done || by intros [=]).
Qed.

Lemma of_project_raises p l c :
  c ∈ l → project_of c = None → of_project p l = None.
Proof.
  intros Hin Hc. induction l as [|c' l IH]; [by apply elem_of_nil in Hin|].
  simpl. apply elem_of_cons in Hin as [<-|Hin].
  - unfold project_of in Hc. destruct (labels_of (Daemon.container c)); [|done].
    simpl in *. by rewrite Hc.
  - destruct (labels_of (Daemon.container c')) as [labels|]; [|done]. simpl.
    destruct (label_get labels _); [|done]. simpl. by rewrite IH.
Qed.

Lemma enumerate_containers_unfold settings daemon self_id own_project :
  enumerate_containers settings daemon self_id own_project
  = let containers := others settings daemon self_id in
    if negb (String.eqb (scan_scope settings) "COMPOSE") then containers
    else
      default containers
        (compose_project ← (if Py.truthy own_project then Some own_project
                            else find_project containers);
         if negb (Py.truthy compose_project) then Some containers
         else of_project compose_project containers).
Proof. done. Qed.

(** X9: whatever the scope and the labels, [enumerate_containers] returns
    containers of the daemon's listing, in the order of the listing, and
    none whose id starts with the host name. *)
Theorem enumerate_containers_excludes_self settings daemon self_id own_project :
  sublist (enumerate_containers settings daemon self_id own_project)
          (daemon (negb (only_running settings)))
  ∧ Forall (λ c, String.prefix self_id (Daemon.id c) = false)
           (enumerate_containers settings daemon self_id own_project).
Proof.
  assert (sublist (enumerate_containers settings daemon self_id own_project)
                  (others settings daemon self_id)) as Hsub.
  { rewrite enumerate_containers_unfold. cbv zeta.
    destruct (negb (String.eqb _ _)); [done|].
    destruct (if Py.truthy own_project then _ else _) as [p|]; [|done]. simpl.
    destruct (negb (Py.truthy p)); [done|].
    destruct (of_project p _) as [r|] eqn:E; [|done].
    simpl. by eapply of_project_sublist. }
  split.
  - etrans; [exact Hsub|]. apply sublist_filter.
  - apply Forall_forall. intros c Hc.
    apply (elem_of_sublist _ _ _ Hc) in Hsub. unfold others in Hsub.
    by apply list_elem_of_filter in Hsub as [? _].
Qed.

(** X10: without a host name (the variable [HOSTNAME] unset or empty) every
    listed container counts as this one: nothing is scanned, and the run
    only logs that there are no containers. *)
Theorem run_without_hostname settings daemon own_project trivy :
  enumerate_containers settings daemon "" own_project = []
  ∧ run settings daemon "" own_project trivy = [LogInfo "No containers to scan."].
Proof.
  assert (enumerate_containers settings daemon "" own_project = []) as Hnone.
  { assert (others settings daemon "" = []) as Hothers.
    { unfold others. apply filter_none. intros c _. by rewrite prefix_empty. }
    rewrite enumerate_containers_unfold, Hothers. cbv zeta.
    destruct (negb (String.eqb _ _)); [done|].
    destruct (Py.truthy own_project) eqn:E; simpl.
    - by rewrite E.
    - done. }
  split; [done|]. unfold run. by rewrite Hnone.
Qed.

(** X11: in the scope [COMPOSE], when the lookup of this container gives
    its project and the labels of the other containers can be read, exactly
    the other containers whose project label equals that project are
    returned. *)
Theorem enumerate_containers_same_project settings daemon self_id own_project :
  scan_scope settings = "COMPOSE" →
  Py.truthy own_project = true →
  Forall (λ c, is_Some (project_of c)) (others settings daemon self_id) →
  enumerate_containers settings daemon self_id own_project
  = filter (λ c, project_of c ≫= (λ v, Some (py_eqb v own_project)) = Some true)
           (others settings daemon self_id).
Proof.
  intros Hscope Hown Hlabels.
  rewrite enumerate_containers_unfold, Hscope, Hown. cbv zeta. simpl.
  rewrite Hown. simpl. by rewrite of_project_filter.
Qed.

Lemma enumerate_containers_same_project_witness :
  let settings := {| exclude_label := "docktor.ignore=true"; only_running := true;
                     attach_json := true; min_notify_severity := "LOW";
                     scan_scope := "COMPOSE" |} in
  let entry i labels :=
    {| Daemon.id := i;
       Daemon.container :=
         {| Docker.name := i;
            Docker.image := {| Docker.tags := []; Docker.id := "sha256:0" |};
            Docker.attrs := PDict [("Config", PDict [("Labels", labels)])] |} |} in
  let web := entry "1f3a" (PDict [("com.docker.compose.project", PStr "shop")]) in
  let blog := entry "77c0" (PDict [("com.docker.compose.project", PStr "blog")]) in
  let plain := entry "c2d9" PNone in
  let this := entry "9be4" (PDict [("com.docker.compose.project", PStr "shop")]) in
  enumerate_containers settings (λ _, [web; blog; plain; this]) "9be4" (PStr "shop") = [web].
Proof.
  intros settings entry web blog plain this.
  rewrite (enumerate_containers_same_project settings (λ _, [web; blog; plain; this])
             "9be4" (PStr "shop")).
  - reflexivity.
  - reflexivity.
  - reflexivity.
  - vm_compute. repeat constructor; eexists; reflexivity.
Defined.

(** X12: in the scope [COMPOSE], when the project label of one of the other
    containers cannot be read, the scope is given up: all other containers
    are returned, those of foreign projects too. *)
Theorem enumerate_containers_scope_given_up settings daemon self_id own_project c :
  scan_scope settings = "COMPOSE" →
  Py.truthy own_project = true →
  c ∈ others settings daemon self_id →
  project_of c = None →
  enumerate_containers settings daemon self_id own_project
  = others settings daemon self_id.
Proof.
  intros Hscope Hown Hin Hc.
  rewrite enumerate_containers_unfold, Hscope, Hown. cbv zeta. simpl.
  rewrite Hown. simpl. by rewrite (of_project_raises _ _ c).
Qed.

Lemma enumerate_containers_scope_given_up_witness :
  let settings := {| exclude_label := "docktor.ignore=true"; only_running := true;
                     attach_json := true; min_notify_severity := "LOW";
                     scan_scope := "COMPOSE" |} in
  let entry i labels :=
    {| Daemon.id := i;
       Daemon.container :=
         {| Docker.name := i;
            Docker.image := {| Docker.tags := []; Docker.id := "sha256:0" |};
            Docker.attrs := PDict [("Config", PDict [("Labels", labels)])] |} |} in
  let web := entry "1f3a" (PDict [("com.docker.compose.project", PStr "shop")]) in
  let blog := entry "77c0" (PDict [("com.docker.compose.project", PStr "blog")]) in
  let odd := entry "c2d9" (PList [PStr "com.docker.compose.project=shop"]) in
  enumerate_containers settings (λ _, [web; blog; odd]) "9be4" (PStr "shop")
  = [web; blog; odd].
Proof.
  intros settings entry web blog odd.
  rewrite (enumerate_containers_scope_given_up settings (λ _, [web; blog; odd])
             "9be4" (PStr "shop") odd).
  - reflexivity.
  - reflexivity.
  - reflexivity.
  - unfold others. apply list_elem_of_filter. split; [reflexivity|].
    simpl. rewrite !elem_of_cons. auto.
  - reflexivity.
Defined.

(** ** [scan_image] on any artifact *)

Section scan_any.
Variable image_ref : string.

Lemma scan_vuln_interrupted record st :
  well_formed record = false →
  ∃ st', scan_vuln image_ref record st = (None, st') ∧ interrupted st st'.
Proof.
  destruct record as [| | | | |d]; simpl;
    try (intros _; eexists; split; [reflexivity|];
         split; [done|]; split; [done|]; simpl; intros; lia).
  intros Hk%negb_false_iff.
  unfold scan_vuln, stamp, mbind, run_bind, Try.bind, Try.modify, Try.lift; simpl.
  rewrite Hk. eexists; split; [reflexivity|].
  split; [done|]. split; [done|]. simpl. intros k.
  rewrite get_or_set. case_decide; subst; lia.
Qed.

(** The inner loop: it stops at the first record that is not well formed. *)
Lemma for_each_scan_vuln records st :
  ∃ n, (n ≤ length records)%nat
       ∧ Forall (λ r, well_formed r = true) (take n records)
       ∧ match Try.for_each records (scan_vuln image_ref) st with
         | (Some _, st') =>
             n = length records ∧ st' = foldl (counted image_ref) st records
         | (None, st') =>
             (n < length records)%nat
             ∧ interrupted (foldl (counted image_ref) st (take n records)) st'
         end.
Proof.
  revert st. induction records as [|r records IH]; intros st.
  - exists 0%nat. by repeat split.
  - simpl. unfold Try.bind. destruct (well_formed r) eqn:Hr.
    + rewrite scan_vuln_well_formed by done.
      destruct (IH (counted image_ref st r)) as (n & Hn & Hwf & Hrun).
      exists (S n). split; [simpl; lia|]. split; [by constructor|].
      destruct (Try.for_each records _ _) as [[[]|] st']; simpl.
      * destruct Hrun as [-> ->]. done.
      * destruct Hrun as [? ?]. split; [lia | done].
    + destruct (scan_vuln_interrupted r st Hr) as (st' & -> & Hst').
      exists 0%nat. split; [lia|]. split; [constructor|]. split; [simpl; lia | done].
Qed.

Lemma scan_result_unfold result st :
  scan_result image_ref result st =
    match entry_iter result with
    | Some vulns => Try.for_each vulns (scan_vuln image_ref) st
    | None => (None, st)
    end.
Proof.
  unfold scan_result, entry_iter, mbind, run_bind, Try.bind, Try.lift, option_bind.
  destruct (as_dict result) as [r|]; [|done]. simpl.
  by destruct (Py.iter _).
Qed.

Lemma scan_data_unfold data st :
  scan_data image_ref data st =
    match data_iter data with
    | Some results => Try.for_each results (scan_result image_ref) st
    | None => (None, st)
    end.
Proof.
  unfold scan_data, data_iter, mbind, run_bind, Try.bind, Try.lift, option_bind.
  destruct (as_dict data) as [r|]; [|done]. simpl.
  by destruct (Py.iter _).
Qed.

(** The outer loop: the records processed to the end are an initial segment
    of all records. *)
Lemma for_each_scan_result results st :
  let records := results ≫= entry_records in
  let st' := (Try.for_each results (scan_result image_ref) st).2 in
  ∃ n, (n ≤ length records)%nat
       ∧ Forall (λ r, well_formed r = true) (take n records)
       ∧ (st' = foldl (counted image_ref) st (take n records)
          ∨ interrupted (foldl (counted image_ref) st (take n records)) st').
Proof.
  cbv zeta. revert st. induction results as [|result results IH]; intros st.
  - exists 0%nat. split; [done|]. split; [constructor|]. by left.
  - rewrite bind_cons. simpl. unfold Try.bind. rewrite scan_result_unfold.
    unfold entry_records at 1 3 5 7. destruct (entry_iter result) as [vulns|]; simpl.
    + destruct (for_each_scan_vuln vulns st) as (n & Hn & Hwf & Hrun).
      destruct (Try.for_each vulns _ _) as [[[]|] st1]; simpl.
      * destruct Hrun as [-> ->].
        destruct (IH (foldl (counted image_ref) st vulns)) as (m & Hm & Hwfm & Hst).
        exists (length vulns + m)%nat. rewrite take_app_add, foldl_app.
        split; [rewrite length_app; lia|]. split; [|done].
        apply Forall_app. split; [|done]. by rewrite firstn_all in Hwf.
      * destruct Hrun as [Hlt Hst]. exists n.
        rewrite take_app_le by lia.
        split; [rewrite length_app; lia|]. split; [done|]. by right.
    + exists 0%nat. split; [lia|]. split; [constructor|]. by left.
Qed.

Lemma for_each_scan_result_complete results st :
  Forall (λ result, is_Some (entry_iter result)) results →
  Forall (λ r, well_formed r = true) (results ≫= entry_records) →
  Try.for_each results (scan_result image_ref) st
  = (Some tt, foldl (counted image_ref) st (results ≫= entry_records)).
Proof.
  intros Hread. revert st. induction Hread as [|result results [vulns Hv] _ IH];
    intros st Hwf; [done|].
  rewrite bind_cons in Hwf |- *. apply Forall_app in Hwf as [Hwf1 Hwf2].
  simpl. unfold Try.bind. rewrite scan_result_unfold.
  unfold entry_records in Hwf1 |- * at 1. rewrite Hv in Hwf1 |- *. simpl in *.
  rewrite for_each_well_formed by done. by rewrite foldl_app, IH.
Qed.

Lemma scan_image_state path artifact :
  state_of (scan_image image_ref path artifact)
  = Try.except_pass (scan_data image_ref (default (PDict []) artifact)) scan_init.
Proof.
  unfold scan_image, state_of. simpl.
  by destruct (Try.except_pass _ _).
Qed.

(** The state that [scan_image] ends in, for any artifact. *)
Lemma scan_image_segment path artifact :
  let st' := state_of (scan_image image_ref path artifact) in
  ∃ n, (n ≤ length (records_of artifact))%nat
       ∧ Forall (λ r, well_formed r = true) (take n (records_of artifact))
       ∧ (st' = tallied image_ref (take n (records_of artifact))
          ∨ interrupted (tallied image_ref (take n (records_of artifact))) st').
Proof.
  cbv zeta. rewrite scan_image_state. unfold Try.except_pass, records_of, tallied.
  rewrite scan_data_unfold.
  destruct (data_iter _) as [results|]; simpl.
  - apply for_each_scan_result.
  - exists 0%nat. split; [done|]. split; [constructor|]. by left.
Qed.

Lemma tallied_vulnerabilities records :
  st_vulnerabilities (tallied image_ref records) = finding_of image_ref <$> records.
Proof. unfold tallied. by rewrite foldl_counted_vulnerabilities. Qed.

Lemma tallied_findings records :
  st_findings (tallied image_ref records) = Z.of_nat (length records).
Proof. unfold tallied. by rewrite foldl_counted_findings. Qed.

Lemma tallied_get k records :
  Py.get_or k 0 (st_sev_counts (tallied image_ref records)) = occurrences k records.
Proof. unfold tallied. by rewrite foldl_counted_get. Qed.

End scan_any.

(** X13: whatever the artifact holds, the findings that [scan_image] keeps
    are those of an initial segment of its records, taken across the
    entries of [Results] in the order of the document; [findings] and each
    tally are those of the segment or one more. *)
Theorem scan_image_keeps_initial_segment image_ref path artifact :
  let r := scan_image image_ref path artifact in
  ∃ n, (n ≤ length (records_of artifact))%nat
       ∧ Forall (λ record, well_formed record = true) (take n (records_of artifact))
       ∧ vulnerabilities r = finding_of image_ref <$> take n (records_of artifact)
       ∧ Z.of_nat n ≤ findings r ≤ Z.of_nat n + 1
       ∧ ∀ k, occurrences k (take n (records_of artifact))
              ≤ Py.get_or k 0 (sev_counts r)
              ≤ occurrences k (take n (records_of artifact)) + 1.
Proof.
  cbv zeta. destruct (scan_image_segment image_ref path artifact) as (n & Hn & Hwf & Hst).
  exists n. split; [done|]. split; [done|].
  pose proof (tallied_vulnerabilities image_ref (take n (records_of artifact))) as Hv.
  pose proof (tallied_findings image_ref (take n (records_of artifact))) as Hf.
  pose proof (tallied_get image_ref) as Hg.
  rewrite length_take_le in Hf by done.
  unfold state_of in Hst. destruct Hst as [Hst|(H1 & H2 & H3)].
  - rewrite <-Hst in Hv, Hf. cbn [st_findings st_vulnerabilities] in Hv, Hf.
    split; [done|]. split; [lia|].
    intros k. specialize (Hg k (take n (records_of artifact))).
    rewrite <-Hst in Hg. cbn [st_sev_counts] in Hg. lia.
  - cbn [st_findings st_vulnerabilities st_sev_counts] in H1, H2, H3.
    split; [by rewrite H1|]. split; [lia|].
    intros k. specialize (H3 k). rewrite Hg in H3. done.
Qed.

(** X14: when every part of the artifact can be read and every record is
    well formed, [scan_image] tallies the records of all entries of
    [Results] together: one finding per record in the order of the
    document, and each tally the number of records under that key. *)
Theorem scan_image_tallies_all_entries image_ref path artifact :
  readable artifact →
  Forall (λ record, well_formed record = true) (records_of artifact) →
  let r := scan_image image_ref path artifact in
  vulnerabilities r = finding_of image_ref <$> records_of artifact
  ∧ findings r = Z.of_nat (length (records_of artifact))
  ∧ ∀ k, Py.get_or k 0 (sev_counts r) = occurrences k (records_of artifact).
Proof.
  intros (results & Hdata & Hread) Hwf. cbv zeta.
  assert (state_of (scan_image image_ref path artifact)
          = tallied image_ref (records_of artifact)) as Hst.
  { rewrite scan_image_state. unfold Try.except_pass, records_of, tallied in *.
    rewrite scan_data_unfold, Hdata in *. simpl in *.
    by rewrite for_each_scan_result_complete. }
  unfold state_of in Hst.
  pose proof (tallied_vulnerabilities image_ref (records_of artifact)) as Hv.
  pose proof (tallied_findings image_ref (records_of artifact)) as Hf.
  pose proof (tallied_get image_ref) as Hg.
  rewrite <-Hst in Hv, Hf. cbn [st_findings st_vulnerabilities] in Hv, Hf.
  split; [done|]. split; [done|].
  intros k. specialize (Hg k (records_of artifact)). by rewrite <-Hst in Hg.
Qed.

Lemma scan_image_tallies_all_entries_witness :
  let os := PDict [("Target", PStr "nginx:1.25 (debian 12.4)");
                   ("Vulnerabilities",
                    PList [PDict [("VulnerabilityID", PStr "CVE-2024-0001");
                                  ("Severity", PStr "HIGH")]])] in
  let clean := PDict [("Target", PStr "usr/bin/app")] in
  let null := PDict [("Target", PStr "Java"); ("Vulnerabilities", PNone)] in
  let libs := PDict [("Target", PStr "Node.js");
                     ("Vulnerabilities",
                      PList [PDict [("VulnerabilityID", PStr "CVE-2024-0002");
                                    ("Severity", PStr "low")];
                             PDict [("VulnerabilityID", PStr "CVE-2024-0003");
                                    ("Severity", PStr "High")]])] in
  let r := scan_image "nginx:1.25" "/tmp/trivy_x.json"
             (Some (PDict [("SchemaVersion", PInt 2);
                           ("Results", PList [os; clean; null; libs])])) in
  findings r = 3 ∧ Py.get_or "HIGH" 0 (sev_counts r) = 2.
Proof.
  intros os clean null libs r.
  destruct (scan_image_tallies_all_entries "nginx:1.25" "/tmp/trivy_x.json"
              (Some (PDict [("SchemaVersion", PInt 2);
                            ("Results", PList [os; clean; null; libs])])))
    as (_ & Hf & Hg).
  - eexists. split; [reflexivity|]. repeat constructor; eexists; reflexivity.
  - vm_compute. repeat constructor.
  - split; [exact Hf | exact (Hg "HIGH")].
Defined.

(** ** The order of the findings in an image report *)

Lemma attachment_sort_key_typed v : typed v → attachment_sort_key v = Some (order_key v).
Proof.
  intros Hv. unfold attachment_sort_key, order_key, level.
  by rewrite (typed_severity v Hv).
Qed.

Lemma ordered_vulns_typed r :
  Forall typed (vulnerabilities r) → ordered_vulns r = Some (ordered_typed r).
Proof.
  intros Hty. unfold ordered_vulns, ordered_typed.
  assert (mapM (λ v, k ← attachment_sort_key v; Some (k, v)) (vulnerabilities r)
          = Some ((λ v, (order_key v, v)) <$> vulnerabilities r)) as ->; [|done].
  apply mapM_Some. apply Forall2_fmap_r. apply Forall_Forall2_diag.
  eapply Forall_impl; [exact Hty|]. intros v Hv.
  by rewrite (attachment_sort_key_typed v Hv).
Qed.

Lemma insert_by_key_front {A} (x : Z * A) l :
  Forall (λ y, x.1 ≤ y.1) l → insert_by_key x l = x :: l.
Proof.
  destruct 1 as [|y l Hy _]; [done|]. simpl.
  by rewrite bool_decide_eq_false_2 by lia.
Qed.

Lemma insert_by_key_past {A} (x : Z * A) l1 l2 :
  Forall (λ y, y.1 < x.1) l1 → insert_by_key x (l1 ++ l2) = l1 ++ insert_by_key x l2.
Proof.
  induction 1 as [|y l1 Hy _ IH]; [done|]. simpl.
  by rewrite bool_decide_eq_true_2, IH by done.
Qed.

(** A stable sort by key lists, key after key, the elements of the key in
    their given order. *)
Lemma insert_by_key_segments {A} (x : Z * A) (ks : list Z) (l : list (Z * A)) :
  StronglySorted Z.lt ks → x.1 ∈ ks →
  insert_by_key x (k ← ks; filter (λ e, e.1 = k) l)
  = (k ← ks; filter (λ e, e.1 = k) (x :: l)).
Proof.
  induction 1 as [|k ks Hks IH Hk]; intros Hin; [by apply elem_of_nil in Hin|].
  rewrite !bind_cons, filter_cons.
  assert (Hrest : x.1 ∉ ks →
            (k' ← ks; filter (λ e, e.1 = k') (x :: l)) = (k' ← ks; filter (λ e, e.1 = k') l)).
  { clear. induction ks as [|k' ks IH]; intros Hx; [done|].
    apply not_elem_of_cons in Hx as [Hne Hx].
    by rewrite !bind_cons, filter_cons, decide_False, IH. }
  case_decide as Hx.
  - rewrite Hrest.
    + rewrite insert_by_key_front; [done|]. apply Forall_app. split.
      * apply Forall_forall. intros y [Hy _]%list_elem_of_filter. lia.
      * apply Forall_forall. intros y (k' & [Hy _]%list_elem_of_filter & Hk')%list_elem_of_bind.
        rewrite Forall_forall in Hk. specialize (Hk k' Hk'). lia.
    + intros Hx'. rewrite Forall_forall in Hk. specialize (Hk _ Hx'). lia.
  - apply elem_of_cons in Hin as [Heq|Hin]; [done|].
    rewrite insert_by_key_past, IH; [done..|].
    apply Forall_forall. intros y [Hy _]%list_elem_of_filter.
    rewrite Forall_forall in Hk. specialize (Hk _ Hin). lia.
Qed.

Lemma foldr_insert_segments {A} (ks : list Z) (l : list (Z * A)) :
  StronglySorted Z.lt ks → Forall (λ e, e.1 ∈ ks) l →
  foldr insert_by_key [] l = (k ← ks; filter (λ e, e.1 = k) l).
Proof.
  intros Hks. induction 1 as [|x l Hx _ IH]; simpl.
  - clear. induction ks as [|k ks IH]; [done|]. by rewrite bind_cons, <-IH.
  - by rewrite IH, insert_by_key_segments.
Qed.

Lemma order_key_level v :
  ((level v ∉ SEVERITY_ORDER) ∧ order_key v = -5)
  ∨ ((level v ∈ SEVERITY_ORDER) ∧ order_key v = - rank (level v)).
Proof.
  unfold order_key, rank, level. rewrite upper_idem.
  generalize (Py.upper (severity_text v)). intros s.
  unfold SEVERITY_ORDER, Py.get_or. simpl.
  repeat match goal with
         | |- context [decide (?a = s)] =>
             destruct (decide (a = s)) as [<-|?];
             [right; split; [repeat constructor | done]|]
         end.
  left. split; [|done].
  rewrite !not_elem_of_cons. repeat split; try done. apply not_elem_of_nil.
Qed.

Lemma filter_order_key (k : Z) (P : Vulnerability → Prop) `{∀ v, Decision (P v)}
    (vulns : list Vulnerability) :
  (∀ v, order_key v = k ↔ P v) →
  (filter (λ e : Z * Vulnerability, e.1 = k) ((λ v, (order_key v, v)) <$> vulns)).*2
  = filter P vulns.
Proof.
  intros Hiff. induction vulns as [|v vulns IH]; [done|].
  rewrite fmap_cons, !filter_cons. simpl.
  destruct (decide (order_key v = k)) as [Hk|Hk], (decide (P v)) as [Hp|Hp];
    rewrite ?fmap_cons, IH; try done.
  - by apply Hiff in Hk.
  - by apply Hiff in Hp.
Qed.

(** X15: in the report of an image whose findings are typed, the findings
    of a severity outside the canonical levels come first, then those of
    [CRITICAL], [HIGH], [MEDIUM], [LOW] and [UNKNOWN]; within each part the
    findings keep the order of the scan. *)
Theorem ordered_vulns_by_level r :
  Forall typed (vulnerabilities r) →
  ordered_vulns r
  = Some (filter (λ v, level v ∉ SEVERITY_ORDER) (vulnerabilities r)
          ++ (sev ← rev_severity_order; filter (λ v, level v = sev) (vulnerabilities r))).
Proof.
  intros Hty. rewrite ordered_vulns_typed by done. f_equal.
  unfold ordered_typed, sorted_by_key.
  rewrite (foldr_insert_segments [-5; -4; -3; -2; -1; 0]).
  - assert (Hkey : ∀ v sev, sev ∈ SEVERITY_ORDER →
                     (order_key v = - rank sev ↔ level v = sev)).
    { intros v sev Hsev. pose proof (rank_range (level v)).
      destruct (order_key_level v) as [[Hout ->]|[Hin ->]].
      - split; [pose proof (rank_range sev); lia | by intros <-].
      - split; [|by intros ->]. intros Heq. unfold SEVERITY_ORDER in *.
        repeat (apply elem_of_cons in Hin as [Hin|Hin];
                [rewrite Hin in Heq |- *;
                 repeat (apply elem_of_cons in Hsev as [->|Hsev]; [done|]);
                 by apply elem_of_nil in Hsev|]).
        by apply elem_of_nil in Hin. }
    cbn [mbind list_bind]. rewrite !fmap_app, fmap_nil, app_nil_r.
    rewrite (filter_order_key (-5) (λ v, level v ∉ SEVERITY_ORDER)).
    2:{ intros v. pose proof (rank_range (level v)).
        destruct (order_key_level v) as [[Hout ->]|[Hin ->]]; [done|].
        split; [lia | done]. }
    change rev_severity_order with ["CRITICAL"; "HIGH"; "MEDIUM"; "LOW"; "UNKNOWN"].
    cbn [mbind list_bind]. rewrite app_nil_r.
    rewrite (filter_order_key (-4) (λ v, level v = "CRITICAL"))
      by (intros v; apply (Hkey v "CRITICAL"); repeat constructor).
    rewrite (filter_order_key (-3) (λ v, level v = "HIGH"))
      by (intros v; apply (Hkey v "HIGH"); repeat constructor).
    rewrite (filter_order_key (-2) (λ v, level v = "MEDIUM"))
      by (intros v; apply (Hkey v "MEDIUM"); repeat constructor).
    rewrite (filter_order_key (-1) (λ v, level v = "LOW"))
      by (intros v; apply (Hkey v "LOW"); repeat constructor).
    rewrite (filter_order_key 0 (λ v, level v = "UNKNOWN"))
      by (intros v; apply (Hkey v "UNKNOWN"); repeat constructor).
    done.
  - repeat (constructor; [|repeat (constructor; [lia|]); constructor]). constructor.
  - apply Forall_fmap, Forall_forall. intros v _. simpl.
    pose proof (rank_range (level v)).
    destruct (order_key_level v) as [[_ ->]|[_ ->]]; [repeat constructor|].
    assert (rank (level v) = 0 ∨ rank (level v) = 1 ∨ rank (level v) = 2
            ∨ rank (level v) = 3 ∨ rank (level v) = 4) as Hr by lia.
    destruct Hr as [-> | [-> | [-> | [-> | ->]]]]; repeat constructor.
Qed.

Lemma ordered_vulns_by_level_witness :
  let finding i sev : Vulnerability :=
    [("image", PStr "nginx:1.25"); ("VulnerabilityID", PStr i); ("Severity", PStr sev)] in
  let r := {| image := "nginx:1.25"; findings := 5; sev_counts := [];
              json_path := "/tmp/trivy_x.json";
              vulnerabilities := [finding "CVE-1" "low"; finding "CVE-2" "negligible";
                                  finding "CVE-3" "CRITICAL"; finding "CVE-4" "LOW";
                                  finding "CVE-5" "High"];
              containers := ["web"] |} in
  ordered_vulns r
  = Some [finding "CVE-2" "negligible"; finding "CVE-3" "CRITICAL"; finding "CVE-5" "High";
          finding "CVE-1" "low"; finding "CVE-4" "LOW"].
Proof.
  intros finding r. rewrite (ordered_vulns_by_level r).
  - reflexivity.
  - simpl. typed_findings.
Defined.

(** ** The whole run on artifacts with textual severities *)

Lemma finding_typed image_ref record :
  well_formed record = true → textual record = true → typed (finding_of image_ref record).
Proof.
  destruct record as [| | | | |d]; try done. unfold textual, finding_of, typed. simpl.
  intros _ Htext. split; [|right; by eexists].
  destruct (Py.get "Severity" d) as [[| | |s| |]|]; try done; [right; by eexists | by left].
Qed.

Lemma scan_image_typed image_ref path artifact :
  Forall (λ record, textual record = true) (records_of artifact) →
  Forall typed (vulnerabilities (scan_image image_ref path artifact)).
Proof.
  intros Htext.
  destruct (scan_image_segment image_ref path artifact) as (n & Hn & Hwf & Hst).
  assert (vulnerabilities (scan_image image_ref path artifact)
          = finding_of image_ref <$> take n (records_of artifact)) as ->.
  { pose proof (tallied_vulnerabilities image_ref (take n (records_of artifact))) as Hv.
    unfold state_of in Hst. destruct Hst as [Hst|(H1 & _)].
    - rewrite <-Hst in Hv. exact Hv.
    - cbn [st_vulnerabilities] in H1. by rewrite H1. }
  apply Forall_fmap, Forall_forall. intros record Hin.
  rewrite Forall_forall in Hwf. apply finding_typed; [by apply Hwf|].
  rewrite Forall_forall in Htext. apply Htext.
  eapply elem_of_sublist; [exact Hin | apply sublist_take].
Qed.

Lemma scan_all_typed settings trivy cs :
  (∀ ref, Forall (λ record, textual record = true) (records_of (trivy ref).2)) →
  all_typed (scan_all settings trivy cs).
Proof.
  intros Htext. rewrite scan_all_unfold. unfold all_typed.
  apply Forall_fmap, Forall_forall. intros ref _.
  exact (scan_image_typed ref (trivy ref).1 (trivy ref).2 (Htext ref)).
Qed.

Lemma attach_result_typed settings r st :
  Forall typed (vulnerabilities r) →
  attach_result settings r st
  = (Some tt, (st.1 ++ attachment_events settings r, st.2 ++ attachments_of settings r)).
Proof.
  intros Hty. unfold attach_result, mbind, run_bind, Try.bind, Try.lift, Try.modify.
  by rewrite (ordered_vulns_typed r Hty).
Qed.

Lemma build_attachments_typed settings results st :
  all_typed results →
  build_attachments settings results st
  = (Some tt, (st.1 ++ (results ≫= attachment_events settings),
               st.2 ++ (results ≫= attachments_of settings))).
Proof.
  unfold build_attachments. intros Hty. revert st.
  induction Hty as [|r results Hr _ IH]; intros st.
  - simpl. rewrite !app_nil_r. by destruct st.
  - cbn [Try.for_each]. unfold Try.bind. rewrite attach_result_typed by done.
    rewrite IH. cbn [fst snd]. by rewrite !bind_cons, !app_assoc.
Qed.

Lemma report_typed settings results :
  all_typed results → results ≠ [] →
  ∃ gate grouped,
    any_trigger (min_notify_severity settings) results = Some gate
    ∧ (gate = true ↔ some_finding_meets (min_notify_severity settings) results)
    ∧ group_vulns_by_image_and_severity settings results = Some grouped
    ∧ report settings results
      = if gate : bool
        then RenderReports results grouped (min_notify_severity settings)
             :: (results ≫= attachment_events settings)
             ++ [SendEmail (subject_of settings results)
                           (results ≫= attachments_of settings)]
        else [LogInfo ("No vulnerabilities meeting threshold "
                       +:+ min_notify_severity settings
                       +:+ " found; notification suppressed.")].
Proof.
  intros Hty Hne.
  destruct (any_trigger_typed (min_notify_severity settings) results Hty)
    as (gate & Hgate & Hiff).
  pose proof (report_of_typed_results settings results Hty) as Hgrouped.
  eexists gate, _. split; [done|]. split; [done|]. split; [exact Hgrouped|].
  unfold report. destruct results as [|r results]; [done|].
  rewrite Hgate. destruct gate; [|done].
  unfold render_reports, mbind at 1, run_bind, Try.bind, Try.lift, Try.modify.
  rewrite Hgrouped. unfold mbind at 1, run_bind, Try.bind. cbv beta iota.
  rewrite build_attachments_typed by done. done.
Qed.

(** X16: when the scanner reports every severity as text, none of the
    program's own steps raises. If some finding meets the threshold, the
    run renders the bodies, then renders and writes one report per image in
    the order of the results, and sends one e-mail that carries the
    attachments of the images in that order; otherwise it only logs. *)
Theorem main_on_textual_severities settings trivy cs :
  (∀ ref, Forall (λ record, textual record = true) (records_of (trivy ref).2)) →
  let results := scan_all settings trivy cs in
  let events := main settings trivy cs in
  (Uncaught ∉ events)
  ∧ (some_finding_meets (min_notify_severity settings) results →
     ∃ grouped,
       group_vulns_by_image_and_severity settings results = Some grouped
       ∧ events
         = RenderReports results grouped (min_notify_severity settings)
           :: (results ≫= attachment_events settings)
           ++ [SendEmail (subject_of settings results)
                         (results ≫= attachments_of settings)])
  ∧ (¬ some_finding_meets (min_notify_severity settings) results →
     Forall (λ e, is_log e = true) events ∧ length events = 1%nat).
Proof.
  intros Htext. cbv zeta. unfold main.
  pose proof (scan_all_typed settings trivy cs Htext) as Hty.
  destruct (scan_all settings trivy cs) as [|r results] eqn:Hres.
  - split; [|split].
    + simpl. rewrite elem_of_cons. intros [[=]|[]%elem_of_nil].
    + intros (r & v & []%elem_of_nil & _).
    + intros _. simpl. split; [by repeat constructor | done].
  - destruct (report_typed settings (r :: results) Hty) as (gate & grouped & _ & Hiff & Hg & ->);
      [done|].
    destruct gate.
    + split; [|split].
      * rewrite elem_of_cons, elem_of_app, elem_of_cons.
        intros [[=]|[Hin|[[=]|[]%elem_of_nil]]].
        apply list_elem_of_bind in Hin as (r' & Hin & _).
        unfold attachment_events in Hin.
        apply elem_of_cons in Hin as [[=]|Hin].
        apply elem_of_cons in Hin as [[=]|[]%elem_of_nil].
      * intros _. by exists grouped.
      * intros Hnot. destruct Hnot. by apply Hiff.
    + split; [|split].
      * rewrite elem_of_cons. intros [[=]|[]%elem_of_nil].
      * intros Hmeets. apply Hiff in Hmeets. done.
      * intros _. split; [by repeat constructor | done].
Qed.

Lemma main_on_textual_severities_witness :
  let settings := {| exclude_label := "docktor.ignore=true"; only_running := true;
                     attach_json := true; min_notify_severity := "HIGH";
                     scan_scope := "ALL" |} in
  let artifact :=
    PDict [("Results",
            PList [PDict [("Vulnerabilities",
                           PList [PDict [("VulnerabilityID", PStr "CVE-2024-0001");
                                         ("Severity", PStr "critical")];
                                  PDict [("VulnerabilityID", PStr "CVE-2024-0002")];
                                  PInt 7])]])] in
  let trivy := λ _ : string, ("/tmp/trivy_x.json", Some artifact) in
  let web := {| Docker.name := "web";
                Docker.image := {| Docker.tags := ["nginx:1.25"]; Docker.id := "sha256:0" |};
                Docker.attrs := PDict [] |} in
  Uncaught ∉ main settings trivy [web].
Proof.
  intros settings artifact trivy web.
  destruct (main_on_textual_severities settings trivy [web]) as [Hnot _].
  - intros ref. vm_compute. repeat constructor.
  - exact Hnot.
Defined.

(** ** Grouping keeps every finding that meets the threshold *)

Lemma bind_perm_ext {A B} (f g : A → list B) (l : list A) :
  (∀ x, x ∈ l → f x ≡ₚ g x) → l ≫= f ≡ₚ l ≫= g.
Proof.
  induction l as [|x l IH]; intros H; [done|].
  rewrite !bind_cons. f_equiv; [apply H; left | apply IH; intros y Hy; apply H; by right].
Qed.

Lemma filter_filed_under img sev (vulns : list Vulnerability) :
  filter (λ v, level v = sev) (filter (λ v, image_text v = img) vulns)
  = filter (filed_under img sev) vulns.
Proof.
  induction vulns as [|v vulns IH]; [done|].
  rewrite (filter_cons (filed_under img sev)), (filter_cons (λ v, image_text v = img)).
  destruct (decide (image_text v = img)) as [Hi|Hi];
    [rewrite filter_cons; destruct (decide (level v = sev)) as [Hs|Hs]|];
    destruct (decide (filed_under img sev v)) as [Hf|Hf]; rewrite IH; try done.
  - destruct Hf. by split.
  - destruct Hf as [_ Hf]. by destruct Hs.
  - destruct Hf as [Hf _]. by destruct Hi.
Qed.

Lemma expected_severities_items threshold results img :
  (b ← expected_severities threshold results img; items b)
  = (sev ← rev_severity_order; selected threshold results img sev).
Proof.
  unfold expected_severities. induction rev_severity_order as [|sev sevs IH]; [done|].
  rewrite bind_cons. cbn [omap list_omap].
  destruct (selected threshold results img sev) as [|x l] eqn:E.
  - by rewrite IH.
  - rewrite bind_cons. cbn [items]. by rewrite IH.
Qed.

Lemma passes_level threshold v :
  1 ≤ threshold_rank threshold → passes threshold v → level v ∈ rev_severity_order.
Proof.
  intros Hrank Hv. unfold passes in Hv.
  rewrite meets_threshold_ranks, bool_decide_eq_true in Hv.
  unfold rev_severity_order. apply elem_of_reverse.
  destruct (rank_unrecognized (severity_text v)) as [Hin|H0]; [done | lia].
Qed.

(** X17: for typed findings and a threshold of the rank of [LOW] or
    higher (the empty threshold included), the buckets of the grouped
    report, taken together, hold exactly the findings that meet the
    threshold: none is lost and none is listed twice. *)
Theorem grouping_keeps_every_finding settings results :
  all_typed results →
  1 ≤ threshold_rank (min_notify_severity settings) →
  ∃ report,
    group_vulns_by_image_and_severity settings results = Some report
    ∧ (g ← report; b ← severities g; items b)
      ≡ₚ filtered_vulns (min_notify_severity settings) results.
Proof.
  intros Hty Hrank. rewrite (report_of_typed_results settings results Hty).
  eexists. split; [reflexivity|].
  set (threshold := min_notify_severity settings) in *.
  rewrite list_fmap_bind. unfold compose. cbn [severities].
  transitivity (img ← expected_images threshold results;
                filter (λ v, image_text v = img) (filtered_vulns threshold results)).
  - apply bind_perm_ext. intros img _. rewrite expected_severities_items.
    unfold selected.
    etrans; [|apply (partition_by_key level rev_severity_order
                       (filter (λ v, image_text v = img) (filtered_vulns threshold results)))].
    + apply bind_perm_ext. intros sev _. by rewrite filter_filed_under.
    + by apply (bool_decide_unpack _).
    + intros v [_ Hv]%list_elem_of_filter. unfold filtered_vulns in Hv.
      apply list_elem_of_filter in Hv as [Hv _]. by eapply passes_level.
  - apply partition_by_key.
    + apply first_occurrences_NoDup.
    + intros v Hv. apply expected_images_elem. right. by apply list_elem_of_fmap_2.
Qed.

Lemma grouping_keeps_every_finding_witness :
  let settings := {| exclude_label := "docktor.ignore=true"; only_running := true;
                     attach_json := true; min_notify_severity := "MEDIUM";
                     scan_scope := "ALL" |} in
  let finding img sev : Vulnerability := [("image", PStr img); ("Severity", PStr sev)] in
  let result img vulns :=
    {| image := img; findings := Z.of_nat (length vulns); sev_counts := [];
       json_path := "/tmp/trivy_x.json"; vulnerabilities := vulns; containers := [] |} in
  let results := [result "alpine:3" [finding "alpine:3" "LOW"; finding "alpine:3" "high"];
                  result "nginx:1.25" [finding "nginx:1.25" "medium";
                                       finding "nginx:1.25" "CRITICAL";
                                       finding "nginx:1.25" "negligible"]] in
  ∃ report,
    group_vulns_by_image_and_severity settings results = Some report
    ∧ (g ← report; b ← severities g; items b)
      ≡ₚ [finding "alpine:3" "high"; finding "nginx:1.25" "medium";
          finding "nginx:1.25" "CRITICAL"].
Proof.
  intros settings finding result results.
  apply (grouping_keeps_every_finding settings results).
  - unfold all_typed, results, result. simpl.
    constructor; [simpl; typed_findings|]. constructor; [simpl; typed_findings|]. constructor.
  - vm_compute. discriminate.
Defined.

(** ** The names of the attachments *)

Lemma contains_app c a b :
  Py.contains c (a +:+ b) = Py.contains c a || Py.contains c b.
Proof.
  unfold Py.contains. induction a as [|x a IH]; [done|].
  simpl. by rewrite IH, orb_assoc.
Qed.

Lemma contains_replace_old old new s :
  old ≠ new → Py.contains old (Py.replace old new s) = false.
Proof.
  intros Hne. unfold Py.contains. induction s as [|x s IH]; [done|].
  simpl. rewrite IH, orb_false_r.
  destruct (Ascii.eqb_spec x old) as [->|Hx].
  - by apply Ascii.eqb_neq.
  - apply Ascii.eqb_neq. by intros ->.
Qed.

Lemma contains_replace_other c old new s :
  c ≠ new → Py.contains c s = false → Py.contains c (Py.replace old new s) = false.
Proof.
  intros Hne. unfold Py.contains. induction s as [|x s IH]; [done|].
  simpl. intros [Hx Hs]%orb_false_iff. rewrite IH, orb_false_r by done.
  destruct (Ascii.eqb x old); [by apply Ascii.eqb_neq | done].
Qed.

Lemma image_safe_flat image :
  Py.contains "/" (image_safe image) = false ∧ Py.contains ":" (image_safe image) = false.
Proof.
  unfold image_safe. split.
  - apply contains_replace_other; [done|]. by apply contains_replace_old.
  - by apply contains_replace_old.
Qed.

Lemma attach_result_cases settings r st :
  attach_result settings r st = (None, st)
  ∨ ∃ events, attach_result settings r st
              = (Some tt, (st.1 ++ events, st.2 ++ attachments_of settings r)).
Proof.
  unfold attach_result, mbind, run_bind, Try.bind, Try.lift, Try.modify.
  destruct (ordered_vulns r) as [vulns|]; [|by left].
  right. by eexists.
Qed.

(** The attachments are those of an initial segment of the results. *)
Lemma build_attachments_segment settings results st :
  ∃ n, (build_attachments settings results st).2.2
       = st.2 ++ (take n results ≫= attachments_of settings).
Proof.
  unfold build_attachments. revert st. induction results as [|r results IH]; intros st.
  - exists 0%nat. simpl. by rewrite app_nil_r.
  - cbn [Try.for_each]. unfold Try.bind.
    destruct (attach_result_cases settings r st) as [->|(events & ->)].
    + exists 0%nat. simpl. by rewrite app_nil_r.
    + destruct (IH (st.1 ++ events, st.2 ++ attachments_of settings r)) as (n & ->).
      exists (S n). cbn [snd take]. by rewrite bind_cons, app_assoc.
Qed.

(** *** Paths *)

Lemma split_nonempty sep s : Py.split sep s ≠ [].
Proof.
  induction s as [|c s IH]; simpl; [done|].
  destruct (Ascii.eqb c sep); [done|]. by destruct (Py.split sep s).
Qed.

Lemma split_app sep a b :
  Py.split sep (a +:+ String sep b) = Py.split sep a ++ Py.split sep b.
Proof.
  induction a as [|c a IH]; simpl.
  - by rewrite Ascii.eqb_refl.
  - destruct (Ascii.eqb c sep); [by rewrite IH|]. rewrite IH.
    pose proof (split_nonempty sep a). by destruct (Py.split sep a).
Qed.

Lemma split_without sep s : Py.contains sep s = false → Py.split sep s = [s].
Proof.
  unfold Py.contains. induction s as [|c s IH]; [done|]. simpl.
  intros [Hc Hs]%orb_false_iff. rewrite Ascii.eqb_sym, Hc. by rewrite IH.
Qed.

(** A path with a slash is its [parent], a slash, and a name without
    slash. *)
Lemma parent_name path :
  match parent_chars (list_ascii_of_string path) with
  | Some pre =>
      ∃ name, path = string_of_list_ascii pre +:+ String "/" name
              ∧ Py.contains "/" name = false
  | None => Py.contains "/" path = false
  end.
Proof.
  induction path as [|c path IH]; [done|]. simpl.
  destruct (parent_chars (list_ascii_of_string path)) as [pre|].
  - destruct IH as (name & -> & Hname). by exists name.
  - destruct (Ascii.eqb_spec c "/") as [->|Hc].
    + by exists path.
    + unfold Py.contains in *. cbn [list_ascii_of_string existsb].
      rewrite IH, orb_false_r. apply Ascii.eqb_neq. by intros <-.
Qed.

Lemma parent_joined dir name :
  Py.contains "/" name = false → parent (dir +:+ String "/" name) = dir.
Proof.
  intros Hname. unfold parent.
  assert (parent_chars (list_ascii_of_string (dir +:+ String "/" name))
          = Some (list_ascii_of_string dir)) as ->.
  { induction dir as [|c dir IH]; simpl.
    - pose proof (parent_name name) as Hn.
      destruct (parent_chars (list_ascii_of_string name)) as [pre|]; [|done].
      destruct Hn as (name' & -> & _). exfalso. revert Hname. clear.
      unfold Py.contains. rewrite <-(string_of_list_ascii_of_string (_ +:+ _)).
      rewrite list_ascii_of_string_of_list_ascii.
      induction pre as [|x pre IH]; simpl; [done|].
      intros [_ H]%orb_false_iff. by apply IH.
    - by rewrite IH. }
  apply string_of_list_ascii_of_string.
Qed.

Lemma rooted_joined path name :
  rooted path = true →
  Py.contains "/" name = false → component name = true →
  rooted (parent path +:+ String "/" name) = true.
Proof.
  unfold rooted at 1. intros Hpath Hname Hcomp.
  pose proof (parent_name path) as Hp. unfold parent.
  destruct (parent_chars (list_ascii_of_string path)) as [pre|]; simpl.
  - destruct Hp as (name' & -> & Hname').
    rewrite split_app, (split_without "/" name') in Hpath by done.
    unfold rooted. rewrite split_app, (split_without "/" name) by done.
    destruct (Py.split "/" (string_of_list_ascii pre)) as [|x l]; cbn [app] in *;
      [by destruct name'|].
    destruct x; [|done]. destruct l as [|c cs].
    + cbn [app forallb]. by rewrite Hcomp.
    + cbn [app forallb] in *. apply andb_true_iff in Hpath as [Hc Hcs].
      rewrite Hc. cbn [andb]. rewrite forallb_app in Hcs |- *.
      apply andb_true_iff in Hcs as [Hcs _]. rewrite Hcs. cbn [forallb andb].
      by rewrite Hcomp.
  - rewrite split_without in Hpath by done. by destruct path.
Qed.

(** X18: for artifacts at absolute, normalised paths, as [tempfile.mkstemp]
    returns them, the file name of an attachment that [build_attachments]
    adds holds neither a slash nor a colon, whatever the image reference
    is; the file is the artifact of one of the results, or the report of
    one, at an absolute path directly in the directory of its artifact. *)
Theorem build_attachments_flat_names settings results :
  Forall (λ r, rooted (json_path r) = true) results →
  Forall (λ a : Attachment,
            Py.contains "/" a.1.1 = false
            ∧ Py.contains ":" a.1.1 = false
            ∧ rooted a.1.2 = true
            ∧ ∃ r, r ∈ results
                   ∧ (a.1.2 = json_path r
                      ∨ (a.1.2 = parent (json_path r) +:+ "/" +:+ a.1.1
                         ∧ parent a.1.2 = parent (json_path r))))
         (build_attachments settings results ([], [])).2.2.
Proof.
  intros Hrooted.
  destruct (build_attachments_segment settings results ([], [])) as (n & ->).
  cbn [snd app]. apply Forall_forall. intros a (r & Ha & Hr)%list_elem_of_bind.
  assert (r ∈ results) as Hin by (eapply elem_of_sublist; [exact Hr | apply sublist_take]).
  rewrite Forall_forall in Hrooted. specialize (Hrooted r Hin).
  destruct (image_safe_flat (image r)) as [Hslash Hcolon].
  assert (Py.contains "/" (report_name r) = false) as Hname
    by (unfold report_name; by rewrite !contains_app, Hslash).
  unfold attachments_of in Ha. apply elem_of_app in Ha as [Ha|Ha].
  - apply list_elem_of_singleton in Ha as ->. cbn [fst snd].
    split; [done|]. split; [unfold report_name; by rewrite !contains_app, Hcolon|].
    split; [by apply (rooted_joined (json_path r) (report_name r))|].
    exists r. split; [done|]. right. split; [done|].
    by apply (parent_joined (parent (json_path r)) (report_name r)).
  - destruct (attach_json settings); [|by apply elem_of_nil in Ha].
    apply list_elem_of_singleton in Ha as ->. cbn [fst snd].
    rewrite !contains_app, Hslash, Hcolon. split; [done|]. split; [done|].
    split; [done|]. exists r. split; [done|]. by left.
Qed.

Lemma build_attachments_flat_names_witness :
  let settings := {| exclude_label := "docktor.ignore=true"; only_running := true;
                     attach_json := true; min_notify_severity := "LOW";
                     scan_scope := "ALL" |} in
  let r := {| image := "registry.example.com:5000/library/nginx:1.25"; findings := 1;
              sev_counts := [("HIGH", 1)]; json_path := "/tmp/trivy_k3v9.json";
              vulnerabilities := [[("image", PStr "nginx:1.25"); ("Severity", PStr "HIGH")]];
              containers := ["web"] |} in
  Forall (λ a : Attachment, Py.contains "/" a.1.1 = false ∧ rooted a.1.2 = true)
         (build_attachments settings [r] ([], [])).2.2
  ∧ length (build_attachments settings [r] ([], [])).2.2 = 2%nat.
Proof.
  intros settings r. split; [|reflexivity].
  eapply Forall_impl.
  - apply (build_attachments_flat_names settings [r]).
    constructor; [reflexivity | constructor].
  - intros a (Hname & _ & Hpath & _). by split.
Defined.

(** ** A severity that is not text *)

Lemma ordered_vulns_raises r v :
  v ∈ vulnerabilities r → as_str (severity_of v) = None → ordered_vulns r = None.
Proof.
  intros Hin Hv. unfold ordered_vulns.
  rewrite (mapM_None_2 _ (vulnerabilities r)); [done|].
  apply Exists_exists. exists v. split; [done|].
  unfold attachment_sort_key. by rewrite Hv.
Qed.

Lemma build_attachments_raises settings results r st :
  r ∈ results → ordered_vulns r = None →
  Forall (λ e, is_send e = false) st.1 →
  ∃ st', build_attachments settings results st = (None, st')
         ∧ Forall (λ e, is_send e = false) st'.1.
Proof.
  unfold build_attachments. intros Hin Hr. revert st.
  induction results as [|r' results IH]; intros st Hst; [by apply elem_of_nil in Hin|].
  cbn [Try.for_each]. unfold Try.bind.
  unfold attach_result at 1, mbind, run_bind, Try.bind, Try.lift, Try.modify.
  destruct (ordered_vulns r') as [vulns|] eqn:Hr'; [|by exists st].
  apply elem_of_cons in Hin as [->|Hin]; [congruence|].
  apply IH; [done|]. cbn [fst]. apply Forall_app. split; [done|]. by repeat constructor.
Qed.

Lemma reports_raise settings results r :
  r ∈ results → ordered_vulns r = None →
  ∃ events atts,
    (render_reports settings results;; build_attachments settings results) ([], [])
    = (None, (events, atts))
    ∧ Forall (λ e, is_send e = false) events.
Proof.
  intros Hr Hord.
  unfold render_reports, mbind at 1, run_bind, Try.bind, Try.lift, Try.modify.
  destruct (group_vulns_by_image_and_severity settings results) as [grouped|].
  - unfold mbind at 1, run_bind, Try.bind. cbv beta iota. cbn [fst snd app].
    destruct (build_attachments_raises settings results r
                ([RenderReports results grouped (min_notify_severity settings)], [])
                Hr Hord)
      as ([events atts] & -> & Hev); [by repeat constructor|].
    by exists events, atts.
  - cbv beta iota. by exists [], [].
Qed.

(** X19: when some finding of some result has a severity that is not text
    (a number, or the JSON null), no e-mail is sent: the run either logs
    that nothing meets the threshold, or ends in an uncaught exception,
    at the latest when the findings of that image are ordered for its
    report. *)
Theorem no_email_with_untyped_severity settings results r v :
  r ∈ results → v ∈ vulnerabilities r → as_str (severity_of v) = None →
  Forall (λ e, is_send e = false) (report settings results)
  ∧ (last (report settings results) = Some Uncaught
     ∨ any_trigger (min_notify_severity settings) results = Some false).
Proof.
  intros Hr Hv Hsev. pose proof (ordered_vulns_raises r v Hv Hsev) as Hord.
  destruct (reports_raise settings results r Hr Hord) as (events & atts & Hrun & Hev).
  unfold report. destruct results as [|r0 results]; [by apply elem_of_nil in Hr|].
  rewrite Hrun.
  destruct (any_trigger _ _) as [[]|].
  - split; [|left; apply last_snoc].
    apply Forall_app. split; [done | by repeat constructor].
  - split; [by repeat constructor | by right].
  - split; [by repeat constructor | by left].
Qed.

Lemma no_email_with_untyped_severity_witness :
  let settings := {| exclude_label := "docktor.ignore=true"; only_running := true;
                     attach_json := true; min_notify_severity := "HIGH";
                     scan_scope := "ALL" |} in
  let critical := [("image", PStr "nginx:1.25"); ("Severity", PStr "CRITICAL")] in
  let null := [("image", PStr "nginx:1.25"); ("Severity", PNone)] in
  let r := {| image := "nginx:1.25"; findings := 2;
              sev_counts := [("CRITICAL", 1); ("NONE", 1)];
              json_path := "/tmp/trivy_x.json";
              vulnerabilities := [critical; null]; containers := ["web"] |} in
  last (report settings [r]) = Some Uncaught.
Proof.
  intros settings critical null r.
  destruct (no_email_with_untyped_severity settings [r] r null) as [_ [Hlast|Hgate]].
  - apply list_elem_of_singleton. reflexivity.
  - simpl. apply elem_of_cons. right. apply list_elem_of_singleton. reflexivity.
  - reflexivity.
  - exact Hlast.
  - vm_compute in Hgate. discriminate.
Defined.

(** ** The MIME types of the attachments *)

Lemma split_once_without sep s :
  Py.contains sep s = false → split_once sep s = [s].
Proof.
  unfold Py.contains. induction s as [|c s IH]; [done|]. simpl.
  intros [Hc Hs]%orb_false_iff. rewrite Ascii.eqb_sym, Hc. by rewrite IH.
Qed.

(** X20: the MIME type of every attachment that [build_attachments] adds
    splits into its two parts, [text/markdown] or [application/json],
    without a guess from the file name. A type that is given and has no
    slash cannot be unpacked: attaching raises. *)
Theorem build_attachments_mime settings results guess :
  Forall (λ a, mime_parts guess a = Some ("text", "markdown")
               ∨ mime_parts guess a = Some ("application", "json"))
         (build_attachments settings results ([], [])).2.2
  ∧ ∀ filename path mime,
      mime ≠ "" → Py.contains "/" mime = false →
      mime_parts guess (filename, path, mime) = None.
Proof.
  split.
  - destruct (build_attachments_segment settings results ([], [])) as (n & ->).
    cbn [snd app]. apply Forall_forall. intros a (r & Ha & _)%list_elem_of_bind.
    unfold attachments_of in Ha. apply elem_of_app in Ha as [Ha|Ha].
    + apply list_elem_of_singleton in Ha as ->. by left.
    + destruct (attach_json settings); [|by apply elem_of_nil in Ha].
      apply list_elem_of_singleton in Ha as ->. by right.
  - intros filename path mime Hne Hslash. unfold mime_parts.
    rewrite truthy_str, bool_decide_eq_true_2 by done.
    by rewrite split_once_without.
Qed.

(** ** The scope [COMPOSE] without a project *)

Lemma find_project_none containers :
  Forall (λ c, ∃ service, service_of c = Some service
                          ∧ py_eqb service (PStr "dock-tor") = false) containers →
  find_project containers = Some PNone.
Proof.
  induction 1 as [|c containers (service & Hs & Hne) _ IH]; [done|].
  simpl. unfold service_of in Hs.
  destruct (labels_of (Daemon.container c)) as [labels|]; [|done]. simpl in *.
  rewrite Hs. simpl. by rewrite Hne.
Qed.

(** X21: in the scope [COMPOSE], when the lookup of this container gives
    no project and none of the other containers is of the service
    [dock-tor], the scope is not applied: all other containers are
    returned. *)
Theorem enumerate_containers_without_project settings daemon self_id own_project :
  scan_scope settings = "COMPOSE" →
  Py.truthy own_project = false →
  Forall (λ c, ∃ service, service_of c = Some service
                          ∧ py_eqb service (PStr "dock-tor") = false)
         (others settings daemon self_id) →
  enumerate_containers settings daemon self_id own_project
  = others settings daemon self_id.
Proof.
  intros Hscope Hown Hnone.
  rewrite enumerate_containers_unfold, Hscope, Hown. cbv zeta. simpl.
  by rewrite find_project_none.
Qed.

Lemma enumerate_containers_without_project_witness :
  let settings := {| exclude_label := "docktor.ignore=true"; only_running := true;
                     attach_json := true; min_notify_severity := "LOW";
                     scan_scope := "COMPOSE" |} in
  let entry i labels :=
    {| Daemon.id := i;
       Daemon.container :=
         {| Docker.name := i;
            Docker.image := {| Docker.tags := []; Docker.id := "sha256:0" |};
            Docker.attrs := PDict [("Config", PDict [("Labels", PDict labels)])] |} |} in
  let web := entry "1f3a" [("com.docker.compose.project", PStr "shop");
                           ("com.docker.compose.service", PStr "web")] in
  let blog := entry "77c0" [("com.docker.compose.project", PStr "blog")] in
  let this := entry "9be4" [("com.docker.compose.project", PStr "shop");
                            ("com.docker.compose.service", PStr "dock-tor")] in
  enumerate_containers settings (λ _, [web; blog; this]) "9be4" PNone = [web; blog].
Proof.
  intros settings entry web blog this.
  rewrite (enumerate_containers_without_project settings (λ _, [web; blog; this])
             "9be4" PNone).
  - reflexivity.
  - reflexivity.
  - reflexivity.
  - vm_compute. repeat constructor; eexists; split; reflexivity.
Defined.

(** ** Nothing to scan *)

(** X22: [scan_all] returns no result exactly when every container is
    excluded (or there is none); [main] then only logs that there are no
    containers to scan. When a container is kept, its image is among the
    results. *)
Theorem scan_all_empty settings trivy cs :
  (scan_all settings trivy cs = [] ↔ kept settings cs = [])
  ∧ (kept settings cs = [] → main settings trivy cs = [LogInfo "No containers to scan."])
  ∧ (∀ c, c ∈ kept settings cs → image_ref_of c ∈ image <$> scan_all settings trivy cs).
Proof.
  assert (Himg : image <$> scan_all settings trivy cs
                 = sorted_set (image_ref_of <$> kept settings cs)).
  { rewrite scan_all_unfold, deduplicate_unfold. cbn [fst snd].
    destruct (collect_images_spec settings cs) as (-> & _ & _).
    rewrite <-list_fmap_compose. apply list_fmap_id. }
  assert (Hiff : scan_all settings trivy cs = [] ↔ kept settings cs = []).
  { split.
    - intros Hnil. rewrite Hnil in Himg.
      destruct (kept settings cs) as [|c l]; [done|].
      assert (image_ref_of c ∈ sorted_set (image_ref_of <$> c :: l)) as Hin
        by (apply elem_of_sorted_set; rewrite fmap_cons; left).
      rewrite <-Himg in Hin. by apply elem_of_nil in Hin.
    - intros Hnil. rewrite Hnil in Himg. apply fmap_nil_inv in Himg. done. }
  split; [done|]. split.
  - intros Hnil. unfold main. apply Hiff in Hnil. by rewrite Hnil.
  - intros c Hc. rewrite Himg. apply elem_of_sorted_set. by apply list_elem_of_fmap_2.
Qed.

(** ** The shape of the tallies *)

Lemma set_Forall {V} (P : string * V → Prop) k v d :
  P (k, v) → Forall P d → Forall P (Py.set k v d).
Proof.
  intros Hkv. induction 1 as [|[k' v'] d Hx Hd IH]; simpl; [by repeat constructor|].
  destruct (String.eqb_spec k' k) as [->|Hne]; by constructor.
Qed.

Lemma get_elem {V} k (v : V) d : Py.get k d = Some v → (k, v) ∈ d.
Proof.
  induction d as [|[k' v'] d IH]; simpl; [done|].
  destruct (String.eqb_spec k' k) as [->|Hne].
  - intros [= ->]. left.
  - intros H. right. by apply IH.
Qed.

Lemma tidy_set k counts :
  Py.upper k = k → tidy counts → tidy (Py.set k (Py.get_or k 0 counts + 1) counts).
Proof.
  intros Hk [Hnd Hall]. split.
  - rewrite set_fst. case_decide; [done|].
    apply NoDup_app. split; [done|]. split; [|apply NoDup_singleton].
    intros x Hx ->%list_elem_of_singleton. done.
  - apply set_Forall; [|done]. split; [done|]. cbn [snd].
    unfold Py.get_or. destruct (Py.get k counts) as [n|] eqn:E; simpl; [|lia].
    apply get_elem in E. rewrite Forall_forall in Hall.
    destruct (Hall _ E) as [_ Hn]. simpl in Hn. lia.
Qed.

Lemma scan_vuln_tidy image_ref record st :
  tidy (st_sev_counts st) → tidy (st_sev_counts (scan_vuln image_ref record st).2).
Proof.
  intros Hst. destruct record as [| | | | |d]; try done.
  unfold scan_vuln, stamp, mbind, run_bind, Try.bind, Try.modify, Try.lift; simpl.
  assert (tidy (Py.set (Py.upper (Py.str (Py.get_or "Severity" (PStr "UNKNOWN") d)))
                  (Py.get_or (Py.upper (Py.str (Py.get_or "Severity" (PStr "UNKNOWN") d))) 0
                             (st_sev_counts st) + 1)
                  (st_sev_counts st))) as Hset
    by (apply tidy_set; [apply upper_idem | done]).
  by destruct (Py.has_key "image" d).
Qed.

Lemma scan_data_tidy image_ref data st :
  tidy (st_sev_counts st) → tidy (st_sev_counts (scan_data image_ref data st).2).
Proof.
  intros Hst. rewrite scan_data_unfold. destruct (data_iter data) as [results|]; [|done].
  pose proof (for_each_invariant (λ st, tidy (st_sev_counts st))
                (λ st, tidy (st_sev_counts st)) (scan_result image_ref) results st) as Hinv.
  destruct (Try.for_each results _ st) as [[[]|] st']; apply Hinv; try done.
  all: intros result st0 Hst0; rewrite scan_result_unfold.
  all: destruct (entry_iter result) as [vulns|]; [|done].
  all: pose proof (for_each_invariant (λ st, tidy (st_sev_counts st))
                     (λ st, tidy (st_sev_counts st)) (scan_vuln image_ref) vulns st0) as Hin.
  all: destruct (Try.for_each vulns _ st0) as [[[]|] st1]; apply Hin; try done.
  all: intros record st2 Hst2; pose proof (scan_vuln_tidy image_ref record st2 Hst2) as Hv.
  all: by destruct (scan_vuln image_ref record st2) as [[[]|] st3].
Qed.

(** X23: whatever the artifact holds, [sev_counts] names every severity
    once, in upper case, with a count of at least one. *)
Theorem scan_image_tidy_counts image_ref path artifact :
  let r := scan_image image_ref path artifact in
  NoDup (sev_counts r).*1
  ∧ Forall (λ kv, Py.upper kv.1 = kv.1 ∧ 1 ≤ kv.2) (sev_counts r).
Proof.
  cbv zeta.
  pose proof (scan_data_tidy image_ref (default (PDict []) artifact) scan_init) as H.
  apply H. split; [constructor | constructor].
Qed.
